(** * The MyDumper file loader of TiDB Lightning (br/pkg/lightning/mydump/loader.go)

    A shallow embedding of the metadata-discovery pipeline
    (scan, name routing, catalog assembly, deterministic sort) and of the
    schema-text accessors, together with the properties its specification
    states about it. *)

From Stdlib Require Import ZArith List String Ascii Lia Bool Permutation.
From stdpp Require Import base tactics option list sorting gmap strings.
Import ListNotations.

Local Open Scope string_scope.
Local Open Scope list_scope.

(** ** Machine integers *)

(** Go's [int64] (and [int] on the 64-bit targets TiDB supports): a value in
    [-2^63, 2^63) with two's-complement wrap-around on overflow. *)
Definition int64_wrap (z : Z) : Z :=
  ((z + 2 ^ 63) mod 2 ^ 64 - 2 ^ 63)%Z.

Definition int64_add (a b : Z) : Z := int64_wrap (a + b).
Definition int64_sub (a b : Z) : Z := int64_wrap (a - b).

(** ** Errors *)

(** The normalized error classes of package [common] used by the loader. *)
Inductive ErrCode :=
| ErrTooManySourceFiles
| ErrStorageUnknown
| ErrTableRoute
| ErrInvalidSchemaFile.

#[global] Instance ErrCode_eq_dec : EqDecision ErrCode.
Proof. solve_decision. Defined.

(** Error values.  [Foreign] is an error produced by a collaborator (storage,
    file router, table router, statement extraction); [Errorf] is
    [errors.Errorf]; [Annotated] is [errors.Annotate]/[Annotatef];
    [Normalized c msg] is [common.c.GenWithStack(msg)] and
    [Wrapped c msg e] is [common.c.Wrap(e).GenWithStack(msg)].
    [errors.Trace] only records a stack and is the identity here. *)
Inductive error :=
| Foreign (msg : string)
| Errorf (msg : string)
| Annotated (msg : string) (cause : error)
| Normalized (code : ErrCode) (msg : string)
| Wrapped (code : ErrCode) (msg : string) (cause : error).

(** The sentinel [common.ErrTooManySourceFiles]. *)
Definition TooManySourceFiles : error :=
  Normalized ErrTooManySourceFiles "too many source files".

(** [errors.Cause]: annotations are transparent, a normalized error is its
    own cause. *)
Fixpoint Cause (e : error) : error :=
  match e with
  | Annotated _ c => Cause c
  | _ => e
  end.

(** The class of an error as an operator sees it: the code of the outermost
    normalized error ([None] for errors that carry no class). *)
Definition error_kind (e : error) : option ErrCode :=
  match Cause e with
  | Normalized c _ | Wrapped c _ _ => Some c
  | _ => None
  end.

(** [errors.ErrorEqual]: two normalized errors are equal when their codes
    are; collaborator errors are compared by message and are never taken
    for one of the loader's own classes. *)
Definition ErrorEqual (e1 e2 : error) : bool :=
  match error_kind e1, error_kind e2 with
  | Some c1, Some c2 => bool_decide (c1 = c2)
  | None, None =>
      match Cause e1, Cause e2 with
      | Foreign m1, Foreign m2 | Errorf m1, Errorf m2 => String.eqb m1 m2
      | _, _ => false
      end
  | _, _ => false
  end.

(** ** Data model *)

(** [SourceType]: the constants are declared next to the file router; the
    first one is the zero value, which none of the loader's buckets takes. *)
Inductive SourceType :=
| SourceTypeIgnore
| SourceTypeSchemaSchema
| SourceTypeTableSchema
| SourceTypeSQL
| SourceTypeCSV
| SourceTypeParquet
| SourceTypeViewSchema.

(** [Compression] is an integer enumeration; the loader only copies it. *)
Definition Compression := Z.

Module filter.
(** [filter.Table]: a (schema, table) name pair, used as a map key. *)
Record Table := mkTable { Schema : string; Name : string }.
End filter.

Definition table_key (t : filter.Table) : string * string :=
  (filter.Schema t, filter.Name t).

Record SourceFileMeta := mkSourceFileMeta {
  Path : string;
  Type_ : SourceType;
  Compression_ : Compression;
  SortKey : string;
  FileSize : Z
}.

Record FileInfo := mkFileInfo {
  TableName : filter.Table;
  FileMeta : SourceFileMeta
}.

Module MDTableMeta.
Record t := mk {
  DB : string;
  Name : string;
  SchemaFile : FileInfo;
  DataFiles : list FileInfo;
  charSet : string;
  TotalSize : Z;
  IndexRatio : Z;   (* float64 in the source; only 0.0 is ever stored *)
  IsRowOrdered : bool
}.
End MDTableMeta.

Module MDDatabaseMeta.
Record t := mk {
  Name : string;
  SchemaFile : FileInfo;
  Tables : list MDTableMeta.t;
  Views : list MDTableMeta.t;
  charSet : string
}.
End MDDatabaseMeta.

(** Zero values of the structs. *)
Definition zeroTable : filter.Table := filter.mkTable "" "".
Definition zeroFileMeta : SourceFileMeta :=
  mkSourceFileMeta "" SourceTypeIgnore 0%Z "" 0%Z.

(** ** Slices *)

(** A Go slice as the loader uses it: the visible elements and the capacity
    of the backing array.  Two slice headers alias when they were copied
    from one another and no reallocation happened in between. *)
Record slice (A : Type) := mkSlice { elems : list A; cap : nat }.
Arguments mkSlice {A} _ _.
Arguments elems {A} _.
Arguments cap {A} _.

Definition nil_slice {A} : slice A := mkSlice [] 0.

(** ** Collaborators *)

(** The result of the file-name classifier for one path. *)
Record RouteResult := mkRouteResult {
  res_Schema : string;
  res_Name : string;
  res_Type : SourceType;
  res_Compression : Compression;
  res_Key : string
}.

(** [FileRouter.Route]: an error, [nil] (path not recognised) or a result. *)
Definition FileRouter := string -> error + option RouteResult.

(** [filter.Filter]. *)
Record Filter := mkFilter {
  MatchSchema : string -> bool;
  MatchTable : string -> string -> bool
}.

(** [regexprrouter.RouteTable.Route]. *)
Definition RouteTable := string -> string -> error + (string * string).

(** [storage.ExternalStorage] as the loader consumes it: [WalkDir] visits
    [walk_entries] in order and, when the visitor never fails, finally
    returns [walk_failure]; [FileExists] answers for a path. *)
Record ExternalStorage := mkStorage {
  walk_entries : list (string * Z);
  walk_failure : option error;
  FileExists : string -> error + bool
}.

Record MDLoaderSetupConfig := mkSetupCfg { MaxScanFiles : Z }.

Definition DefaultMDLoaderSetupConfig : MDLoaderSetupConfig := mkSetupCfg 0.

Definition WithMaxScanFiles (maxScanFiles : Z) (cfg : MDLoaderSetupConfig)
  : MDLoaderSetupConfig := mkSetupCfg maxScanFiles.

Record MDLoader := mkMDLoader {
  store : ExternalStorage;
  dbs : list MDDatabaseMeta.t;
  filter_ : Filter;
  router : option RouteTable;
  fileRouter : FileRouter;
  charSet : string
}.

Record mdLoaderSetup := mkSetup {
  loader : MDLoader;
  dbSchemas : slice FileInfo;
  tableSchemas : slice FileInfo;
  viewSchemas : slice FileInfo;
  tableDatas : slice FileInfo;
  dbIndexMap : gmap string nat;
  tableIndexMap : gmap (string * string) nat;
  setupCfg : MDLoaderSetupConfig
}.

(** Field updates. *)
Definition set_dbs (l : MDLoader) (d : list MDDatabaseMeta.t) : MDLoader :=
  mkMDLoader (store l) d (filter_ l) (router l) (fileRouter l) (charSet l).

Definition set_loader (s : mdLoaderSetup) (l : MDLoader) : mdLoaderSetup :=
  mkSetup l (dbSchemas s) (tableSchemas s) (viewSchemas s) (tableDatas s)
          (dbIndexMap s) (tableIndexMap s) (setupCfg s).

Definition set_dbSchemas (s : mdLoaderSetup) (x : slice FileInfo) : mdLoaderSetup :=
  mkSetup (loader s) x (tableSchemas s) (viewSchemas s) (tableDatas s)
          (dbIndexMap s) (tableIndexMap s) (setupCfg s).

Definition set_tableSchemas (s : mdLoaderSetup) (x : slice FileInfo) : mdLoaderSetup :=
  mkSetup (loader s) (dbSchemas s) x (viewSchemas s) (tableDatas s)
          (dbIndexMap s) (tableIndexMap s) (setupCfg s).

Definition set_viewSchemas (s : mdLoaderSetup) (x : slice FileInfo) : mdLoaderSetup :=
  mkSetup (loader s) (dbSchemas s) (tableSchemas s) x (tableDatas s)
          (dbIndexMap s) (tableIndexMap s) (setupCfg s).

Definition set_tableDatas (s : mdLoaderSetup) (x : slice FileInfo) : mdLoaderSetup :=
  mkSetup (loader s) (dbSchemas s) (tableSchemas s) (viewSchemas s) x
          (dbIndexMap s) (tableIndexMap s) (setupCfg s).

Definition set_dbIndexMap (s : mdLoaderSetup) (m : gmap string nat) : mdLoaderSetup :=
  mkSetup (loader s) (dbSchemas s) (tableSchemas s) (viewSchemas s) (tableDatas s)
          m (tableIndexMap s) (setupCfg s).

Definition set_tableIndexMap (s : mdLoaderSetup) (m : gmap (string * string) nat)
  : mdLoaderSetup :=
  mkSetup (loader s) (dbSchemas s) (tableSchemas s) (viewSchemas s) (tableDatas s)
          (dbIndexMap s) m (setupCfg s).

(** ** A state, error and panic monad

    The setup methods mutate the [mdLoaderSetup] they are called on, may
    return an error, and may panic (nil dereference, index out of range). *)
Inductive res (St A : Type) :=
| Ret (s : St) (a : A)
| Fail (s : St) (e : error)
| Crash (reason : string).
Arguments Ret {St A} _ _.
Arguments Fail {St A} _ _.
Arguments Crash {St A} _.

Definition M (St A : Type) := St -> res St A.

#[global] Instance M_ret St : MRet (M St) := fun A a s => Ret s a.
#[global] Instance M_bind St : MBind (M St) := fun A B f m s =>
  match m s with
  | Ret s' a => f a s'
  | Fail s' e => Fail s' e
  | Crash r => Crash r
  end.

Definition get {St} : M St St := fun s => Ret s s.
Definition put {St} (s : St) : M St unit := fun _ => Ret s tt.
Definition modify {St} (f : St -> St) : M St unit := fun s => Ret (f s) tt.
Definition fail {St A} (e : error) : M St A := fun s => Fail s e.
Definition crash {St A} (reason : string) : M St A := fun _ => Crash reason.

(** [for i, x := range l { body i x }] with early return on error. *)
Fixpoint for_range {St A} (body : nat -> A -> M St unit) (i : nat) (l : list A)
  : M St unit :=
  match l with
  | [] => mret tt
  | x :: l' => _ ← body i x; for_range body (S i) l'
  end.

Definition nil_deref : string :=
  "runtime error: invalid memory address or nil pointer dereference".
Definition index_out_of_range : string := "index out of range".

Section Loader.

(** The capacity the runtime chooses when [append] has to reallocate a full
    backing array of the given capacity (unspecified by the language). *)
Variable growslice : nat -> nat.

(** [filter.Table.String], [common.EscapeIdentifier] and [ExportStatement]
    live outside the loader. *)
Variable Table_String : filter.Table -> string.
Variable EscapeIdentifier : string -> string.
Variable ExportStatement : ExternalStorage -> FileInfo -> string -> error + string.

(** [append(s, x)]: in place when the backing array has room, otherwise into
    a fresh array. *)
Definition reallocates {A} (s : slice A) : bool :=
  negb (length (elems s) <? cap s)%nat.

Definition append {A} (s : slice A) (x : A) : slice A :=
  if reallocates s then mkSlice (elems s ++ [x]) (growslice (cap s))
  else mkSlice (elems s ++ [x]) (cap s).

(** ** Scanner *)

Definition shouldSkip (l : MDLoader) (table : filter.Table) : bool :=
  if (String.length (filter.Name table) =? 0)%nat
  then negb (MatchSchema (filter_ l) (filter.Schema table))
  else negb (MatchTable (filter_ l) (filter.Schema table) (filter.Name table)).

(** [store.WalkDir]: the visitor's first error stops the walk and is
    returned. *)
Fixpoint WalkDir {St} (entries : list (string * Z)) (failure : option error)
    (visit : string -> Z -> St -> St * option error) (st : St)
  : St * option error :=
  match entries with
  | [] => (st, failure)
  | (path, size) :: rest =>
      match visit path size st with
      | (st', Some e) => (st', Some e)
      | (st', None) => WalkDir rest failure visit st'
      end
  end.

(** The visitor closure of [listFiles]; its state is the setup and the
    captured counter [totalScannedFileCount].  [filepath.ToSlash] is taken
    as part of the file router; logging is not modelled. *)
Definition listFiles_visit (path : string) (size : Z) (st : mdLoaderSetup * Z)
  : (mdLoaderSetup * Z) * option error :=
  let '(s, totalScannedFileCount) := st in
  let totalScannedFileCount := int64_add totalScannedFileCount 1 in
  if ((MaxScanFiles (setupCfg s) >? 0)
      && (totalScannedFileCount >? MaxScanFiles (setupCfg s)))%Z
  then ((s, totalScannedFileCount), Some TooManySourceFiles)
  else
    match fileRouter (loader s) path with
    | inl err =>
        ((s, totalScannedFileCount),
         Some (Annotated ("apply file routing on file '" ++ path ++ "' failed") err))
    | inr None => ((s, totalScannedFileCount), None)
    | inr (Some res) =>
        let info :=
          mkFileInfo (filter.mkTable (res_Schema res) (res_Name res))
                     (mkSourceFileMeta path (res_Type res) (res_Compression res)
                                       (res_Key res) size) in
        if shouldSkip (loader s) (TableName info)
        then ((s, totalScannedFileCount), None)
        else
          let s' :=
            match res_Type res with
            | SourceTypeSchemaSchema => set_dbSchemas s (append (dbSchemas s) info)
            | SourceTypeTableSchema => set_tableSchemas s (append (tableSchemas s) info)
            | SourceTypeViewSchema => set_viewSchemas s (append (viewSchemas s) info)
            | SourceTypeSQL | SourceTypeCSV | SourceTypeParquet =>
                set_tableDatas s (append (tableDatas s) info)
            | SourceTypeIgnore => s
            end in
          ((s', totalScannedFileCount), None)
    end.

Definition listFiles (st : ExternalStorage) (s : mdLoaderSetup)
  : mdLoaderSetup * option error :=
  let '((s', _), err) :=
    WalkDir (walk_entries st) (walk_failure st) listFiles_visit (s, 0%Z) in
  (s', err).

(** ** Name router pass *)

(** The local [dbInfo] of [route]; the map [knownDBNames] holds one
    [*dbInfo] per key and no pointer is stored under two keys, so the map
    is kept by value. *)
Record dbInfo := mkDbInfo {
  fileMeta : SourceFileMeta;
  count : Z   (* means file count(db/table/view schema and table data) *)
}.

(** What the closure [runRoute] sees while it ranges over one bucket:
    [s.dbSchemas] (which it appends to), the captured map, the slice [arr]
    it was called with, and whether [arr] still shares its backing array
    with [s.dbSchemas]. *)
Record routeState := mkRouteState {
  rs_dbSchemas : slice FileInfo;
  knownDBNames : gmap string dbInfo;
  arr : list FileInfo;
  aliased : bool
}.

(** [arr[i].TableName = filter.Table{Schema: targetDB, Name: targetTable}];
    the write reaches [s.dbSchemas] while the two alias. *)
Definition rename (targetDB targetTable : string) (f : FileInfo) : FileInfo :=
  mkFileInfo (filter.mkTable targetDB targetTable) (FileMeta f).

Definition write_arr (i : nat) (targetDB targetTable : string) (st : routeState)
  : routeState :=
  mkRouteState
    (if aliased st
     then mkSlice (alter (rename targetDB targetTable) i (elems (rs_dbSchemas st)))
                  (cap (rs_dbSchemas st))
     else rs_dbSchemas st)
    (knownDBNames st)
    (alter (rename targetDB targetTable) i (arr st))
    (aliased st).

Definition runRoute_body (r : RouteTable) (i : nat) (info : FileInfo)
  : M routeState unit := fun st =>
  let rawDB := filter.Schema (TableName info) in
  let rawTable := filter.Name (TableName info) in
  match r rawDB rawTable with
  | inl err => Fail st err
  | inr (targetDB, targetTable) =>
      if bool_decide (targetDB <> rawDB) then
        match knownDBNames st !! rawDB with
        | None => Crash nil_deref
        | Some oldInfo =>
            let oldInfo := mkDbInfo (fileMeta oldInfo) (int64_sub (count oldInfo) 1) in
            let known := <[rawDB := oldInfo]> (knownDBNames st) in
            match known !! targetDB with
            | Some newInfo =>
                let newInfo := mkDbInfo (fileMeta newInfo) (int64_add (count newInfo) 1) in
                Ret (write_arr i targetDB targetTable
                       (mkRouteState (rs_dbSchemas st) (<[targetDB := newInfo]> known)
                                     (arr st) (aliased st))) tt
            | None =>
                let newInfo := mkDbInfo (fileMeta oldInfo) (int64_add 1 1) in
                let synthesized :=
                  mkFileInfo (filter.mkTable targetDB "") (fileMeta oldInfo) in
                Ret (write_arr i targetDB targetTable
                       (mkRouteState (append (rs_dbSchemas st) synthesized)
                                     (<[targetDB := newInfo]> known)
                                     (arr st)
                                     (aliased st && negb (reallocates (rs_dbSchemas st))))) tt
            end
        end
      else Ret (write_arr i targetDB targetTable st) tt
  end.

(** [runRoute(a)], entered with [arr = a]. *)
Definition runRoute (r : RouteTable) : M routeState unit := fun st =>
  for_range (runRoute_body r) 0 (arr st) st.

(** The three counting loops: [knownDBNames[info.TableName.Schema].count++]
    dereferences the map entry without a presence check. *)
Definition count_file (i : nat) (info : FileInfo) : M (gmap string dbInfo) unit :=
  fun known =>
  match known !! filter.Schema (TableName info) with
  | None => Crash nil_deref
  | Some d =>
      Ret (<[filter.Schema (TableName info) :=
               mkDbInfo (fileMeta d) (int64_add (count d) 1)]> known) tt
  end.

Definition base_counts (dbSchemas : list FileInfo) : gmap string dbInfo :=
  foldl (fun known info =>
           <[filter.Schema (TableName info) := mkDbInfo (FileMeta info) 1]> known)
        ∅ dbSchemas.

Definition count_files (s : mdLoaderSetup) : M (gmap string dbInfo) unit :=
  _ ← for_range count_file 0 (elems (tableSchemas s));
  _ ← for_range count_file 0 (elems (viewSchemas s));
  for_range count_file 0 (elems (tableDatas s)).

(** [remainingSchemas := s.dbSchemas[:0]] shares the backing array of
    [s.dbSchemas], so every file appended to it is written over the front
    of the bucket (never past the element the loop is reading).  While the
    loop runs, [s.dbSchemas] keeps its length and shows the files kept so
    far followed by what was there. *)
Definition filtered_in_place {A} (remainingSchemas dbSchemas : list A) : list A :=
  remainingSchemas ++ drop (length remainingSchemas) dbSchemas.

(** The closing loop, appending to [remainingSchemas]. *)
Definition keep_remaining (known : gmap string dbInfo) (i : nat) (info : FileInfo)
  : M (list FileInfo) unit := fun remainingSchemas =>
  match known !! filter.Schema (TableName info) with
  | None => Crash nil_deref
  | Some dbInfo =>
      if (count dbInfo >? 0)%Z then Ret (remainingSchemas ++ [info]) tt
      else if (count dbInfo <? 0)%Z then
        Fail remainingSchemas
             (Normalized ErrTableRoute
                ("something wrong happened when route " ++ Table_String (TableName info)))
      else Ret remainingSchemas tt
  end.

Inductive bucket := DbSchemas | TableSchemas | ViewSchemas | TableDatas.

Definition bucket_of (b : bucket) (s : mdLoaderSetup) : slice FileInfo :=
  match b with
  | DbSchemas => dbSchemas s
  | TableSchemas => tableSchemas s
  | ViewSchemas => viewSchemas s
  | TableDatas => tableDatas s
  end.

(** The setup as one call of [runRoute] leaves it. *)
Definition commit (b : bucket) (s : mdLoaderSetup) (st : routeState) : mdLoaderSetup :=
  let s := set_dbSchemas s (rs_dbSchemas st) in
  match b with
  | DbSchemas => s
  | TableSchemas => set_tableSchemas s (mkSlice (arr st) (cap (tableSchemas s)))
  | ViewSchemas => set_viewSchemas s (mkSlice (arr st) (cap (viewSchemas s)))
  | TableDatas => set_tableDatas s (mkSlice (arr st) (cap (tableDatas s)))
  end.

(** [runRoute(s.<bucket>)] on the setup and the captured map. *)
Definition route_pass (r : RouteTable) (b : bucket)
  : M (mdLoaderSetup * gmap string dbInfo) unit := fun '(s, known) =>
  let st := mkRouteState (dbSchemas s) known (elems (bucket_of b s))
                         (match b with DbSchemas => true | _ => false end) in
  match runRoute r st with
  | Ret st' _ => Ret (commit b s st', knownDBNames st') tt
  | Fail st' e => Fail (commit b s st', knownDBNames st') e
  | Crash reason => Crash reason
  end.

(** The four calls of [runRoute], in the order of the source. *)
Definition route_rewrite (r : RouteTable)
  : M (mdLoaderSetup * gmap string dbInfo) unit :=
  _ ← route_pass r DbSchemas;
  _ ← route_pass r TableSchemas;
  _ ← route_pass r ViewSchemas;
  route_pass r TableDatas.

Definition route : M mdLoaderSetup unit := fun s =>
  match router (loader s) with
  | None => Ret s tt
  | Some r =>
      match count_files s (base_counts (elems (dbSchemas s))) with
      | Crash reason => Crash reason
      | Fail _ e => Fail s e
      | Ret known _ =>
          match route_rewrite r (s, known) with
          | Crash reason => Crash reason
          | Fail (s', _) e => Fail s' e
          | Ret (s', known') _ =>
              match for_range (keep_remaining known') 0 (elems (dbSchemas s')) [] with
              | Crash reason => Crash reason
              | Fail remainingSchemas e =>
                  Fail (set_dbSchemas s'
                          (mkSlice (filtered_in_place remainingSchemas
                                                      (elems (dbSchemas s')))
                                   (cap (dbSchemas s')))) e
              | Ret remainingSchemas _ =>
                  Ret (set_dbSchemas s' (mkSlice remainingSchemas (cap (dbSchemas s')))) tt
              end
          end
      end
  end.

(** ** Catalog assembler *)

(** [insertDB] returns the database (as its index in [s.loader.dbs], the
    model of the pointer) and whether it already existed. *)
Definition insertDB (f : FileInfo) : M mdLoaderSetup (nat * bool) := fun s =>
  match dbIndexMap s !! filter.Schema (TableName f) with
  | Some dbIndex =>
      match dbs (loader s) !! dbIndex with
      | Some _ => Ret s (dbIndex, true)
      | None => Crash index_out_of_range
      end
  | None =>
      let dbIndex := length (dbs (loader s)) in
      let ptr := MDDatabaseMeta.mk (filter.Schema (TableName f)) f [] []
                                   (charSet (loader s)) in
      let s := set_dbIndexMap s (<[filter.Schema (TableName f) := dbIndex]> (dbIndexMap s)) in
      Ret (set_loader s (set_dbs (loader s) (dbs (loader s) ++ [ptr]))) (dbIndex, false)
  end.

(** The path-less database reference [insertTable] and [insertView] build. *)
Definition dbFileInfo (fileInfo : FileInfo) : FileInfo :=
  mkFileInfo (filter.mkTable (filter.Schema (TableName fileInfo)) "")
             (mkSourceFileMeta "" SourceTypeSchemaSchema 0%Z "" 0%Z).

(** Update through a [*MDDatabaseMeta]. *)
Definition update_db (dbIndex : nat) (f : MDDatabaseMeta.t -> MDDatabaseMeta.t)
  : M mdLoaderSetup unit :=
  modify (fun s => set_loader s (set_dbs (loader s) (alter f dbIndex (dbs (loader s))))).

Definition set_Tables (tables : list MDTableMeta.t) (d : MDDatabaseMeta.t)
  : MDDatabaseMeta.t :=
  MDDatabaseMeta.mk (MDDatabaseMeta.Name d) (MDDatabaseMeta.SchemaFile d) tables
                    (MDDatabaseMeta.Views d) (MDDatabaseMeta.charSet d).

Definition set_Views (views : list MDTableMeta.t) (d : MDDatabaseMeta.t)
  : MDDatabaseMeta.t :=
  MDDatabaseMeta.mk (MDDatabaseMeta.Name d) (MDDatabaseMeta.SchemaFile d)
                    (MDDatabaseMeta.Tables d) views (MDDatabaseMeta.charSet d).

(** [insertTable] returns the table (as database index and index in that
    database's [Tables]), [dbExists] and [tableExists]. *)
Definition insertTable (fileInfo : FileInfo)
  : M mdLoaderSetup ((nat * nat) * bool * bool) :=
  '(dbIndex, dbExists) ← insertDB (dbFileInfo fileInfo);
  s ← get;
  match dbs (loader s) !! dbIndex with
  | None => crash index_out_of_range
  | Some dbMeta =>
      match tableIndexMap s !! table_key (TableName fileInfo) with
      | Some tableIndex =>
          match MDDatabaseMeta.Tables dbMeta !! tableIndex with
          | Some _ => mret ((dbIndex, tableIndex), dbExists, true)
          | None => crash index_out_of_range
          end
      | None =>
          let tableIndex := length (MDDatabaseMeta.Tables dbMeta) in
          let ptr := MDTableMeta.mk (filter.Schema (TableName fileInfo))
                                    (filter.Name (TableName fileInfo))
                                    fileInfo [] (charSet (loader s)) 0%Z 0%Z true in
          _ ← put (set_tableIndexMap s
                     (<[table_key (TableName fileInfo) := tableIndex]> (tableIndexMap s)));
          _ ← update_db dbIndex (fun d => set_Tables (MDDatabaseMeta.Tables d ++ [ptr]) d);
          mret ((dbIndex, tableIndex), dbExists, false)
      end
  end.

Definition insertView (fileInfo : FileInfo) : M mdLoaderSetup (bool * bool) :=
  '(dbIndex, dbExists) ← insertDB (dbFileInfo fileInfo);
  s ← get;
  match tableIndexMap s !! table_key (TableName fileInfo) with
  | Some _ =>
      let meta := MDTableMeta.mk (filter.Schema (TableName fileInfo))
                                 (filter.Name (TableName fileInfo))
                                 fileInfo [] (charSet (loader s)) 0%Z 0%Z true in
      _ ← update_db dbIndex (fun d => set_Views (MDDatabaseMeta.Views d ++ [meta]) d);
      mret (dbExists, true)
  | None => mret (dbExists, false)
  end.

(** ** Deterministic sorter *)

(** [sort.SliceStable] of the Go library, by its contract: a stable sort
    for [less].  The model is the insertion sort the library itself runs on
    short slices: [data[j]] is swapped leftwards while it is less than its
    left neighbour.  [sift] works on the already sorted prefix held in
    reverse (nearest neighbour first). *)
Fixpoint sift {A} (less : A -> A -> bool) (x : A) (rprefix : list A) : list A :=
  match rprefix with
  | [] => [x]
  | y :: r => if less x y then y :: sift less x r else x :: y :: r
  end.

Definition SliceStable {A} (less : A -> A -> bool) (data : list A) : list A :=
  reverse (foldl (fun rprefix x => sift less x rprefix) [] data).

Definition less_TotalSize (a b : MDTableMeta.t) : bool :=
  (MDTableMeta.TotalSize a <? MDTableMeta.TotalSize b)%Z.

(** Go compares strings bytewise, as [String.ltb] does. *)
Definition less_SortKey (a b : FileInfo) : bool :=
  String.ltb (SortKey (FileMeta a)) (SortKey (FileMeta b)).

Definition sort_DataFiles (tbMeta : MDTableMeta.t) : MDTableMeta.t :=
  MDTableMeta.mk (MDTableMeta.DB tbMeta) (MDTableMeta.Name tbMeta)
                 (MDTableMeta.SchemaFile tbMeta)
                 (SliceStable less_SortKey (MDTableMeta.DataFiles tbMeta))
                 (MDTableMeta.charSet tbMeta) (MDTableMeta.TotalSize tbMeta)
                 (MDTableMeta.IndexRatio tbMeta) (MDTableMeta.IsRowOrdered tbMeta).

(** The body of the last loop of [setup] for one database. *)
Definition sort_db (meta : MDDatabaseMeta.t) : MDDatabaseMeta.t :=
  set_Tables (map sort_DataFiles (SliceStable less_TotalSize (MDDatabaseMeta.Tables meta)))
             meta.

(** ** setup *)

(** [tableMeta.DataFiles = append(...)] and [tableMeta.TotalSize += ...]. *)
Definition add_DataFile (fileInfo : FileInfo) (tableMeta : MDTableMeta.t)
  : MDTableMeta.t :=
  MDTableMeta.mk (MDTableMeta.DB tableMeta) (MDTableMeta.Name tableMeta)
                 (MDTableMeta.SchemaFile tableMeta)
                 (MDTableMeta.DataFiles tableMeta ++ [fileInfo])
                 (MDTableMeta.charSet tableMeta)
                 (int64_add (MDTableMeta.TotalSize tableMeta) (FileSize (FileMeta fileInfo)))
                 (MDTableMeta.IndexRatio tableMeta) (MDTableMeta.IsRowOrdered tableMeta).

Definition router_is_nil (s : mdLoaderSetup) : bool :=
  match router (loader s) with None => true | Some _ => false end.

Definition setup_dbSchema (i : nat) (fileInfo : FileInfo) : M mdLoaderSetup unit :=
  '(_, dbExists) ← insertDB fileInfo;
  s ← get;
  if dbExists && router_is_nil s
  then fail (Normalized ErrInvalidSchemaFile
               ("invalid database schema file, duplicated item - "
                  ++ Path (FileMeta fileInfo)))
  else mret tt.

Definition setup_tableSchema (i : nat) (fileInfo : FileInfo) : M mdLoaderSetup unit :=
  '(_, _, tableExists) ← insertTable fileInfo;
  s ← get;
  if tableExists && router_is_nil s
  then fail (Normalized ErrInvalidSchemaFile
               ("invalid table schema file, duplicated item - "
                  ++ Path (FileMeta fileInfo)))
  else mret tt.

Definition setup_viewSchema (i : nat) (fileInfo : FileInfo) : M mdLoaderSetup unit :=
  '(_, tableExists) ← insertView fileInfo;
  if negb tableExists
  then fail (Normalized ErrInvalidSchemaFile
               ("invalid view schema file, miss host table schema for view '"
                  ++ filter.Name (TableName fileInfo) ++ "'"))
  else mret tt.

Definition setup_tableData (i : nat) (fileInfo : FileInfo) : M mdLoaderSetup unit :=
  '(dbIndex, tableIndex, _, _) ←
     insertTable (mkFileInfo (TableName fileInfo) zeroFileMeta);
  update_db dbIndex
    (fun d => set_Tables (alter (add_DataFile fileInfo) tableIndex (MDDatabaseMeta.Tables d)) d).

(** Everything [setup] does after [route]: the four assembly loops and the
    sorting loop. *)
Definition assemble : M mdLoaderSetup unit :=
  s ← get; _ ← for_range setup_dbSchema 0 (elems (dbSchemas s));
  s ← get; _ ← for_range setup_tableSchema 0 (elems (tableSchemas s));
  s ← get; _ ← for_range setup_viewSchema 0 (elems (viewSchemas s));
  s ← get; for_range setup_tableData 0 (elems (tableDatas s)).

Definition sort_dbs : M mdLoaderSetup unit :=
  modify (fun s => set_loader s (set_dbs (loader s) (map sort_db (dbs (loader s))))).

Definition setup (st : ExternalStorage) : M mdLoaderSetup unit := fun s =>
  let '(s, err) := listFiles st s in
  let proceed (gerr : option error) : res mdLoaderSetup unit :=
    match route s with
    | Crash reason => Crash reason
    | Fail s' e => Fail s' (Wrapped ErrTableRoute "table route error" e)
    | Ret s' _ =>
        match (_ ← assemble; sort_dbs) s' with
        | Ret s'' _ =>
            match gerr with
            | Some e => Fail s'' e
            | None => Ret s'' tt
            end
        | other => other
        end
    end in
  match err with
  | Some e =>
      if ErrorEqual e TooManySourceFiles then proceed (Some e)
      else Fail s (Wrapped ErrStorageUnknown "list file failed" e)
  | None => proceed None
  end.

(** What a call of [NewMyDumpLoaderWithStore] yields: the pair it returns,
    or a panic. *)
Inductive loadResult :=
| Returned (mdl : option MDLoader) (err : option error)
| Panicked (reason : string).

(** The [mdLoaderSetup] value [NewMyDumpLoaderWithStore] builds: the options
    applied to the default configuration, the loader [mdl] and empty index
    maps. *)
Definition new_setup (st : ExternalStorage) (f : Filter)
    (r : option RouteTable) (fr : FileRouter) (cs : string)
    (opts : list (MDLoaderSetupConfig -> MDLoaderSetupConfig)) : mdLoaderSetup :=
  let mdLoaderSetupCfg := foldl (fun cfg o => o cfg) DefaultMDLoaderSetupConfig opts in
  let mdl := mkMDLoader st [] f r fr cs in
  mkSetup mdl nil_slice nil_slice nil_slice nil_slice ∅ ∅ mdLoaderSetupCfg.

(** [NewMyDumpLoaderWithStore] from the point where the configuration has
    been turned into the collaborators ([f], [r], [fileRouter]); the options
    are applied to the default setup configuration as in the source. *)
Definition NewMyDumpLoaderWithStore (st : ExternalStorage) (f : Filter)
    (r : option RouteTable) (fr : FileRouter) (cs : string)
    (opts : list (MDLoaderSetupConfig -> MDLoaderSetupConfig)) : loadResult :=
  let setup_ := new_setup st f r fr cs opts in
  match setup (store (loader setup_)) setup_ with
  | Crash reason => Panicked reason
  | Fail s err =>
      if ErrorEqual err TooManySourceFiles then Returned (Some (loader s)) (Some err)
      else Returned None (Some err)
  | Ret s _ => Returned (Some (loader s)) None
  end.

(** ** Schema text *)

(** The Go library functions behind [strings.TrimSpace], on the bytes of a
    string.  [utf8.RuneError] is U+FFFD, [utf8.RuneSelf] the first byte
    value that is not a character of its own, [utf8.UTFMax] the longest
    encoding. *)
Definition utf8_RuneError : Z := 0xFFFD%Z.
Definition utf8_RuneSelf : Z := 0x80%Z.
Definition utf8_UTFMax : nat := 4.

Definition byte_of (c : ascii) : Z := Z.of_N (N_of_ascii c).

(** The table [first] of package [utf8] with [acceptRanges]: for a leading
    byte, the length of the encoding and the range its second byte must lie
    in; [None] for the bytes that start no encoding. *)
Definition utf8_first (s0 : Z) : option (nat * Z * Z) :=
  (if (0xC2 <=? s0) && (s0 <=? 0xDF) then Some (2%nat, 0x80, 0xBF)
   else if s0 =? 0xE0 then Some (3%nat, 0xA0, 0xBF)
   else if (0xE1 <=? s0) && (s0 <=? 0xEC) then Some (3%nat, 0x80, 0xBF)
   else if s0 =? 0xED then Some (3%nat, 0x80, 0x9F)
   else if (0xEE <=? s0) && (s0 <=? 0xEF) then Some (3%nat, 0x80, 0xBF)
   else if s0 =? 0xF0 then Some (4%nat, 0x90, 0xBF)
   else if (0xF1 <=? s0) && (s0 <=? 0xF3) then Some (4%nat, 0x80, 0xBF)
   else if s0 =? 0xF4 then Some (4%nat, 0x80, 0x8F)
   else None)%Z.

(** A continuation byte. *)
Definition utf8_cont (b : Z) : bool := ((0x80 <=? b) && (b <=? 0xBF))%Z.

(** [utf8.DecodeRuneInString]: the first rune of [p] and its width in
    bytes; [(RuneError, 0)] for the empty string and [(RuneError, 1)] for an
    encoding that is invalid or cut short. *)
Definition utf8_DecodeRuneInString (p : list ascii) : Z * nat :=
  match p with
  | [] => (utf8_RuneError, 0%nat)
  | c0 :: rest =>
      let s0 := byte_of c0 in
      if (s0 <? utf8_RuneSelf)%Z then (s0, 1%nat)
      else
        match utf8_first s0 with
        | None => (utf8_RuneError, 1%nat)
        | Some (sz, lo, hi) =>
            if (length p <? sz)%nat then (utf8_RuneError, 1%nat)
            else
              match rest with
              | [] => (utf8_RuneError, 1%nat)
              | c1 :: rest1 =>
                  let s1 := byte_of c1 in
                  if ((s1 <? lo) || (hi <? s1))%Z then (utf8_RuneError, 1%nat)
                  else if (sz <=? 2)%nat then
                    (Z.lor (Z.shiftl (Z.land s0 0x1F%Z) 6%Z) (Z.land s1 0x3F%Z), 2%nat)
                  else
                    match rest1 with
                    | [] => (utf8_RuneError, 1%nat)
                    | c2 :: rest2 =>
                        let s2 := byte_of c2 in
                        if negb (utf8_cont s2) then (utf8_RuneError, 1%nat)
                        else if (sz <=? 3)%nat then
                          (Z.lor (Z.lor (Z.shiftl (Z.land s0 0x0F%Z) 12%Z)
                                        (Z.shiftl (Z.land s1 0x3F%Z) 6%Z))
                                 (Z.land s2 0x3F%Z), 3%nat)
                        else
                          match rest2 with
                          | [] => (utf8_RuneError, 1%nat)
                          | c3 :: _ =>
                              let s3 := byte_of c3 in
                              if negb (utf8_cont s3) then (utf8_RuneError, 1%nat)
                              else
                                (Z.lor (Z.lor (Z.lor (Z.shiftl (Z.land s0 0x07%Z) 18%Z)
                                                     (Z.shiftl (Z.land s1 0x3F%Z) 12%Z))
                                              (Z.shiftl (Z.land s2 0x3F%Z) 6%Z))
                                       (Z.land s3 0x3F%Z), 4%nat)
                          end
                    end
              end
        end
  end.

(** [utf8.RuneStart]: the byte is not a continuation byte. *)
Definition utf8_RuneStart (b : Z) : bool := negb (Z.land b 0xC0 =? 0x80)%Z.

(** The loop of [DecodeLastRuneInString] that backs up from [start] to the
    nearest byte that can start a rune, not below [lim]. *)
Fixpoint utf8_back_up (p : list ascii) (lim : Z) (steps : nat) (start : Z) : Z :=
  match steps with
  | O => start
  | S steps' =>
      if (start <? lim)%Z then start
      else if utf8_RuneStart (byte_of (nth (Z.to_nat start) p zero)) then start
      else utf8_back_up p lim steps' (start - 1)%Z
  end.

(** [utf8.DecodeLastRuneInString]: the last rune of [p] and its width. *)
Definition utf8_DecodeLastRuneInString (p : list ascii) : Z * nat :=
  let end_ := length p in
  match end_ with
  | O => (utf8_RuneError, 0%nat)
  | S start =>
      let r := byte_of (nth start p zero) in
      if (r <? utf8_RuneSelf)%Z then (r, 1%nat)
      else
        let lim := Z.max 0 (Z.of_nat end_ - Z.of_nat utf8_UTFMax)%Z in
        let start := utf8_back_up p lim utf8_UTFMax (Z.of_nat start - 1)%Z in
        let start := Z.to_nat (Z.max 0 start) in
        let '(r, size) := utf8_DecodeRuneInString (drop start p) in
        if (start + size =? end_)%nat then (r, size) else (utf8_RuneError, 1%nat)
  end.

(** [unicode.IsSpace]: the Latin-1 white space, and the other characters
    with the Unicode property White_Space. *)
Definition unicode_IsSpace (r : Z) : bool :=
  (if r <=? 0xFF then
     ((0x09 <=? r) && (r <=? 0x0D)) || (r =? 0x20) || (r =? 0x85) || (r =? 0xA0)
   else
     (r =? 0x1680) || ((0x2000 <=? r) && (r <=? 0x200A)) || (r =? 0x2028)
     || (r =? 0x2029) || (r =? 0x202F) || (r =? 0x205F) || (r =? 0x3000))%Z.

(** [indexFunc] of package [strings]: the index of the first rune [r] with
    [f r = truth], [None] for -1.  [steps] bounds the iterations of the
    [range] loop. *)
Fixpoint strings_indexFunc_from (f : Z -> bool) (truth : bool) (steps : nat)
    (p : list ascii) (i : nat) : option nat :=
  match steps with
  | O => None
  | S steps' =>
      match p with
      | [] => None
      | _ =>
          let '(r, size) := utf8_DecodeRuneInString p in
          if Bool.eqb (f r) truth then Some i
          else strings_indexFunc_from f truth steps' (drop size p) (i + size)
      end
  end.

Definition strings_indexFunc (p : list ascii) (f : Z -> bool) (truth : bool)
  : option nat :=
  strings_indexFunc_from f truth (length p) p 0.

(** [lastIndexFunc]: the index of the last such rune, decoding backwards. *)
Fixpoint strings_lastIndexFunc_from (f : Z -> bool) (truth : bool) (steps : nat)
    (p : list ascii) (i : nat) : option nat :=
  match steps with
  | O => None
  | S steps' =>
      match i with
      | O => None
      | _ =>
          let '(r, size) := utf8_DecodeLastRuneInString (take i p) in
          let i := (i - size)%nat in
          if Bool.eqb (f r) truth then Some i
          else strings_lastIndexFunc_from f truth steps' p i
      end
  end.

Definition strings_lastIndexFunc (p : list ascii) (f : Z -> bool) (truth : bool)
  : option nat :=
  strings_lastIndexFunc_from f truth (length p) p (length p).

(** [strings.TrimLeftFunc] and [strings.TrimRightFunc]. *)
Definition strings_TrimLeftFunc (p : list ascii) (f : Z -> bool) : list ascii :=
  match strings_indexFunc p f false with
  | None => []
  | Some i => drop i p
  end.

Definition strings_TrimRightFunc (p : list ascii) (f : Z -> bool) : list ascii :=
  match strings_lastIndexFunc p f false with
  | Some i =>
      if (utf8_RuneSelf <=? byte_of (nth i p zero))%Z
      then take (i + snd (utf8_DecodeRuneInString (drop i p))) p
      else take (i + 1) p
  | None => take 0 p
  end.

Definition strings_TrimFunc (p : list ascii) (f : Z -> bool) : list ascii :=
  strings_TrimRightFunc (strings_TrimLeftFunc p f) f.

(** [strings.TrimSpace]: leading and trailing white space, as defined by
    Unicode, is cut.  The library first skips ASCII white space byte by
    byte and falls back to [TrimFunc] at the first byte that is not ASCII;
    both ways give the string [TrimFunc] gives. *)
Definition TrimSpace (s : string) : string :=
  string_of_list_ascii (strings_TrimFunc (list_ascii_of_string s) unicode_IsSpace).

(** The statement [MDDatabaseMeta.GetSchema] falls back to. *)
Definition default_database_schema (m : MDDatabaseMeta.t) : string :=
  "CREATE DATABASE IF NOT EXISTS " ++ EscapeIdentifier (MDDatabaseMeta.Name m).

(** [GetSchema] of [MDDatabaseMeta]; the warning it logs is not modelled. *)
Definition MDDatabaseMeta_GetSchema (m : MDDatabaseMeta.t) (st : ExternalStorage)
  : string :=
  if negb (String.eqb (Path (FileMeta (MDDatabaseMeta.SchemaFile m))) "") then
    match ExportStatement st (MDDatabaseMeta.SchemaFile m) (MDDatabaseMeta.charSet m) with
    | inl err => default_database_schema m
    | inr schema =>
        let schemaStr := TrimSpace schema in
        if negb (String.eqb schemaStr "") then schemaStr
        else default_database_schema m
    end
  else default_database_schema m.

(** [GetSchema] of [MDTableMeta], returning the pair of the source. *)
Definition MDTableMeta_GetSchema (m : MDTableMeta.t) (st : ExternalStorage)
  : string * option error :=
  let schemaFilePath := Path (FileMeta (MDTableMeta.SchemaFile m)) in
  if (String.length schemaFilePath <=? 0)%nat then
    ("", Some (Errorf ("schema file is missing for the table '"
                         ++ MDTableMeta.DB m ++ "." ++ MDTableMeta.Name m ++ "'")))
  else
    match FileExists st schemaFilePath with
    | inl err => ("", Some (Annotated "check table schema file exists error" err))
    | inr false =>
        ("", Some (Errorf ("the provided schema file (" ++ schemaFilePath
                             ++ ") for the table '" ++ MDTableMeta.DB m ++ "."
                             ++ MDTableMeta.Name m ++ "' doesn't exist")))
    | inr true =>
        match ExportStatement st (MDTableMeta.SchemaFile m) (MDTableMeta.charSet m) with
        | inl err => ("", Some err)
        | inr schema => (schema, None)
        end
    end.

End Loader.

(** * Vocabulary of the properties and concrete inputs *)

(** The runes of a text, as [utf8.DecodeRuneInString] yields them one after
    the other (an invalid byte counts as [utf8.RuneError]). *)
Fixpoint runes_from (steps : nat) (p : list ascii) : list Z :=
  match steps with
  | O => []
  | S steps' =>
      match p with
      | [] => []
      | _ =>
          let '(r, size) := utf8_DecodeRuneInString p in
          r :: runes_from steps' (drop size p)
      end
  end.

Definition runes (s : string) : list Z :=
  runes_from (length (list_ascii_of_string s)) (list_ascii_of_string s).

(** A text made of white space only: every rune of it is white space as
    Unicode defines it. *)
Definition all_space (s : string) : bool := forallb unicode_IsSpace (runes s).

(** Adjacent elements are in order: [l[i]] is below [l[i+1]] for every [i]. *)
Definition sorted_by {A} (le : A -> A -> Prop) (l : list A) : Prop :=
  forall i a b, l !! i = Some a -> l !! (S i) = Some b -> le a b.

(** [after] is [before] sorted ascending by [key], elements with equal keys
    keeping their relative order. *)
Definition stable_sort_of {A K} `{EqDecision K} (key : A -> K) (le : K -> K -> Prop)
    (before after : list A) : Prop :=
  after ≡ₚ before /\
  sorted_by (fun a b => le (key a) (key b)) after /\
  forall k, filter (fun x => key x = k) after = filter (fun x => key x = k) before.

(** Every error [m] can return satisfies [P]. *)
Definition fails_with {St A} (P : error -> Prop) (m : M St A) : Prop :=
  forall s s' e, m s = Fail s' e -> P e.

(** An error of the class [common.ErrInvalidSchemaFile]. *)
Definition invalid_schema_file (e : error) : Prop :=
  exists msg, e = Normalized ErrInvalidSchemaFile msg.

(** The setup after the sorting loop. *)
Definition sorted_setup (s : mdLoaderSetup) : mdLoaderSetup :=
  set_loader s (set_dbs (loader s) (map sort_db (dbs (loader s)))).

(** The scan ended without error or by hitting the ceiling. *)
Definition scan_continues (err : option error) : Prop :=
  match err with
  | None => True
  | Some e => ErrorEqual e TooManySourceFiles = true
  end.

(** How [setup] can end. *)
Inductive setup_outcome (growslice : nat -> nat) (Table_String : filter.Table -> string)
    (st : ExternalStorage) (s : mdLoaderSetup)
  : res mdLoaderSetup unit -> Prop :=
| setup_list_failed s1 e :
    listFiles growslice st s = (s1, Some e) ->
    ErrorEqual e TooManySourceFiles = false ->
    setup_outcome growslice Table_String st s
      (Fail s1 (Wrapped ErrStorageUnknown "list file failed" e))
| setup_route_failed s1 err s2 e :
    listFiles growslice st s = (s1, err) -> scan_continues err ->
    route growslice Table_String s1 = Fail s2 e ->
    setup_outcome growslice Table_String st s
      (Fail s2 (Wrapped ErrTableRoute "table route error" e))
| setup_route_crashed s1 err reason :
    listFiles growslice st s = (s1, err) -> scan_continues err ->
    route growslice Table_String s1 = Crash reason ->
    setup_outcome growslice Table_String st s (Crash reason)
| setup_assemble_failed s1 err s2 s3 e :
    listFiles growslice st s = (s1, err) -> scan_continues err ->
    route growslice Table_String s1 = Ret s2 tt ->
    assemble s2 = Fail s3 e -> invalid_schema_file e ->
    setup_outcome growslice Table_String st s (Fail s3 e)
| setup_assemble_crashed s1 err s2 reason :
    listFiles growslice st s = (s1, err) -> scan_continues err ->
    route growslice Table_String s1 = Ret s2 tt ->
    assemble s2 = Crash reason ->
    setup_outcome growslice Table_String st s (Crash reason)
| setup_completed s1 err s2 s3 :
    listFiles growslice st s = (s1, err) -> scan_continues err ->
    route growslice Table_String s1 = Ret s2 tt ->
    assemble s2 = Ret s3 tt ->
    setup_outcome growslice Table_String st s
      (match err with
       | None => Ret (sorted_setup s3) tt
       | Some e => Fail (sorted_setup s3) e
       end).

(** [t'] is the table [t] with its data files stably sorted by sort key. *)
Definition table_sorted_from (t t' : MDTableMeta.t) : Prop :=
  stable_sort_of (fun f => SortKey (FileMeta f)) (fun j k => String.leb j k = true)
                 (MDTableMeta.DataFiles t) (MDTableMeta.DataFiles t') /\
  MDTableMeta.TotalSize t' = MDTableMeta.TotalSize t /\
  MDTableMeta.DB t' = MDTableMeta.DB t /\
  MDTableMeta.Name t' = MDTableMeta.Name t.

(** [d'] is the database [d] with its tables stably sorted by total size
    and the data files of each table stably sorted by sort key. *)
Definition database_sorted_from (d d' : MDDatabaseMeta.t) : Prop :=
  MDDatabaseMeta.Name d' = MDDatabaseMeta.Name d /\
  exists tables,
    stable_sort_of MDTableMeta.TotalSize Z.le (MDDatabaseMeta.Tables d) tables /\
    Forall2 table_sorted_from tables (MDDatabaseMeta.Tables d').

(** The number of files held in the four buckets. *)
Definition bucket_total (s : mdLoaderSetup) : nat :=
  length (elems (dbSchemas s)) + length (elems (tableSchemas s))
  + length (elems (viewSchemas s)) + length (elems (tableDatas s)).

(** An entry the classifier recognises and the filter lets through. *)
Definition classified (l : MDLoader) (entry : string * Z) : bool :=
  match fileRouter l (fst entry) with
  | inr (Some res) =>
      negb (shouldSkip l (filter.mkTable (res_Schema res) (res_Name res)))
  | _ => false
  end.

(** The database name a file is filed under. *)
Definition schema_of (info : FileInfo) : string := filter.Schema (TableName info).

(** Every file of [l] has an entry in the reference-count map. *)
Definition known_names (known : gmap string dbInfo) (l : list FileInfo) : Prop :=
  forall info, info ∈ l -> is_Some (known !! schema_of info).

(** The map [known'] has an entry wherever [known] has one. *)
Definition extends (known known' : gmap string dbInfo) : Prop :=
  forall k, is_Some (known !! k) -> is_Some (known' !! k).

(** Every name in [s.dbSchemas] and in [arr] has a reference count. *)
Definition names_known (st : routeState) : Prop :=
  known_names (knownDBNames st) (elems (rs_dbSchemas st)) /\
  known_names (knownDBNames st) (arr st).

(** Every file of the four buckets has a reference count. *)
Definition buckets_known (sk : mdLoaderSetup * gmap string dbInfo) : Prop :=
  forall b, known_names (snd sk) (elems (bucket_of b (fst sk))).

(** The reference count recorded for a file's database name. *)
Definition count_in (known : gmap string dbInfo) (info : FileInfo) : Z :=
  match known !! schema_of info with
  | Some d => count d
  | None => 0%Z
  end.

(** The index maps point into the catalog: a database index leads to the
    database of that name, a table index lies inside that database's
    tables. *)
Definition indexes_valid (s : mdLoaderSetup) : Prop :=
  (forall name i, dbIndexMap s !! name = Some i ->
     exists d, dbs (loader s) !! i = Some d /\ MDDatabaseMeta.Name d = name) /\
  (forall key j, tableIndexMap s !! key = Some j ->
     exists i d, dbIndexMap s !! key.1 = Some i /\ dbs (loader s) !! i = Some d /\
                 (j < length (MDDatabaseMeta.Tables d))%nat).

(** A database as a later assembly step may have changed it: same name, no
    view or table lost. *)
Definition db_le (d d' : MDDatabaseMeta.t) : Prop :=
  MDDatabaseMeta.Name d' = MDDatabaseMeta.Name d /\
  (forall m, m ∈ MDDatabaseMeta.Views d -> m ∈ MDDatabaseMeta.Views d') /\
  (length (MDDatabaseMeta.Tables d) <= length (MDDatabaseMeta.Tables d'))%nat.

Definition dbs_le (l l' : list MDDatabaseMeta.t) : Prop :=
  forall i d, l !! i = Some d -> exists d', l' !! i = Some d' /\ db_le d d'.

(** What an assembly step may change: the catalog grows, the index maps
    gain entries, the buckets and the configuration stay. *)
Definition step (s s' : mdLoaderSetup) : Prop :=
  dbSchemas s' = dbSchemas s /\ tableSchemas s' = tableSchemas s /\
  viewSchemas s' = viewSchemas s /\ tableDatas s' = tableDatas s /\
  router (loader s') = router (loader s) /\ charSet (loader s') = charSet (loader s) /\
  dbs_le (dbs (loader s)) (dbs (loader s')) /\
  (forall k i, dbIndexMap s !! k = Some i -> dbIndexMap s' !! k = Some i).

(** The entry [insertView] makes for a view-schema file. *)
Definition view_meta (cs : string) (fileInfo : FileInfo) : MDTableMeta.t :=
  MDTableMeta.mk (filter.Schema (TableName fileInfo)) (filter.Name (TableName fileInfo))
                 fileInfo [] cs 0%Z 0%Z true.

(** The catalog has the view [m] in the view list of database [name]. *)
Definition has_view (l : list MDDatabaseMeta.t) (name : string) (m : MDTableMeta.t) : Prop :=
  exists d, d ∈ l /\ MDDatabaseMeta.Name d = name /\ m ∈ MDDatabaseMeta.Views d.

(** The stages of [assemble]. *)
Definition assemble_schemas : M mdLoaderSetup unit :=
  s ← get; _ ← for_range setup_dbSchema 0 (elems (dbSchemas s));
  s ← get; for_range setup_tableSchema 0 (elems (tableSchemas s)).

Definition assemble_views : M mdLoaderSetup unit :=
  s ← get; for_range setup_viewSchema 0 (elems (viewSchemas s)).

Definition assemble_datas : M mdLoaderSetup unit :=
  s ← get; for_range setup_tableData 0 (elems (tableDatas s)).

(** The table key of a file. *)
Definition key_of (info : FileInfo) : string * string := table_key (TableName info).

(** What the scanner and the router leave alone. *)
Definition untouched (s s' : mdLoaderSetup) : Prop :=
  loader s' = loader s /\ dbIndexMap s' = dbIndexMap s /\
  tableIndexMap s' = tableIndexMap s /\ setupCfg s' = setupCfg s.

(** A setup on which nothing has been assembled yet. *)
Definition fresh (s : mdLoaderSetup) : Prop :=
  dbIndexMap s = ∅ /\ tableIndexMap s = ∅ /\ dbs (loader s) = [].

(** A view-schema file is registered when a table-schema file of the routed
    bucket has the same (schema, table) pair. *)
Definition registered (s : mdLoaderSetup) (v : FileInfo) : Prop :=
  key_of v ∈ map key_of (elems (tableSchemas s)).

#[local] Instance registered_dec s v : Decision (registered s v).
Proof. unfold registered. apply _. Defined.

(** ** Concrete inputs *)

(** The growth of small slices in the Go runtime: a full backing array is
    replaced by one of twice the capacity (of capacity one when empty). *)
Definition double_cap (c : nat) : nat := Nat.max 1 (2 * c).

(** [filter.Table.String]: the back-quoted qualified name. *)
Definition quoted_name (t : filter.Table) : string :=
  "`" ++ filter.Schema t ++ "`.`" ++ filter.Name t ++ "`".

(** A filter that lets everything through. *)
Definition match_all : Filter := mkFilter (fun _ => true) (fun _ _ => true).

(** A file router given by a table from path to classification; other
    paths are not recognised. *)
Definition router_of_table (rules : list (string * RouteResult)) : FileRouter :=
  fun path =>
    inr (snd <$> List.find (fun rule => String.eqb (fst rule) path) rules).

(** A route table that renames databases by a table and keeps table names. *)
Definition rename_databases (rules : list (string * string)) : RouteTable :=
  fun db tbl =>
    inr (match List.find (fun rule => String.eqb (fst rule) db) rules with
         | Some (_, target) => target
         | None => db
         end, tbl).

Definition schema_file (db : string) : RouteResult :=
  mkRouteResult db "" SourceTypeSchemaSchema 0%Z "".

Definition table_file (db tbl : string) : RouteResult :=
  mkRouteResult db tbl SourceTypeTableSchema 0%Z "".

Definition view_file (db tbl : string) : RouteResult :=
  mkRouteResult db tbl SourceTypeViewSchema 0%Z "".

Definition sql_file (db tbl key : string) : RouteResult :=
  mkRouteResult db tbl SourceTypeSQL 0%Z key.

(** A storage whose walk lists [entries] and never fails. *)
Definition storage_of (entries : list (string * Z)) : ExternalStorage :=
  mkStorage entries None (fun _ => inr true).

(** The names of the databases of a catalog with, for each, the names and
    total sizes of its tables and the paths of their data files. *)
Definition summary (mdl : MDLoader)
  : list (string * list (string * Z * list string)) :=
  map (fun d =>
         (MDDatabaseMeta.Name d,
          map (fun t => (MDTableMeta.Name t, MDTableMeta.TotalSize t,
                         map (fun f => Path (FileMeta f)) (MDTableMeta.DataFiles t)))
              (MDDatabaseMeta.Tables d)))
      (dbs mdl).

Definition summary_of (r : loadResult) :=
  match r with
  | Returned (Some mdl) err => Some (summary mdl, err)
  | _ => None
  end.

(** The end-to-end scenario of the specification. *)
Definition scenario_rules : list (string * RouteResult) :=
  [ ("db1-schema-create.sql", schema_file "db1");
    ("db1.t1-schema.sql", table_file "db1" "t1");
    ("db1.t1.1.sql", sql_file "db1" "t1" "1");
    ("db1.t1.2.sql", sql_file "db1" "t1" "2");
    ("db1.t2-schema.sql", table_file "db1" "t2");
    ("db1.t2.1.sql", sql_file "db1" "t2" "1") ].

Definition scenario_store : ExternalStorage :=
  storage_of [ ("db1-schema-create.sql", 50%Z); ("db1.t1-schema.sql", 60%Z);
               ("db1.t1.1.sql", 500%Z); ("db1.t1.2.sql", 500%Z);
               ("db1.t2-schema.sql", 60%Z); ("db1.t2.1.sql", 100%Z) ].

Definition scenario_load : loadResult :=
  NewMyDumpLoaderWithStore double_cap quoted_name scenario_store match_all None
                           (router_of_table scenario_rules) "utf8mb4" [].

(** The same source scanned with a ceiling of three files. *)
Definition capped_scenario_load : loadResult :=
  NewMyDumpLoaderWithStore double_cap quoted_name scenario_store match_all None
                           (router_of_table scenario_rules) "utf8mb4"
                           [WithMaxScanFiles 3].

(** Two files no rule recognises, scanned with a ceiling of one. *)
Definition stray_store : ExternalStorage :=
  storage_of [ ("NOTES.txt", 20%Z); ("README.md", 10%Z) ].

Definition stray_setup : mdLoaderSetup :=
  new_setup stray_store match_all None (router_of_table []) "utf8mb4"
            [WithMaxScanFiles 1].

(** A stray file followed by two database-schema files, ceiling one. *)
Definition late_rules : list (string * RouteResult) :=
  [ ("a-schema-create.sql", schema_file "a"); ("b-schema-create.sql", schema_file "b") ].

Definition late_store : ExternalStorage :=
  storage_of [ ("README.md", 10%Z); ("a-schema-create.sql", 20%Z);
               ("b-schema-create.sql", 20%Z) ].

Definition late_setup : mdLoaderSetup :=
  new_setup late_store match_all None (router_of_table late_rules) "utf8mb4"
            [WithMaxScanFiles 1].

(** A view whose table-schema file lies beyond a ceiling of one. *)
Definition cut_rules : list (string * RouteResult) :=
  [ ("db1.v-schema-view.sql", view_file "db1" "v");
    ("db1.v-schema.sql", table_file "db1" "v") ].

Definition cut_store : ExternalStorage :=
  storage_of [ ("db1.v-schema-view.sql", 10%Z); ("db1.v-schema.sql", 20%Z) ].

Definition cut_setup : mdLoaderSetup :=
  new_setup cut_store match_all None (router_of_table cut_rules) "utf8mb4"
            [WithMaxScanFiles 1].

Definition cut_load : loadResult :=
  NewMyDumpLoaderWithStore double_cap quoted_name cut_store match_all None
                           (router_of_table cut_rules) "utf8mb4" [WithMaxScanFiles 1].

(** A view over a table that has data files but no table-schema file. *)
Definition dataonly_rules : list (string * RouteResult) :=
  [ ("db1-schema-create.sql", schema_file "db1");
    ("db1.v-schema-view.sql", view_file "db1" "v");
    ("db1.v.1.sql", sql_file "db1" "v" "1") ].

Definition dataonly_store : ExternalStorage :=
  storage_of [ ("db1-schema-create.sql", 50%Z); ("db1.v-schema-view.sql", 10%Z);
               ("db1.v.1.sql", 100%Z) ].

Definition dataonly_load : loadResult :=
  NewMyDumpLoaderWithStore double_cap quoted_name dataonly_store match_all None
                           (router_of_table dataonly_rules) "utf8mb4" [].

(** A view next to its table-schema file. *)
Definition view_rules : list (string * RouteResult) :=
  [ ("db1-schema-create.sql", schema_file "db1");
    ("db1.t-schema-view.sql", view_file "db1" "t");
    ("db1.t-schema.sql", table_file "db1" "t") ].

Definition view_store : ExternalStorage :=
  storage_of [ ("db1-schema-create.sql", 50%Z); ("db1.t-schema-view.sql", 10%Z);
               ("db1.t-schema.sql", 60%Z) ].

Definition view_load : loadResult :=
  NewMyDumpLoaderWithStore double_cap quoted_name view_store match_all None
                           (router_of_table view_rules) "utf8mb4" [].

(** Four database-schema files, three of them for the same database [x]
    (in three directories); [a] is routed to [x] and [x] to [d]. *)
Definition negative_rules : list (string * RouteResult) :=
  [ ("p/a-schema-create.sql", schema_file "a"); ("q/x-schema-create.sql", schema_file "x");
    ("r/x-schema-create.sql", schema_file "x"); ("s/x-schema-create.sql", schema_file "x") ].

Definition negative_store : ExternalStorage :=
  storage_of [ ("p/a-schema-create.sql", 10%Z); ("q/x-schema-create.sql", 10%Z);
               ("r/x-schema-create.sql", 10%Z); ("s/x-schema-create.sql", 10%Z) ].

Definition negative_router : RouteTable := rename_databases [("a", "x"); ("x", "d")].

Definition negative_load : loadResult :=
  NewMyDumpLoaderWithStore double_cap quoted_name negative_store match_all
                           (Some negative_router) (router_of_table negative_rules)
                           "utf8mb4" [].

(** Database-schema files of [a], [b] and, in two directories, of [x];
    [a] and [x] are routed to the new name [n]. *)
Definition shifted_rules : list (string * RouteResult) :=
  [ ("a-schema-create.sql", schema_file "a"); ("b-schema-create.sql", schema_file "b");
    ("p/x-schema-create.sql", schema_file "x"); ("q/x-schema-create.sql", schema_file "x") ].

Definition shifted_store : ExternalStorage :=
  storage_of [ ("a-schema-create.sql", 10%Z); ("b-schema-create.sql", 10%Z);
               ("p/x-schema-create.sql", 10%Z); ("q/x-schema-create.sql", 10%Z) ].

Definition shifted_router : RouteTable := rename_databases [("a", "n"); ("x", "n")].

(** The setup as the scanner leaves it. *)
Definition shifted_setup : mdLoaderSetup :=
  fst (listFiles double_cap shifted_store
         (new_setup shifted_store match_all (Some shifted_router)
                    (router_of_table shifted_rules) "utf8mb4" [])).

(** The names in the database-schema bucket when the name router fails. *)
Definition names_at_failure (r : res mdLoaderSetup unit) : list string :=
  match r with
  | Fail s _ => map (fun info => filter.Schema (TableName info)) (elems (dbSchemas s))
  | _ => []
  end.

(** One database-schema file and a routing rule that fails. *)
Definition broken_router : RouteTable :=
  fun _ _ => inl (Foreign "invalid capture group in the target pattern").

Definition broken_rule_load : loadResult :=
  NewMyDumpLoaderWithStore double_cap quoted_name
                           (storage_of [("p/a-schema-create.sql", 10%Z)]) match_all
                           (Some broken_router) (router_of_table negative_rules)
                           "utf8mb4" [].

(** Database-schema files of [a], [b] and, in three directories, of [c];
    [a] and [b] are routed to [c], and [c] to [d]. *)
Definition merge_rules : list (string * RouteResult) :=
  [ ("a-schema-create.sql", schema_file "a"); ("b-schema-create.sql", schema_file "b");
    ("p/c-schema-create.sql", schema_file "c"); ("q/c-schema-create.sql", schema_file "c");
    ("r/c-schema-create.sql", schema_file "c") ].

Definition merge_store : ExternalStorage :=
  storage_of [ ("a-schema-create.sql", 10%Z); ("b-schema-create.sql", 10%Z);
               ("p/c-schema-create.sql", 10%Z); ("q/c-schema-create.sql", 10%Z);
               ("r/c-schema-create.sql", 10%Z) ].

Definition merge_router : RouteTable := rename_databases [("a", "c"); ("b", "c"); ("c", "d")].

Definition merge_load : loadResult :=
  NewMyDumpLoaderWithStore double_cap quoted_name merge_store match_all
                           (Some merge_router) (router_of_table merge_rules)
                           "utf8mb4" [].

(** Two database-schema files of the same database [a], in two
    directories, both routed to [c]. *)
Definition twin_rules : list (string * RouteResult) :=
  [ ("p/a-schema-create.sql", schema_file "a"); ("q/a-schema-create.sql", schema_file "a") ].

Definition twin_load : loadResult :=
  NewMyDumpLoaderWithStore double_cap quoted_name
                           (storage_of [ ("p/a-schema-create.sql", 10%Z);
                                         ("q/a-schema-create.sql", 10%Z) ])
                           match_all (Some (rename_databases [("a", "c")]))
                           (router_of_table twin_rules) "utf8mb4" [].

(** A table-schema file whose database has no database-schema file, with a
    router configured. *)
Definition bare_rules : list (string * RouteResult) :=
  [ ("db1.t1-schema.sql", table_file "db1" "t1") ].

Definition bare_setup : mdLoaderSetup :=
  fst (listFiles double_cap (storage_of [("db1.t1-schema.sql", 60%Z)])
         (new_setup (storage_of [("db1.t1-schema.sql", 60%Z)]) match_all
                    (Some (rename_databases [])) (router_of_table bare_rules)
                    "utf8mb4" [])).

(** Collaborators of the schema-text accessors. *)
Definition back_quote (name : string) : string := "`" ++ name ++ "`".

Definition export_blank : ExternalStorage -> FileInfo -> string -> error + string :=
  fun _ _ _ => inr (String (ascii_of_nat 32) (String (ascii_of_nat 10) "")).

(** A schema file of white space only: a space, a no-break space (U+00A0),
    a line feed and an ideographic space (U+3000), in UTF-8. *)
Definition wide_blank : string :=
  string_of_list_ascii
    (map ascii_of_nat [32; 194; 160; 10; 227; 128; 128])%nat.

Definition export_wide_blank : ExternalStorage -> FileInfo -> string -> error + string :=
  fun _ _ _ => inr wide_blank.

(** A schema file whose statement stands between such white space. *)
Definition export_padded : ExternalStorage -> FileInfo -> string -> error + string :=
  fun _ _ _ => inr (wide_blank ++ "CREATE DATABASE `db1`;" ++ wide_blank)%string.

Definition export_create : ExternalStorage -> FileInfo -> string -> error + string :=
  fun _ _ _ => inr "CREATE TABLE t1 (id INT);".


Definition missing_store : ExternalStorage := mkStorage [] None (fun _ => inr false).

Definition db1_meta (path : string) : MDDatabaseMeta.t :=
  MDDatabaseMeta.mk "db1"
    (mkFileInfo (filter.mkTable "db1" "")
                (mkSourceFileMeta path SourceTypeSchemaSchema 0%Z "" 0%Z))
    [] [] "utf8mb4".

Definition t1_meta (path : string) : MDTableMeta.t :=
  MDTableMeta.mk "db1" "t1"
    (mkFileInfo (filter.mkTable "db1" "t1")
                (mkSourceFileMeta path SourceTypeTableSchema 0%Z "" 0%Z))
    [] "utf8mb4" 0%Z 0%Z true.

(** Database-schema files of [d] and, in two directories, of [x], with [x]
    routed to [d]. *)
Definition silent_rules : list (string * RouteResult) :=
  [ ("d-schema-create.sql", schema_file "d"); ("p/x-schema-create.sql", schema_file "x");
    ("q/x-schema-create.sql", schema_file "x") ].

Definition silent_store : ExternalStorage :=
  storage_of [ ("d-schema-create.sql", 10%Z); ("p/x-schema-create.sql", 10%Z);
               ("q/x-schema-create.sql", 10%Z) ].

Definition silent_router : RouteTable := rename_databases [("x", "d")].

Definition silent_load : loadResult :=
  NewMyDumpLoaderWithStore double_cap quoted_name silent_store match_all
                           (Some silent_router) (router_of_table silent_rules)
                           "utf8mb4" [].

(** The reference count of [name] when the four calls of [runRoute] are
    through. *)
Definition final_count (s : mdLoaderSetup) (r : RouteTable) (name : string) : option Z :=
  match count_files s (base_counts (elems (dbSchemas s))) with
  | Ret known _ =>
      match route_rewrite double_cap r (s, known) with
      | Ret (_, known') _ => count <$> known' !! name
      | _ => None
      end
  | _ => None
  end.

(** The setup of [negative_load] as the scanner leaves it. *)
Definition negative_setup : mdLoaderSetup :=
  fst (listFiles double_cap negative_store
         (new_setup negative_store match_all (Some negative_router)
                    (router_of_table negative_rules) "utf8mb4" [])).

(** * Further vocabulary *)

(** ** Scanner *)

#[global] Instance bucket_eq_dec : EqDecision bucket.
Proof. solve_decision. Defined.

(** The [FileInfo] the visitor of [listFiles] builds for an entry, when the
    file router recognises the path and the filter lets the name through. *)
Definition classify_entry (l : MDLoader) (entry : string * Z) : option FileInfo :=
  match fileRouter l (fst entry) with
  | inr (Some res) =>
      let info :=
        mkFileInfo (filter.mkTable (res_Schema res) (res_Name res))
                   (mkSourceFileMeta (fst entry) (res_Type res) (res_Compression res)
                                     (res_Key res) (snd entry)) in
      if shouldSkip l (TableName info) then None else Some info
  | _ => None
  end.

(** The bucket the [switch] of the visitor files a source type under. *)
Definition bucket_kind (t : SourceType) : option bucket :=
  match t with
  | SourceTypeSchemaSchema => Some DbSchemas
  | SourceTypeTableSchema => Some TableSchemas
  | SourceTypeViewSchema => Some ViewSchemas
  | SourceTypeSQL | SourceTypeCSV | SourceTypeParquet => Some TableDatas
  | SourceTypeIgnore => None
  end.

(** The files of [entries] that belong in bucket [b], in walk order. *)
Definition scanned (b : bucket) (l : MDLoader) (entries : list (string * Z))
  : list FileInfo :=
  omap (fun entry =>
          match classify_entry l entry with
          | Some info =>
              if decide (bucket_kind (Type_ (FileMeta info)) = Some b)
              then Some info else None
          | None => None
          end) entries.

(** The ceiling is positive and the walk lists more entries than it allows. *)
Definition over_ceiling (s : mdLoaderSetup) (entries : list (string * Z)) : bool :=
  ((0 <? MaxScanFiles (setupCfg s)) &&
   (MaxScanFiles (setupCfg s) <? Z.of_nat (length entries)))%Z.

(** The entries the visitor gets to classify. *)
Definition visited (s : mdLoaderSetup) (entries : list (string * Z))
  : list (string * Z) :=
  if over_ceiling s entries then take (Z.to_nat (MaxScanFiles (setupCfg s))) entries
  else entries.

(** A file that may sit in bucket [b] after a scan of [entries]: it is of
    the bucket's kind, passed the filter, and has the path and size of an
    entry. *)
Definition scanned_file (b : bucket) (l : MDLoader) (entries : list (string * Z))
    (info : FileInfo) : Prop :=
  bucket_kind (Type_ (FileMeta info)) = Some b /\
  shouldSkip l (TableName info) = false /\
  (Path (FileMeta info), FileSize (FileMeta info)) ∈ entries.

(** The ceiling does not fire on a walk of [n] more entries that starts
    with the counter at [c]. *)
Definition below_ceiling (s : mdLoaderSetup) (c : Z) (n : nat) : Prop :=
  (MaxScanFiles (setupCfg s) <= 0)%Z \/
  (0 <= c /\ c + Z.of_nat n <= MaxScanFiles (setupCfg s) /\
   MaxScanFiles (setupCfg s) < 2 ^ 63)%Z.

(** ** Name router pass *)

(** [new] is the file [old] under the name the router gives it: same
    metadata, the (schema, table) pair rewritten. *)
Definition routed_to (r : RouteTable) (old new : FileInfo) : Prop :=
  r (filter.Schema (TableName old)) (filter.Name (TableName old))
    = inr (filter.Schema (TableName new), filter.Name (TableName new)) /\
  FileMeta new = FileMeta old.

(** The router leaves the name of [info] as it is. *)
Definition keeps_name (r : RouteTable) (info : FileInfo) : Prop :=
  r (filter.Schema (TableName info)) (filter.Name (TableName info))
    = inr (filter.Schema (TableName info), filter.Name (TableName info)).

(** All the files of the table-schema, view-schema and data buckets. *)
Definition table_level_files (s : mdLoaderSetup) : list FileInfo :=
  elems (tableSchemas s) ++ elems (viewSchemas s) ++ elems (tableDatas s).

(** ** Catalog assembler *)

Definition db_names (l : list MDDatabaseMeta.t) : list string :=
  map MDDatabaseMeta.Name l.

Definition table_names (ts : list MDTableMeta.t) : list string :=
  map MDTableMeta.Name ts.

(** The table name a file is filed under. *)
Definition name_of (info : FileInfo) : string := filter.Name (TableName info).

(** The index maps and the catalog describe one another: a name is mapped
    to an index exactly when the database (the table) at that index has
    that name. *)
Definition indexed (s : mdLoaderSetup) : Prop :=
  (forall name i, dbIndexMap s !! name = Some i <->
     exists d, dbs (loader s) !! i = Some d /\ MDDatabaseMeta.Name d = name) /\
  (forall db tbl j, tableIndexMap s !! (db, tbl) = Some j <->
     exists i d t, dbs (loader s) !! i = Some d /\ MDDatabaseMeta.Name d = db /\
                   MDDatabaseMeta.Tables d !! j = Some t /\ MDTableMeta.Name t = tbl).

(** The catalog operations, by name instead of by index. *)
Definition ensure_db (f : FileInfo) (cs : string) (l : list MDDatabaseMeta.t)
  : list MDDatabaseMeta.t :=
  if decide (schema_of f ∈ db_names l) then l
  else l ++ [MDDatabaseMeta.mk (schema_of f) f [] [] cs].

Definition on_db (n : string) (g : MDDatabaseMeta.t -> MDDatabaseMeta.t)
    (l : list MDDatabaseMeta.t) : list MDDatabaseMeta.t :=
  map (fun d => if decide (MDDatabaseMeta.Name d = n) then g d else d) l.

Definition on_table (n : string) (g : MDTableMeta.t -> MDTableMeta.t)
    (ts : list MDTableMeta.t) : list MDTableMeta.t :=
  map (fun t => if decide (MDTableMeta.Name t = n) then g t else t) ts.

Definition ensure_table (cs : string) (f : FileInfo) (d : MDDatabaseMeta.t)
  : MDDatabaseMeta.t :=
  if decide (name_of f ∈ table_names (MDDatabaseMeta.Tables d)) then d
  else set_Tables (MDDatabaseMeta.Tables d ++ [view_meta cs f]) d.

Definition add_view (cs : string) (v : FileInfo) (d : MDDatabaseMeta.t)
  : MDDatabaseMeta.t :=
  set_Views (MDDatabaseMeta.Views d ++ [view_meta cs v]) d.

Definition add_data (x : FileInfo) (d : MDDatabaseMeta.t) : MDDatabaseMeta.t :=
  set_Tables (on_table (name_of x) (add_DataFile x) (MDDatabaseMeta.Tables d)) d.

Definition file_table (cs : string) (f : FileInfo) (l : list MDDatabaseMeta.t)
  : list MDDatabaseMeta.t :=
  on_db (schema_of f) (ensure_table cs f) (ensure_db (dbFileInfo f) cs l).

Definition file_view (cs : string) (v : FileInfo) (l : list MDDatabaseMeta.t)
  : list MDDatabaseMeta.t :=
  on_db (schema_of v) (add_view cs v) (ensure_db (dbFileInfo v) cs l).

Definition file_data (cs : string) (x : FileInfo) (l : list MDDatabaseMeta.t)
  : list MDDatabaseMeta.t :=
  on_db (schema_of x) (add_data x)
        (file_table cs (mkFileInfo (TableName x) zeroFileMeta) l).

(** The catalog the four assembly loops build from nothing, by name. *)
Definition catalog_of (cs : string) (D T V X : list FileInfo) : list MDDatabaseMeta.t :=
  foldl (fun l x => file_data cs x l)
    (foldl (fun l v => file_view cs v l)
       (foldl (fun l f => file_table cs f l)
          (foldl (fun l f => ensure_db f cs l) [] D) T) V) X.

(** The distinct names of a list, in the order of their first occurrence. *)
Definition add_name (n : string) (seen : list string) : list string :=
  if decide (n ∈ seen) then seen else seen ++ [n].

Definition first_seen (names : list string) : list string :=
  foldl (fun seen n => add_name n seen) [] names.

(** The files of a list with a given (schema, table) name, in order. *)
Definition files_named (db tbl : string) (l : list FileInfo) : list FileInfo :=
  filter (fun f => key_of f = (db, tbl)) l.

(** The files of a list with a given schema name, in order. *)
Definition files_of_schema (db : string) (l : list FileInfo) : list FileInfo :=
  filter (fun f => schema_of f = db) l.

(** [TotalSize] as the data-file loop accumulates it. *)
Definition total_size (files : list FileInfo) : Z :=
  foldl (fun acc f => int64_add acc (FileSize (FileMeta f))) 0%Z files.

(** The placeholder [setup] hands to [insertTable] for a data file. *)
Definition zeroed (x : FileInfo) : FileInfo := mkFileInfo (TableName x) zeroFileMeta.

(** The views of a database are the view files of its name, in order. *)
Definition views_described (cs : string) (V : list FileInfo)
    (l : list MDDatabaseMeta.t) : Prop :=
  (forall d, d ∈ l ->
     MDDatabaseMeta.Views d = map (view_meta cs) (files_of_schema (MDDatabaseMeta.Name d) V)) /\
  (forall v, v ∈ V -> schema_of v ∈ db_names l).

(** A table as the files [C] that can create tables and the data files
    [X] determine it. *)
Definition table_described (cs : string) (C X : list FileInfo) (db : string)
    (t : MDTableMeta.t) : Prop :=
  MDTableMeta.DB t = db /\
  head (files_named db (MDTableMeta.Name t) C) = Some (MDTableMeta.SchemaFile t) /\
  MDTableMeta.DataFiles t = files_named db (MDTableMeta.Name t) X /\
  MDTableMeta.TotalSize t = total_size (MDTableMeta.DataFiles t) /\
  MDTableMeta.charSet t = cs /\ MDTableMeta.IndexRatio t = 0%Z /\
  MDTableMeta.IsRowOrdered t = true.

Definition tables_described (cs : string) (C X : list FileInfo)
    (l : list MDDatabaseMeta.t) : Prop :=
  (forall d, d ∈ l ->
     NoDup (table_names (MDDatabaseMeta.Tables d)) /\
     forall t, t ∈ MDDatabaseMeta.Tables d ->
       table_described cs C X (MDDatabaseMeta.Name d) t) /\
  (forall f, f ∈ C ->
     schema_of f ∈ db_names l /\
     forall d, d ∈ l -> MDDatabaseMeta.Name d = schema_of f ->
       name_of f ∈ table_names (MDDatabaseMeta.Tables d)) /\
  (forall x, x ∈ X -> key_of x ∈ map key_of C).

(** A database as the files [C] that can create databases determine it. *)
Definition dbs_described (cs : string) (C : list FileInfo)
    (l : list MDDatabaseMeta.t) : Prop :=
  (forall d, d ∈ l ->
     head (files_of_schema (MDDatabaseMeta.Name d) C) = Some (MDDatabaseMeta.SchemaFile d) /\
     MDDatabaseMeta.charSet d = cs) /\
  (forall f, f ∈ C -> schema_of f ∈ db_names l).

(** The setup [s] holds the buckets of a load after scanning and name
    routing, [err] being what the scan reported. *)
Definition load_buckets (growslice : nat -> nat) (Table_String : filter.Table -> string)
    (st : ExternalStorage) (f : Filter) (r : option RouteTable) (fr : FileRouter)
    (cs : string) (opts : list (MDLoaderSetupConfig -> MDLoaderSetupConfig))
    (err : option error) (s : mdLoaderSetup) : Prop :=
  exists s1,
    listFiles growslice st (new_setup st f r fr cs opts) = (s1, err) /\
    route growslice Table_String s1 = Ret s tt.

(** The files of the four buckets in the order the assembler reads them. *)
Definition assembly_order (s : mdLoaderSetup) : list FileInfo :=
  elems (dbSchemas s) ++ elems (tableSchemas s) ++ elems (viewSchemas s)
  ++ elems (tableDatas s).

(** A dump with a view, a table that has data files only, and a database
    that has no database-schema file. *)
Definition mixed_rules : list (string * RouteResult) :=
  [ ("db1-schema-create.sql", schema_file "db1");
    ("db1.t1-schema.sql", table_file "db1" "t1");
    ("db1.t1.2.sql", sql_file "db1" "t1" "2");
    ("db1.t1.1.sql", sql_file "db1" "t1" "1");
    ("db1.v1-schema.sql", table_file "db1" "v1");
    ("db1.v1-schema-view.sql", view_file "db1" "v1");
    ("db2.t9.1.sql", sql_file "db2" "t9" "1") ].

Definition mixed_store : ExternalStorage :=
  storage_of [ ("db1-schema-create.sql", 50%Z); ("db1.t1-schema.sql", 60%Z);
               ("db1.t1.2.sql", 300%Z); ("db1.t1.1.sql", 200%Z);
               ("db1.v1-schema.sql", 10%Z); ("db1.v1-schema-view.sql", 20%Z);
               ("db2.t9.1.sql", 40%Z) ].

Definition mixed_load : loadResult :=
  NewMyDumpLoaderWithStore double_cap quoted_name mixed_store match_all None
                           (router_of_table mixed_rules) "utf8mb4" [].

(** The error of the first file of a list that the routing rules reject. *)
Fixpoint first_error (r : RouteTable) (l : list FileInfo) : option error :=
  match l with
  | [] => None
  | x :: l' =>
      match r (schema_of x) (name_of x) with
      | inl e => Some e
      | inr _ => first_error r l'
      end
  end.

(** ** File kinds *)

(** [fileType] is an [int]; its three constants are declared with [iota]. *)
Definition fileType := Z.
Definition fileTypeDatabaseSchema : fileType := 0%Z.
Definition fileTypeTableSchema : fileType := 1%Z.
Definition fileTypeTableData : fileType := 2%Z.

(** [fileType.String]. *)
Definition fileType_String (ftype : fileType) : string :=
  if (ftype =? fileTypeDatabaseSchema)%Z then "database schema"
  else if (ftype =? fileTypeTableSchema)%Z then "table schema"
  else if (ftype =? fileTypeTableData)%Z then "table data"
  else "(unknown)".

(** ** Further concrete inputs *)

(** The setup of the scenario before the scan. *)
Definition scenario_setup : mdLoaderSetup :=
  new_setup scenario_store match_all None (router_of_table scenario_rules) "utf8mb4" [].

Definition db1_schema_info : FileInfo :=
  mkFileInfo (filter.mkTable "db1" "")
             (mkSourceFileMeta "db1-schema-create.sql" SourceTypeSchemaSchema 0%Z "" 50%Z).

(** A file router with a rule that cannot be applied to one path. *)
Definition failing_file_router : FileRouter :=
  fun path =>
    if String.eqb path "db1.t1.sql" then inl (Foreign "invalid capture group in the pattern")
    else router_of_table scenario_rules path.

Definition failing_entries_before : list (string * Z) := [ ("db1-schema-create.sql", 50%Z) ].
Definition failing_entries_after : list (string * Z) := [ ("db1.t2-schema.sql", 60%Z) ].

Definition failing_store : ExternalStorage :=
  storage_of (failing_entries_before ++ ("db1.t1.sql", 500%Z) :: failing_entries_after).

(** A storage whose walk fails after it has listed one file. *)
Definition unreliable_store : ExternalStorage :=
  mkStorage [ ("db1-schema-create.sql", 50%Z) ] (Some (Foreign "connection reset"))
            (fun _ => inr true).

(** The scenario scanned with a router that renames nothing. *)
Definition kept_setup : mdLoaderSetup :=
  fst (listFiles double_cap scenario_store
         (new_setup scenario_store match_all (Some (rename_databases []))
                    (router_of_table scenario_rules) "utf8mb4" [])).

(** Database [a] with a table and a data file, routed to database [b]. *)
Definition moved_rules : list (string * RouteResult) :=
  [ ("a-schema-create.sql", schema_file "a"); ("b-schema-create.sql", schema_file "b");
    ("a.t-schema.sql", table_file "a" "t"); ("a.t.1.sql", sql_file "a" "t" "1") ].

Definition moved_store : ExternalStorage :=
  storage_of [ ("a-schema-create.sql", 10%Z); ("b-schema-create.sql", 10%Z);
               ("a.t-schema.sql", 20%Z); ("a.t.1.sql", 30%Z) ].

Definition moved_router : RouteTable := rename_databases [("a", "b")].

Definition moved_setup : mdLoaderSetup :=
  fst (listFiles double_cap moved_store
         (new_setup moved_store match_all (Some moved_router)
                    (router_of_table moved_rules) "utf8mb4" [])).

Definition moved_routed : mdLoaderSetup :=
  match route double_cap quoted_name moved_setup with
  | Ret s _ => s
  | _ => moved_setup
  end.

(** The setup of [broken_rule_load] as the scanner leaves it. *)
Definition broken_rule_store : ExternalStorage := storage_of [("p/a-schema-create.sql", 10%Z)].

Definition broken_rule_setup : mdLoaderSetup :=
  fst (listFiles double_cap broken_rule_store
         (new_setup broken_rule_store match_all (Some broken_router)
                    (router_of_table negative_rules) "utf8mb4" [])).

(** A table-schema file without a database-schema file, loaded with a
    router. *)
Definition orphan_store : ExternalStorage := storage_of [("db1.t1-schema.sql", 60%Z)].

Definition orphan_load : loadResult :=
  NewMyDumpLoaderWithStore double_cap quoted_name orphan_store match_all
                           (Some (rename_databases [])) (router_of_table bare_rules)
                           "utf8mb4" [].

(** Two database-schema files of one database, and two table-schema files
    of one table, loaded without a router. *)
Definition twin_store : ExternalStorage :=
  storage_of [ ("p/a-schema-create.sql", 10%Z); ("q/a-schema-create.sql", 10%Z) ].

Definition twin_first : FileInfo :=
  mkFileInfo (filter.mkTable "a" "")
             (mkSourceFileMeta "p/a-schema-create.sql" SourceTypeSchemaSchema 0%Z "" 10%Z).

Definition twin_second : FileInfo :=
  mkFileInfo (filter.mkTable "a" "")
             (mkSourceFileMeta "q/a-schema-create.sql" SourceTypeSchemaSchema 0%Z "" 10%Z).

Definition twin_table_rules : list (string * RouteResult) :=
  [ ("a-schema-create.sql", schema_file "a");
    ("p/a.t-schema.sql", table_file "a" "t"); ("q/a.t-schema.sql", table_file "a" "t") ].

Definition twin_table_store : ExternalStorage :=
  storage_of [ ("a-schema-create.sql", 10%Z); ("p/a.t-schema.sql", 20%Z);
               ("q/a.t-schema.sql", 20%Z) ].

Definition twin_table_first : FileInfo :=
  mkFileInfo (filter.mkTable "a" "t")
             (mkSourceFileMeta "p/a.t-schema.sql" SourceTypeTableSchema 0%Z "" 20%Z).

Definition twin_table_second : FileInfo :=
  mkFileInfo (filter.mkTable "a" "t")
             (mkSourceFileMeta "q/a.t-schema.sql" SourceTypeTableSchema 0%Z "" 20%Z).

(** * Properties *)

(** ** Schema text *)

Section SchemaText.

Variable EscapeIdentifier : string -> string.
Variable ExportStatement : ExternalStorage -> FileInfo -> string -> error + string.

(** No rune of a text of white space stops the forward scan. *)
Lemma indexFunc_all_space steps : forall p i,
  forallb unicode_IsSpace (runes_from steps p) = true ->
  strings_indexFunc_from unicode_IsSpace false steps p i = None.
Proof.
  induction steps as [|steps IH]; intros p i; simpl; [reflexivity|].
  destruct p as [|c p]; [reflexivity|].
  destruct (utf8_DecodeRuneInString (c :: p)) as [r size].
  simpl. intros [Hr Hrest]%andb_true_iff. rewrite Hr. simpl. apply IH, Hrest.
Qed.

(** [TrimSpace] leaves nothing of a text of white space. *)
Lemma TrimSpace_all_space s : all_space s = true -> TrimSpace s = "".
Proof.
  unfold all_space, runes, TrimSpace, strings_TrimFunc, strings_TrimLeftFunc,
    strings_indexFunc.
  intros H. rewrite indexFunc_all_space by exact H. reflexivity.
Qed.

(** C7: a database without a recorded schema file path gets the synthesized
    [CREATE DATABASE IF NOT EXISTS] statement with the escaped name, and so
    does one whose extracted schema text is empty or white space only. *)
Theorem database_schema_default (m : MDDatabaseMeta.t) (st : ExternalStorage) :
  (Path (FileMeta (MDDatabaseMeta.SchemaFile m)) = "" ->
   MDDatabaseMeta_GetSchema EscapeIdentifier ExportStatement m st
   = ("CREATE DATABASE IF NOT EXISTS " ++ EscapeIdentifier (MDDatabaseMeta.Name m))%string)
  /\
  (forall schema,
     ExportStatement st (MDDatabaseMeta.SchemaFile m) (MDDatabaseMeta.charSet m)
       = inr schema ->
     all_space schema = true ->
     MDDatabaseMeta_GetSchema EscapeIdentifier ExportStatement m st
     = ("CREATE DATABASE IF NOT EXISTS " ++ EscapeIdentifier (MDDatabaseMeta.Name m))%string).
Proof.
  split.
  - intros Hp. unfold MDDatabaseMeta_GetSchema. rewrite Hp. reflexivity.
  - intros schema Hx Hs. unfold MDDatabaseMeta_GetSchema.
    rewrite Hx, (TrimSpace_all_space _ Hs). simpl.
    destruct (negb _); reflexivity.
Qed.

(** C8: the table accessor fails, naming the table, when no schema file
    path is recorded; fails, naming the file, when the recorded path is not
    in storage; and hands back the extracted text untouched (empty text
    included) when extraction succeeds. *)
Theorem table_schema_result (m : MDTableMeta.t) (st : ExternalStorage) :
  let path := Path (FileMeta (MDTableMeta.SchemaFile m)) in
  (path = "" ->
   MDTableMeta_GetSchema ExportStatement m st
   = ("", Some (Errorf ("schema file is missing for the table '"
                          ++ MDTableMeta.DB m ++ "." ++ MDTableMeta.Name m ++ "'"))))
  /\
  (path <> "" -> FileExists st path = inr false ->
   MDTableMeta_GetSchema ExportStatement m st
   = ("", Some (Errorf ("the provided schema file (" ++ path ++ ") for the table '"
                          ++ MDTableMeta.DB m ++ "." ++ MDTableMeta.Name m
                          ++ "' doesn't exist"))))
  /\
  (forall schema,
     path <> "" -> FileExists st path = inr true ->
     ExportStatement st (MDTableMeta.SchemaFile m) (MDTableMeta.charSet m) = inr schema ->
     MDTableMeta_GetSchema ExportStatement m st = (schema, None)).
Proof.
  intros path. unfold MDTableMeta_GetSchema. fold path.
  split; [|split].
  - intros ->. reflexivity.
  - intros Hne Hex. destruct path; [congruence|]. simpl. rewrite Hex. reflexivity.
  - intros schema Hne Hex Hx. destruct path; [congruence|]. simpl.
    rewrite Hex, Hx. reflexivity.
Qed.


End SchemaText.

(** ** Deterministic sorter *)

Lemma Sorted_sorted_by {A} (R : A -> A -> Prop) l : Sorted R l -> sorted_by R l.
Proof.
  induction 1 as [|x l Hs IH Hd]; intros i a b Ha Hb.
  - destruct i; discriminate.
  - destruct i as [|i]; simpl in *.
    + injection Ha as <-. destruct l; [discriminate|].
      injection Hb as <-. inversion Hd; assumption.
    + eapply IH; eassumption.
Qed.

Section SliceStable.

Context {A K : Type} `{EqDecision K}.
Variable key : A -> K.
Variable lt : K -> K -> bool.
Hypothesis lt_irrefl : forall k, lt k k = false.
Hypothesis lt_asym : forall j k, lt j k = true -> lt k j = false.

Let less (a b : A) : bool := lt (key a) (key b).

(** The reversed prefix never has an element less than the one before it in
    slice order. *)
Let not_less : relation A := fun y z => less y z = false.

Lemma sift_HdRel x y r :
  less y x = false -> HdRel not_less y r -> HdRel not_less y (sift less x r).
Proof.
  intros Hyx Hd. destruct r as [|z r]; simpl.
  - constructor. exact Hyx.
  - destruct (less x z); constructor; [inversion Hd; assumption | exact Hyx].
Qed.

Lemma sift_Sorted x r : Sorted not_less r -> Sorted not_less (sift less x r).
Proof.
  induction 1 as [|y r Hs IH Hd]; simpl.
  - repeat constructor.
  - destruct (less x y) eqn:E.
    + constructor; [exact IH|]. apply sift_HdRel; [|exact Hd].
      apply lt_asym. exact E.
    + repeat constructor; assumption.
Qed.

Lemma sift_Permutation x r : sift less x r ≡ₚ x :: r.
Proof.
  induction r as [|y r IH]; simpl; [reflexivity|].
  destruct (less x y); [|reflexivity].
  rewrite IH. apply Permutation_swap.
Qed.

Lemma sift_filter x r k :
  filter (fun a => key a = k) (sift less x r) = filter (fun a => key a = k) (x :: r).
Proof.
  induction r as [|y r IH]; simpl; [reflexivity|].
  destruct (less x y) eqn:E; [|reflexivity].
  rewrite (filter_cons _ y), IH, !filter_cons.
  destruct (decide (key y = k)) as [Hy|Hy], (decide (key x = k)) as [Hx|Hx];
    try reflexivity.
  exfalso. unfold less in E. rewrite Hx, Hy, lt_irrefl in E. discriminate.
Qed.

Lemma sift_all_spec racc data :
  let racc' := foldl (fun rprefix x => sift less x rprefix) racc data in
  (Sorted not_less racc -> Sorted not_less racc') /\
  racc' ≡ₚ reverse data ++ racc /\
  forall k, filter (fun a => key a = k) racc'
            = filter (fun a => key a = k) (reverse data ++ racc).
Proof.
  revert racc. induction data as [|x data IH]; intros racc; cbn [foldl].
  - rewrite reverse_nil. simpl. auto.
  - destruct (IH (sift less x racc)) as (HS & HP & HF).
    rewrite reverse_cons, <- !app_assoc. cbn [app].
    split; [|split].
    + intros Hs. apply HS, sift_Sorted, Hs.
    + rewrite HP, sift_Permutation. reflexivity.
    + intros k. rewrite HF, !filter_app, sift_filter. reflexivity.
Qed.

(** [sort.SliceStable] sorts, keeps the elements, and is stable. *)
Lemma SliceStable_spec data :
  stable_sort_of key (fun j k => lt k j = false) data (SliceStable less data).
Proof.
  unfold SliceStable.
  destruct (sift_all_spec [] data) as (HS & HP & HF).
  rewrite app_nil_r in HP, HF.
  split; [|split].
  - rewrite reverse_Permutation, HP, reverse_Permutation. reflexivity.
  - apply Sorted_sorted_by. apply Sorted_reverse in HS; [|constructor].
    exact HS.
  - intros k. rewrite filter_reverse, HF, <- filter_reverse, reverse_involutive.
    reflexivity.
Qed.

End SliceStable.

Lemma stable_sort_of_le {A K} `{EqDecision K} (key : A -> K) (le le' : K -> K -> Prop)
    before after :
  (forall j k, le j k -> le' j k) ->
  stable_sort_of key le before after -> stable_sort_of key le' before after.
Proof.
  intros Hle (HP & HS & HF). split; [exact HP|]. split; [|exact HF].
  intros i a b Ha Hb. apply Hle. eapply HS; eassumption.
Qed.

Lemma String_ltb_irrefl s : String.ltb s s = false.
Proof.
  unfold String.ltb. pose proof (String.compare_antisym s s) as H.
  destruct (String.compare s s); try reflexivity; discriminate.
Qed.

Lemma String_ltb_asym s t : String.ltb s t = true -> String.ltb t s = false.
Proof.
  unfold String.ltb. rewrite (String.compare_antisym t s).
  destruct (String.compare s t); simpl; congruence.
Qed.

Lemma String_ltb_leb s t : String.ltb t s = false -> String.leb s t = true.
Proof.
  unfold String.ltb, String.leb. rewrite (String.compare_antisym s t).
  destruct (String.compare t s); simpl; congruence.
Qed.

(** The tables of a database, as the sorter leaves their order. *)
Lemma sort_Tables_spec (tables : list MDTableMeta.t) :
  stable_sort_of MDTableMeta.TotalSize Z.le tables (SliceStable less_TotalSize tables).
Proof.
  eapply stable_sort_of_le;
    [|apply (SliceStable_spec MDTableMeta.TotalSize Z.ltb)].
  - intros j k H. apply Z.ltb_ge. exact H.
  - apply Z.ltb_irrefl.
  - intros j k H. apply Z.ltb_lt in H. apply Z.ltb_ge. lia.
Qed.

(** The data files of a table, as the sorter leaves them. *)
Lemma sort_DataFiles_spec (files : list FileInfo) :
  stable_sort_of (fun f => SortKey (FileMeta f)) (fun j k => String.leb j k = true)
                 files (SliceStable less_SortKey files).
Proof.
  eapply stable_sort_of_le;
    [|apply (SliceStable_spec (fun f => SortKey (FileMeta f)) String.ltb)].
  - intros j k H. apply String_ltb_leb. exact H.
  - apply String_ltb_irrefl.
  - apply String_ltb_asym.
Qed.

(** ** Reasoning about the monad *)

Ltac unfold_M := unfold mbind, M_bind, mret, M_ret, get, put, modify, fail, crash in *.

Lemma fails_with_bind {St A B} (P : error -> Prop) (m : M St A) (f : A -> M St B) :
  fails_with P m -> (forall a, fails_with P (f a)) -> fails_with P (m ≫= f).
Proof.
  intros Hm Hf s s' e. unfold_M. destruct (m s) as [s1 a|s1 e1|r] eqn:E.
  - apply Hf.
  - intros [= <- <-]. eapply Hm, E.
  - discriminate.
Qed.

Lemma fails_with_ret {St A} P (a : A) : fails_with (St:=St) P (mret a).
Proof. intros s s' e. unfold_M. discriminate. Qed.

Lemma fails_with_get {St} P : fails_with (St:=St) P get.
Proof. intros s s' e. unfold_M. discriminate. Qed.

Lemma fails_with_put {St} P (x : St) : fails_with P (put x).
Proof. intros s s' e. unfold_M. discriminate. Qed.

Lemma fails_with_modify {St} P (f : St -> St) : fails_with P (modify f).
Proof. intros s s' e. unfold_M. discriminate. Qed.

Lemma fails_with_crash {St A} P r : fails_with (St:=St) (A:=A) P (crash r).
Proof. intros s s' e. unfold_M. discriminate. Qed.

Lemma fails_with_fail {St A} (P : error -> Prop) e : P e -> fails_with (St:=St) (A:=A) P (fail e).
Proof. intros HP s s' e'. unfold_M. intros [= _ <-]. exact HP. Qed.

Lemma fails_with_for_range {St A} P (body : nat -> A -> M St unit) i l :
  (forall j x, fails_with P (body j x)) -> fails_with P (for_range body i l).
Proof.
  intros Hb. revert i. induction l as [|x l IH]; intros i; simpl.
  - apply fails_with_ret.
  - apply fails_with_bind; [apply Hb | intros _; apply IH].
Qed.

Create HintDb fails discriminated.
#[local] Hint Resolve fails_with_ret fails_with_get fails_with_put fails_with_modify
  fails_with_crash : fails.

Ltac fails_step :=
  first [ solve [auto with fails]
        | apply fails_with_for_range; intros ? ?
        | apply fails_with_bind; [|intros ?]
        | apply fails_with_fail ].

Ltac fails_auto :=
  repeat first
    [ fails_step
    | match goal with
      | |- fails_with _ (match ?x with _ => _ end) => destruct x
      end ].

(** ** Errors of the assembler *)

Lemma insertDB_fails P f : fails_with P (insertDB f).
Proof.
  intros s s' e. unfold insertDB.
  repeat (match goal with |- context [match ?x with _ => _ end] => destruct x end);
    discriminate.
Qed.
#[local] Hint Resolve insertDB_fails : fails.

Lemma update_db_fails P i f : fails_with P (update_db i f).
Proof. unfold update_db. auto with fails. Qed.
#[local] Hint Resolve update_db_fails : fails.

Lemma insertTable_fails P f : fails_with P (insertTable f).
Proof. unfold insertTable. fails_auto. Qed.

Lemma insertView_fails P f : fails_with P (insertView f).
Proof. unfold insertView. fails_auto. Qed.
#[local] Hint Resolve insertTable_fails insertView_fails : fails.

Lemma assemble_fails : fails_with invalid_schema_file assemble.
Proof.
  unfold assemble, setup_dbSchema, setup_tableSchema, setup_viewSchema, setup_tableData.
  fails_auto; eexists; reflexivity.
Qed.

Lemma sort_dbs_fails P : fails_with P sort_dbs.
Proof. unfold sort_dbs. auto with fails. Qed.

(** ** The stages of a load *)

Section Pipeline.

Variable growslice : nat -> nat.
Variable Table_String : filter.Table -> string.

Implicit Types (st : ExternalStorage) (s : mdLoaderSetup).

(** [setup] runs to its last line exactly when the scan continues and both
    routing and assembly succeed; it then returns the scan's error. *)
Lemma setup_completes st s s1 err s2 s3 :
  listFiles growslice st s = (s1, err) -> scan_continues err ->
  route growslice Table_String s1 = Ret s2 tt -> assemble s2 = Ret s3 tt ->
  setup growslice Table_String st s = match err with
               | None => Ret (sorted_setup s3) tt
               | Some e => Fail (sorted_setup s3) e
               end.
Proof.
  intros HL HC HR HA. unfold setup. rewrite HL.
  assert (Hp : (_ ← assemble; sort_dbs) s2 = Ret (sorted_setup s3) tt).
  { unfold_M. rewrite HA. reflexivity. }
  destruct err as [e|]; simpl in HC.
  - rewrite HC, HR, Hp. reflexivity.
  - rewrite HR, Hp. reflexivity.
Qed.

Lemma setup_cases st s : setup_outcome growslice Table_String st s (setup growslice Table_String st s).
Proof.
  unfold setup.
  destruct (listFiles growslice st s) as [s1 err] eqn:HL.
  assert (Hproceed : scan_continues err ->
    setup_outcome growslice Table_String st s
      (match route growslice Table_String s1 with
       | Crash reason => Crash reason
       | Fail s' e => Fail s' (Wrapped ErrTableRoute "table route error" e)
       | Ret s' _ =>
           match (_ ← assemble; sort_dbs) s' with
           | Ret s'' _ => match err with Some e => Fail s'' e | None => Ret s'' tt end
           | other => other
           end
       end)).
  { intros HC. destruct (route growslice Table_String s1) as [s2 []|s2 e|reason] eqn:HR.
    - unfold_M. destruct (assemble s2) as [s3 []|s3 e|reason] eqn:HA.
      + apply (setup_completed growslice Table_String st s s1 err s2 s3); assumption.
      + eapply setup_assemble_failed; eauto. eapply assemble_fails, HA.
      + eapply setup_assemble_crashed; eauto.
    - eapply setup_route_failed; eauto.
    - eapply setup_route_crashed; eauto. }
  destruct err as [e|].
  - destruct (ErrorEqual e TooManySourceFiles) eqn:HE.
    + apply Hproceed. exact HE.
    + eapply setup_list_failed; eauto.
  - apply Hproceed. exact I.
Qed.

(** A returned catalog is the sorted result of a completed assembly. *)
Lemma load_catalog st f r fr cs opts mdl err :
  NewMyDumpLoaderWithStore growslice Table_String st f r fr cs opts
    = Returned (Some mdl) err ->
  exists s1 s2 s3,
    listFiles growslice st (new_setup st f r fr cs opts) = (s1, err) /\
    scan_continues err /\
    route growslice Table_String s1 = Ret s2 tt /\
    assemble s2 = Ret s3 tt /\
    mdl = loader (sorted_setup s3).
Proof.
  unfold NewMyDumpLoaderWithStore.
  change (store (loader (new_setup st f r fr cs opts))) with st.
  pose proof (setup_cases st (new_setup st f r fr cs opts)) as H.
  destruct H as [s1 e HL HE|s1 err' s2 e HL HC HR|s1 err' reason HL HC HR
                |s1 err' s2 s3 e HL HC HR HA [msg ->]|s1 err' s2 reason HL HC HR HA
                |s1 err' s2 s3 HL HC HR HA];
    try discriminate.
  - destruct err' as [e|].
    + simpl in HC. rewrite HC. intros [= <- <-]. eauto 10.
    + intros [= <- <-]. eauto 10.
Qed.

(** Without a catalog, the error is a listing, routing or schema-file
    error. *)
Lemma load_no_catalog st f r fr cs opts err :
  NewMyDumpLoaderWithStore growslice Table_String st f r fr cs opts
    = Returned None err ->
  exists e, err = Some e /\
    (error_kind e = Some ErrStorageUnknown \/ error_kind e = Some ErrTableRoute
     \/ error_kind e = Some ErrInvalidSchemaFile).
Proof.
  unfold NewMyDumpLoaderWithStore.
  change (store (loader (new_setup st f r fr cs opts))) with st.
  pose proof (setup_cases st (new_setup st f r fr cs opts)) as H.
  destruct H as [s1 e HL HE|s1 err' s2 e HL HC HR|s1 err' reason HL HC HR
                |s1 err' s2 s3 e HL HC HR HA [msg ->]|s1 err' s2 reason HL HC HR HA
                |s1 err' s2 s3 HL HC HR HA];
    try discriminate; simpl.
  - intros [= <-]. eauto.
  - intros [= <-]. eauto.
  - intros [= <-]. eauto.
  - destruct err' as [e|]; [|discriminate].
    simpl in HC. rewrite HC. discriminate.
Qed.

(** *** Sortedness of the published catalog *)

Lemma sort_DataFiles_sorted_from t : table_sorted_from t (sort_DataFiles t).
Proof.
  unfold table_sorted_from. simpl. split; [apply sort_DataFiles_spec|auto].
Qed.

Lemma Forall2_map_self {A B} (R : A -> B -> Prop) (f : A -> B) l :
  (forall x, R x (f x)) -> Forall2 R l (map f l).
Proof. intros H. induction l; simpl; constructor; auto. Qed.

Lemma sort_db_sorted_from d : database_sorted_from d (sort_db d).
Proof.
  split; [reflexivity|].
  exists (SliceStable less_TotalSize (MDDatabaseMeta.Tables d)). split.
  - apply sort_Tables_spec.
  - simpl. apply Forall2_map_self, sort_DataFiles_sorted_from.
Qed.

Lemma database_sorted_from_sorted d d' :
  database_sorted_from d d' ->
  sorted_by (fun a b => (MDTableMeta.TotalSize a <= MDTableMeta.TotalSize b)%Z)
            (MDDatabaseMeta.Tables d') /\
  forall t, t ∈ MDDatabaseMeta.Tables d' ->
    sorted_by (fun a b => String.leb (SortKey (FileMeta a)) (SortKey (FileMeta b)) = true)
              (MDTableMeta.DataFiles t).
Proof.
  intros (_ & tables & (_ & HS & _) & HF). split.
  - intros i a b Ha Hb.
    destruct (Forall2_lookup_r _ _ _ _ _ HF Ha) as (a0 & Ha0 & (_ & Hsa & _)).
    destruct (Forall2_lookup_r _ _ _ _ _ HF Hb) as (b0 & Hb0 & (_ & Hsb & _)).
    rewrite Hsa, Hsb. eapply HS; eassumption.
  - intros t Ht. apply list_elem_of_lookup in Ht as [i Hi].
    destruct (Forall2_lookup_r _ _ _ _ _ HF Hi) as (t0 & _ & ((_ & Hs & _) & _)).
    exact Hs.
Qed.

(** C1: in every catalog a load returns, each database's tables are in
    ascending order of total size and each table's data files in ascending
    order of sort key; both orders are the stable sorts of what the
    assembler built (equal keys keep their assembly order). *)
Theorem catalog_sorted st f r fr cs opts mdl err :
  NewMyDumpLoaderWithStore growslice Table_String st f r fr cs opts
    = Returned (Some mdl) err ->
  (forall db, db ∈ dbs mdl ->
     sorted_by (fun a b => (MDTableMeta.TotalSize a <= MDTableMeta.TotalSize b)%Z)
               (MDDatabaseMeta.Tables db) /\
     forall t, t ∈ MDDatabaseMeta.Tables db ->
       sorted_by (fun a b => String.leb (SortKey (FileMeta a)) (SortKey (FileMeta b)) = true)
                 (MDTableMeta.DataFiles t)) /\
  exists s1 s2 s3,
    listFiles growslice st (new_setup st f r fr cs opts) = (s1, err) /\
    route growslice Table_String s1 = Ret s2 tt /\
    assemble s2 = Ret s3 tt /\
    Forall2 database_sorted_from (dbs (loader s3)) (dbs mdl).
Proof.
  intros H. apply load_catalog in H as (s1 & s2 & s3 & HL & _ & HR & HA & ->).
  assert (HF : Forall2 database_sorted_from (dbs (loader s3))
                       (dbs (loader (sorted_setup s3)))).
  { simpl. apply Forall2_map_self, sort_db_sorted_from. }
  split; [|eauto 10].
  intros db Hdb. apply list_elem_of_lookup in Hdb as [i Hi].
  destruct (Forall2_lookup_r _ _ _ _ _ HF Hi) as (d0 & _ & Hd).
  eapply database_sorted_from_sorted, Hd.
Qed.

(** *** Which errors come with a catalog *)

Lemma load_of_setup st f r fr cs opts :
  NewMyDumpLoaderWithStore growslice Table_String st f r fr cs opts
  = match setup growslice Table_String st (new_setup st f r fr cs opts) with
    | Crash reason => Panicked reason
    | Fail s err =>
        if ErrorEqual err TooManySourceFiles then Returned (Some (loader s)) (Some err)
        else Returned None (Some err)
    | Ret s _ => Returned (Some (loader s)) None
    end.
Proof. reflexivity. Qed.

(** A failure of the assembler ends the load without a catalog. *)
Lemma load_fails_in_assembly st f r fr cs opts s1 err s2 s3 e :
  listFiles growslice st (new_setup st f r fr cs opts) = (s1, err) ->
  scan_continues err -> route growslice Table_String s1 = Ret s2 tt ->
  assemble s2 = Fail s3 e ->
  error_kind e = Some ErrInvalidSchemaFile /\
  NewMyDumpLoaderWithStore growslice Table_String st f r fr cs opts
  = Returned None (Some e).
Proof.
  intros HL HC HR HA. rewrite load_of_setup.
  destruct (assemble_fails _ _ _ HA) as [msg ->].
  split; [reflexivity|].
  unfold setup. rewrite HL.
  destruct err as [e0|]; simpl in HC; [rewrite HC|]; rewrite HR;
    unfold_M; rewrite HA; reflexivity.
Qed.

(** C4, as the code has it: when the ceiling is exceeded and the buckets
    scanned so far route and assemble without error, the load returns the
    catalog built from them (routed, assembled, sorted) together with the
    too-many-source-files error.  A listing failure, a routing failure and a
    duplicate-schema or orphan-view error each end the load without a
    catalog, also when they are raised after the ceiling was exceeded. *)
Theorem load_error_policy st f r fr cs opts s1 err :
  listFiles growslice st (new_setup st f r fr cs opts) = (s1, err) ->
  (forall e s2 s3,
     err = Some e -> ErrorEqual e TooManySourceFiles = true ->
     route growslice Table_String s1 = Ret s2 tt -> assemble s2 = Ret s3 tt ->
     NewMyDumpLoaderWithStore growslice Table_String st f r fr cs opts
     = Returned (Some (loader (sorted_setup s3))) (Some e))
  /\
  (forall e,
     err = Some e -> ErrorEqual e TooManySourceFiles = false ->
     NewMyDumpLoaderWithStore growslice Table_String st f r fr cs opts
     = Returned None (Some (Wrapped ErrStorageUnknown "list file failed" e)))
  /\
  (forall s2 e,
     scan_continues err -> route growslice Table_String s1 = Fail s2 e ->
     NewMyDumpLoaderWithStore growslice Table_String st f r fr cs opts
     = Returned None (Some (Wrapped ErrTableRoute "table route error" e)))
  /\
  (forall s2 s3 e,
     scan_continues err -> route growslice Table_String s1 = Ret s2 tt ->
     assemble s2 = Fail s3 e ->
     error_kind e = Some ErrInvalidSchemaFile /\
     NewMyDumpLoaderWithStore growslice Table_String st f r fr cs opts
     = Returned None (Some e)).
Proof.
  intros HL. rewrite load_of_setup.
  split; [|split; [|split]].
  - intros e s2 s3 -> HE HR HA.
    rewrite (setup_completes _ _ _ _ _ _ HL HE HR HA), HE. reflexivity.
  - intros e -> HE. unfold setup. rewrite HL, HE. reflexivity.
  - intros s2 e HC HR. unfold setup. rewrite HL.
    destruct err as [e0|]; simpl in HC; [rewrite HC|]; rewrite HR; reflexivity.
  - intros s2 s3 e HC HR HA.
    rewrite <- load_of_setup. eapply load_fails_in_assembly; eassumption.
Qed.

End Pipeline.

(** ** Scanner *)

Lemma int64_add_small (a b : Z) :
  (- 2 ^ 63 <= a + b < 2 ^ 63)%Z -> int64_add a b = (a + b)%Z.
Proof.
  intros H. unfold int64_add, int64_wrap.
  rewrite Z.mod_small; lia.
Qed.

Lemma Z_gtb_false (a b : Z) : (a <= b)%Z -> (a >? b)%Z = false.
Proof. intros H. rewrite Z.gtb_ltb. apply Z.ltb_ge. exact H. Qed.

Lemma Z_gtb_true (a b : Z) : (b < a)%Z -> (a >? b)%Z = true.
Proof. intros H. rewrite Z.gtb_ltb. apply Z.ltb_lt. exact H. Qed.

Section Scanner.

Variable growslice : nat -> nat.

Lemma append_length {A} (sl : slice A) x :
  length (elems (append growslice sl x)) = S (length (elems sl)).
Proof.
  unfold append. destruct (reallocates sl); simpl; rewrite length_app; simpl; lia.
Qed.

(** One visit below the ceiling: the counter advances, at most one file is
    added, and the walk goes on. *)
Lemma listFiles_visit_below path size s c :
  (0 <= c)%Z -> (c < MaxScanFiles (setupCfg s))%Z ->
  (MaxScanFiles (setupCfg s) < 2 ^ 63)%Z ->
  (forall e, fileRouter (loader s) path <> inl e) ->
  exists s',
    listFiles_visit growslice path size (s, c) = ((s', (c + 1)%Z), None) /\
    loader s' = loader s /\ setupCfg s' = setupCfg s /\
    (bucket_total s' <= S (bucket_total s))%nat.
Proof.
  intros H0 Hc HK Hr. unfold listFiles_visit.
  rewrite int64_add_small by lia.
  rewrite (Z_gtb_false (c + 1)) by lia.
  rewrite andb_false_r.
  destruct (fileRouter (loader s) path) as [e|[res|]] eqn:E.
  - exfalso. eapply Hr. reflexivity.
  - destruct (shouldSkip _ _).
    + exists s. repeat split; auto.
    + eexists. split; [reflexivity|].
      destruct (res_Type res); unfold bucket_total; simpl;
        rewrite ?append_length; repeat split; lia.
  - exists s. repeat split; auto.
Qed.

(** A walk that stays below the ceiling visits every entry. *)
Lemma WalkDir_below entries : forall s c,
  (0 <= c)%Z -> (c + Z.of_nat (length entries) <= MaxScanFiles (setupCfg s))%Z ->
  (MaxScanFiles (setupCfg s) < 2 ^ 63)%Z ->
  (forall path size e, (path, size) ∈ entries -> fileRouter (loader s) path <> inl e) ->
  exists s',
    (forall failure,
       WalkDir entries failure (listFiles_visit growslice) (s, c)
       = ((s', (c + Z.of_nat (length entries))%Z), failure)) /\
    loader s' = loader s /\ setupCfg s' = setupCfg s /\
    (bucket_total s' <= bucket_total s + length entries)%nat.
Proof.
  induction entries as [|[path size] entries IH]; intros s c H0 Hc HK Hr.
  - exists s. simpl. rewrite Z.add_0_r. repeat split; auto. lia.
  - simpl length in *.
    destruct (listFiles_visit_below path size s c) as (s1 & Hv & Hl & Hcfg & Hb);
      try lia.
    { intros e. eapply Hr. left. }
    destruct (IH s1 (c + 1)%Z) as (s' & Hw & Hl' & Hcfg' & Hb'); try lia.
    { rewrite Hcfg. lia. }
    { rewrite Hcfg. lia. }
    { intros p sz e Hin. rewrite Hl. eapply Hr. right. exact Hin. }
    exists s'. split; [|repeat split; try congruence; lia].
    intros failure. cbn [WalkDir]. rewrite Hv, Hw. f_equal. f_equal. lia.
Qed.

Lemma WalkDir_app {St} (e1 e2 : list (string * Z)) failure
    (visit : string -> Z -> St -> St * option error) st :
  WalkDir (e1 ++ e2) failure visit st
  = match WalkDir e1 None visit st with
    | (st', Some e) => (st', Some e)
    | (st', None) => WalkDir e2 failure visit st'
    end.
Proof.
  revert st. induction e1 as [|[p sz] e1 IH]; intros st; simpl; [reflexivity|].
  destruct (visit p sz st) as [st' [e|]]; [reflexivity|apply IH].
Qed.

(** The visit that crosses the ceiling stops the walk and adds nothing. *)
Lemma listFiles_visit_above path size s c :
  (0 < MaxScanFiles (setupCfg s))%Z -> (c = MaxScanFiles (setupCfg s))%Z ->
  (MaxScanFiles (setupCfg s) < 2 ^ 63 - 1)%Z ->
  listFiles_visit growslice path size (s, c) = ((s, (c + 1)%Z), Some TooManySourceFiles).
Proof.
  intros H0 -> HK. unfold listFiles_visit. rewrite int64_add_small by lia.
  rewrite !Z_gtb_true by lia. reflexivity.
Qed.

(** C3, as the code has it: with a positive ceiling [K], every entry the
    walk visits counts, classified or not.  When the walk lists at most [K]
    entries the ceiling never fires; when it lists more, the walk stops at
    entry [K+1] with the too-many-source-files error, and the buckets are
    those of scanning the first [K] entries alone, so they gained at most
    [K] files (possibly none). *)
Theorem scan_ceiling (st : ExternalStorage) (s : mdLoaderSetup) (K : Z) :
  MaxScanFiles (setupCfg s) = K -> (0 < K < 2 ^ 63 - 1)%Z ->
  (forall path size e,
     (path, size) ∈ walk_entries st -> fileRouter (loader s) path <> inl e) ->
  ((Z.of_nat (length (walk_entries st)) <= K)%Z ->
   snd (listFiles growslice st s) = walk_failure st)
  /\
  ((K < Z.of_nat (length (walk_entries st)))%Z ->
   exists s',
     listFiles growslice st s = (s', Some TooManySourceFiles) /\
     listFiles growslice
       (mkStorage (take (Z.to_nat K) (walk_entries st)) None (FileExists st)) s
     = (s', None) /\
     (bucket_total s' <= bucket_total s + Z.to_nat K)%nat).
Proof.
  intros HK Hrange Hr. split.
  - intros Hlen. unfold listFiles.
    destruct (WalkDir_below (walk_entries st) s 0%Z) as (s' & Hw & _); try lia; auto.
    rewrite Hw. reflexivity.
  - intros Hlen. unfold listFiles. simpl walk_entries. simpl walk_failure.
    set (n := Z.to_nat K).
    assert (Hn : (n < length (walk_entries st))%nat) by lia.
    pose proof (take_drop n (walk_entries st)) as HE.
    destruct (drop n (walk_entries st)) as [|[p sz] rest] eqn:Hd.
    { apply (f_equal length) in Hd. rewrite length_drop in Hd. simpl in Hd. lia. }
    replace (WalkDir (walk_entries st) (walk_failure st)
                     (listFiles_visit growslice) (s, 0%Z))
      with (WalkDir (take n (walk_entries st) ++ (p, sz) :: rest) (walk_failure st)
                    (listFiles_visit growslice) (s, 0%Z))
      by (rewrite HE; reflexivity).
    assert (Htake : length (take n (walk_entries st)) = n)
      by (rewrite length_take; lia).
    destruct (WalkDir_below (take n (walk_entries st)) s 0%Z)
      as (s' & Hw & Hl & Hcfg & Hb); try lia.
    { intros path size e Hin. eapply Hr, subseteq_take. exact Hin. }
    exists s'. rewrite WalkDir_app, !Hw. cbn [WalkDir].
    rewrite listFiles_visit_above; try (rewrite Hcfg; lia).
    repeat split. lia.
Qed.

End Scanner.

(** ** Name router pass *)

Lemma extends_refl known : extends known known.
Proof. intros k H. exact H. Qed.

Lemma extends_trans k1 k2 k3 : extends k1 k2 -> extends k2 k3 -> extends k1 k3.
Proof. intros H1 H2 k H. auto. Qed.

Lemma extends_insert known k d : extends known (<[k := d]> known).
Proof. intros j H. apply lookup_insert_is_Some'. right. exact H. Qed.

Lemma known_names_extends known known' l :
  extends known known' -> known_names known l -> known_names known' l.
Proof. intros He Hk info Hin. apply He, Hk, Hin. Qed.

Lemma base_counts_is_Some (l : list FileInfo) k :
  is_Some (base_counts l !! k) <-> exists d, d ∈ l /\ schema_of d = k.
Proof.
  unfold base_counts.
  assert (G : forall (acc : gmap string dbInfo),
    is_Some (foldl (fun known info =>
               <[filter.Schema (TableName info) := mkDbInfo (FileMeta info) 1]> known)
             acc l !! k)
    <-> is_Some (acc !! k) \/ exists d, d ∈ l /\ schema_of d = k).
  { induction l as [|x l IH]; intros acc; simpl.
    - split; [auto|]. intros [H|(d & Hd & _)]; [exact H|]. inversion Hd.
    - rewrite IH, lookup_insert_is_Some'. split.
      + intros [[H|H]|(d & Hd & Hk)].
        * right. exists x. split; [left|exact H].
        * left. exact H.
        * right. exists d. split; [right; exact Hd|exact Hk].
      + intros [H|(d & Hd & Hk)]; [left; right; exact H|].
        apply elem_of_cons in Hd as [->|Hd]; [left; left; exact Hk|].
        right. exists d. auto. }
  rewrite G. split; [|auto].
  intros [[d H]|H]; [|exact H]. rewrite lookup_empty in H. discriminate.
Qed.

(** One counting loop: it runs through when every file's database name has
    an entry, and dereferences nil at the first file whose name has none.
    The entries stay where they are. *)
Lemma count_range_ok l : forall i known,
  known_names known l ->
  exists known', for_range count_file i l known = Ret known' tt /\
                 extends known known' /\ extends known' known.
Proof.
  induction l as [|x l IH]; intros i known Hk; simpl.
  - exists known. unfold_M. auto using extends_refl.
  - unfold_M. unfold count_file at 1.
    destruct (Hk x) as [d Hd]; [left|]. fold (schema_of x). rewrite Hd.
    set (known1 := <[schema_of x := _]> known).
    assert (H1 : extends known known1) by apply extends_insert.
    assert (H2 : extends known1 known).
    { intros k. unfold known1. rewrite lookup_insert_is_Some'.
      intros [<-|H]; [rewrite Hd; eauto|exact H]. }
    destruct (IH (S i) known1) as (known' & HR & E1 & E2).
    { eapply known_names_extends; [exact H1|]. intros info Hin. apply Hk. right. exact Hin. }
    exists known'. split; [exact HR|]. split; eapply extends_trans; eassumption.
Qed.

Lemma count_range_crash l : forall i known info,
  info ∈ l -> known !! schema_of info = None ->
  for_range count_file i l known = Crash nil_deref.
Proof.
  induction l as [|x l IH]; intros i known info Hin Hnone; [inversion Hin|].
  simpl. unfold_M. unfold count_file at 1. fold (schema_of x).
  destruct (known !! schema_of x) as [d|] eqn:Hx; [|reflexivity].
  apply elem_of_cons in Hin as [->|Hin]; [congruence|].
  eapply IH; [exact Hin|].
  destruct (decide (schema_of x = schema_of info)) as [E|E].
  - rewrite E in Hx. congruence.
  - rewrite lookup_insert_ne; assumption.
Qed.

Lemma not_is_Some_None {A} (o : option A) : ~ is_Some o -> o = None.
Proof. destruct o; [intros H; exfalso; apply H; eauto|reflexivity]. Qed.

Lemma known_names_dec known l :
  known_names known l \/ exists info, info ∈ l /\ known !! schema_of info = None.
Proof.
  induction l as [|x l [IH|(info & Hin & Hn)]].
  - left. intros info Hin. inversion Hin.
  - destruct (known !! schema_of x) as [d|] eqn:Hx.
    + left. intros info [->|Hin]%elem_of_cons; [rewrite Hx; eauto|auto].
    + right. exists x. split; [left|exact Hx].
  - right. exists info. split; [right; exact Hin|exact Hn].
Qed.

Lemma known_names_app known l1 l2 :
  known_names known (l1 ++ l2) <-> known_names known l1 /\ known_names known l2.
Proof.
  unfold known_names. split.
  - intros H. split; intros info Hin; apply H, elem_of_app; auto.
  - intros [H1 H2] info [Hin|Hin]%elem_of_app; auto.
Qed.

(** The three counting loops together. *)
Lemma count_files_ok s known :
  known_names known (elems (tableSchemas s) ++ elems (viewSchemas s) ++ elems (tableDatas s)) ->
  exists known', count_files s known = Ret known' tt /\
                 extends known known' /\ extends known' known.
Proof.
  intros H. apply known_names_app in H as (H1 & H).
  apply known_names_app in H as (H2 & H3).
  unfold count_files. unfold_M.
  destruct (count_range_ok _ 0 known H1) as (k1 & -> & E1 & E1').
  destruct (count_range_ok _ 0 k1 (known_names_extends _ _ _ E1 H2)) as (k2 & -> & E2 & E2').
  destruct (count_range_ok _ 0 k2
              (known_names_extends _ _ _ (extends_trans _ _ _ E1 E2) H3))
    as (k3 & -> & E3 & E3').
  exists k3. split; [reflexivity|]. split.
  - exact (extends_trans _ _ _ E1 (extends_trans _ _ _ E2 E3)).
  - exact (extends_trans _ _ _ E3' (extends_trans _ _ _ E2' E1')).
Qed.

Lemma count_files_crash s known info :
  info ∈ elems (tableSchemas s) ++ elems (viewSchemas s) ++ elems (tableDatas s) ->
  known !! schema_of info = None ->
  count_files s known = Crash nil_deref.
Proof.
  intros Hin Hnone. unfold count_files. unfold_M.
  assert (Hstay : forall k', extends k' known -> k' !! schema_of info = None).
  { intros k' E. apply not_is_Some_None. intros H. apply E in H.
    rewrite Hnone in H. destruct H; discriminate. }
  destruct (known_names_dec known (elems (tableSchemas s))) as [H1|(x & Hx & Hn)].
  2:{ erewrite count_range_crash; eauto. }
  destruct (count_range_ok _ 0 known H1) as (k1 & -> & E1 & E1').
  destruct (known_names_dec k1 (elems (viewSchemas s))) as [H2|(x & Hx & Hn)].
  2:{ erewrite count_range_crash; eauto. }
  destruct (count_range_ok _ 0 k1 H2) as (k2 & -> & E2 & E2').
  apply elem_of_app in Hin as [Hin|Hin].
  { destruct (H1 _ Hin) as [d Hd]. congruence. }
  apply elem_of_app in Hin as [Hin|Hin].
  { destruct (H2 _ Hin) as [d Hd]. rewrite (Hstay k1 E1') in Hd. discriminate. }
  eapply count_range_crash; [exact Hin|].
  apply Hstay. eapply extends_trans; eassumption.
Qed.

Section Routing.

Variable growslice : nat -> nat.
Variable Table_String : filter.Table -> string.

Lemma elems_append {A} (sl : slice A) x :
  elems (append growslice sl x) = elems sl ++ [x].
Proof. unfold append. destruct (reallocates sl); reflexivity. Qed.

Lemma elem_of_alter_rename t tt i (l : list FileInfo) x :
  x ∈ alter (rename t tt) i l -> x ∈ l \/ schema_of x = t.
Proof.
  intros [j Hj]%list_elem_of_lookup.
  destruct (decide (i = j)) as [->|Hne].
  - rewrite list_lookup_alter_eq in Hj.
    destruct (l !! j); [|discriminate]. injection Hj as <-. right. reflexivity.
  - rewrite list_lookup_alter_ne in Hj by exact Hne.
    left. eapply list_elem_of_lookup_2, Hj.
Qed.

Lemma known_names_alter known t tt i l :
  is_Some (known !! t) -> known_names known l ->
  known_names known (alter (rename t tt) i l).
Proof.
  intros Ht Hl x [Hx| <-]%elem_of_alter_rename; auto.
Qed.

Lemma write_arr_names_known i t tt st :
  is_Some (knownDBNames st !! t) -> names_known st ->
  names_known (write_arr i t tt st).
Proof.
  intros Ht [H1 H2]. unfold write_arr, names_known. simpl. split.
  - destruct (aliased st); simpl; [apply known_names_alter|]; assumption.
  - apply known_names_alter; assumption.
Qed.

(** One iteration of [runRoute] keeps the counts defined, never panics when
    the file's own database name has a count, and fails only with the
    router's error. *)
Lemma runRoute_body_inv r i info st :
  names_known st -> is_Some (knownDBNames st !! schema_of info) ->
  match runRoute_body growslice r i info st with
  | Ret st' _ => extends (knownDBNames st) (knownDBNames st') /\ names_known st'
  | Fail st' e => st' = st /\ r (schema_of info) (filter.Name (TableName info)) = inl e
  | Crash _ => False
  end.
Proof.
  intros [H1 H2] Hraw. unfold runRoute_body. fold (schema_of info).
  destruct (r (schema_of info) (filter.Name (TableName info)))
    as [err|[targetDB targetTable]]; [auto|].
  case_bool_decide as Hne.
  - destruct Hraw as [oldInfo Hold]. rewrite Hold.
    set (known1 := <[schema_of info := _]> (knownDBNames st)).
    assert (E1 : extends (knownDBNames st) known1) by apply extends_insert.
    destruct (known1 !! targetDB) as [newInfo|] eqn:Hnew.
    + set (known2 := <[targetDB := _]> known1).
      assert (E2 : extends known1 known2) by apply extends_insert.
      split; [exact (extends_trans _ _ _ E1 E2)|].
      apply write_arr_names_known; simpl.
      * unfold known2. rewrite lookup_insert_eq. eauto.
      * split; simpl;
          (eapply known_names_extends; [exact (extends_trans _ _ _ E1 E2)|assumption]).
    + set (known2 := <[targetDB := _]> known1).
      assert (E2 : extends known1 known2) by apply extends_insert.
      split; [exact (extends_trans _ _ _ E1 E2)|].
      apply write_arr_names_known; simpl.
      * unfold known2. rewrite lookup_insert_eq. eauto.
      * split; simpl;
          [|eapply known_names_extends; [exact (extends_trans _ _ _ E1 E2)|assumption]].
        rewrite elems_append. apply known_names_app. split.
        -- eapply known_names_extends; [exact (extends_trans _ _ _ E1 E2)|assumption].
        -- intros x ->%list_elem_of_singleton. unfold schema_of. simpl.
           unfold known2. rewrite lookup_insert_eq. eauto.
  - split; [apply extends_refl|].
    apply write_arr_names_known; [|split; assumption].
    rewrite Hne. exact Hraw.
Qed.

Lemma runRoute_range_inv r todo : forall i st,
  names_known st -> known_names (knownDBNames st) todo ->
  match for_range (runRoute_body growslice r) i todo st with
  | Ret st' _ | Fail st' _ => extends (knownDBNames st) (knownDBNames st') /\ names_known st'
  | Crash _ => False
  end.
Proof.
  induction todo as [|info todo IH]; intros i st HJ Htodo; simpl.
  - unfold_M. split; [apply extends_refl|exact HJ].
  - unfold_M.
    pose proof (runRoute_body_inv r i info st HJ (Htodo info ltac:(left))) as Hb.
    destruct (runRoute_body growslice r i info st) as [st1 []|st1 e|reason].
    + destruct Hb as [E1 HJ1].
      specialize (IH (S i) st1 HJ1).
      destruct (for_range _ (S i) todo st1) as [st2 []|st2 e|reason].
      * destruct IH as [E2 HJ2].
        { eapply known_names_extends; [exact E1|]. intros x Hx. apply Htodo. right. exact Hx. }
        split; [exact (extends_trans _ _ _ E1 E2)|exact HJ2].
      * destruct IH as [E2 HJ2].
        { eapply known_names_extends; [exact E1|]. intros x Hx. apply Htodo. right. exact Hx. }
        split; [exact (extends_trans _ _ _ E1 E2)|exact HJ2].
      * apply IH.
        eapply known_names_extends; [exact E1|]. intros x Hx. apply Htodo. right. exact Hx.
    + destruct Hb as [-> _]. split; [apply extends_refl|exact HJ].
    + exact Hb.
Qed.

Lemma route_pass_inv r b sk :
  buckets_known sk ->
  match route_pass growslice r b sk with
  | Ret sk' _ | Fail sk' _ => extends (snd sk) (snd sk') /\ buckets_known sk'
  | Crash _ => False
  end.
Proof.
  destruct sk as [s known]. intros HP. unfold route_pass, runRoute. simpl arr.
  match goal with |- context [for_range _ 0 ?l ?st] =>
    pose proof (runRoute_range_inv r l 0 st) as H end.
  simpl in H.
  specialize (H (conj (HP DbSchemas) (HP b)) (HP b)).
  assert (G : forall st', extends known (knownDBNames st') /\ names_known st' ->
     extends known (knownDBNames st') /\ buckets_known (commit b s st', knownDBNames st')).
  { intros st' [E [J1 J2]]. split; [exact E|].
    intros b'. simpl.
    destruct b, b'; simpl; try assumption;
      (eapply known_names_extends; [exact E|]);
      first [ exact (HP DbSchemas) | exact (HP TableSchemas)
            | exact (HP ViewSchemas) | exact (HP TableDatas) ]. }
  destruct (for_range _ 0 _ _) as [st' []|st' e|reason]; [apply G, H|apply G, H|exact H].
Qed.

Lemma route_rewrite_inv r sk :
  buckets_known sk ->
  match route_rewrite growslice r sk with
  | Ret sk' _ | Fail sk' _ => extends (snd sk) (snd sk') /\ buckets_known sk'
  | Crash _ => False
  end.
Proof.
  intros HP. unfold route_rewrite. unfold_M.
  pose proof (route_pass_inv r DbSchemas sk HP) as H1.
  destruct (route_pass growslice r DbSchemas sk) as [sk1 []|sk1 e|reason]; auto.
  destruct H1 as [E1 P1].
  pose proof (route_pass_inv r TableSchemas sk1 P1) as H2.
  destruct (route_pass growslice r TableSchemas sk1) as [sk2 []|sk2 e|reason]; auto.
  2:{ destruct H2. eauto using extends_trans. }
  destruct H2 as [E2 P2].
  pose proof (route_pass_inv r ViewSchemas sk2 P2) as H3.
  destruct (route_pass growslice r ViewSchemas sk2) as [sk3 []|sk3 e|reason]; auto.
  2:{ destruct H3. eauto using extends_trans. }
  destruct H3 as [E3 P3].
  pose proof (route_pass_inv r TableDatas sk3 P3) as H4.
  destruct (route_pass growslice r TableDatas sk3) as [sk4 []|sk4 e|reason]; auto.
  - destruct H4. eauto 6 using extends_trans.
  - destruct H4. eauto 6 using extends_trans.
Qed.

Lemma negative_count_dec known (l : list FileInfo) :
  (forall info, info ∈ l -> (0 <= count_in known info)%Z) \/
  (exists info, info ∈ l /\ (count_in known info < 0)%Z).
Proof.
  induction l as [|x l [IH|(info & Hin & Hn)]].
  - left. intros info Hin. inversion Hin.
  - destruct (decide (count_in known x < 0)%Z) as [Hx|Hx].
    + right. exists x. split; [left|exact Hx].
    + left. intros info [->|Hin]%elem_of_cons; [lia|auto].
  - right. exists info. split; [right; exact Hin|exact Hn].
Qed.

(** The closing loop keeps exactly the files whose name has a positive
    count when no count is negative. *)
Lemma keep_remaining_nonneg known l : forall i acc,
  known_names known l ->
  (forall info, info ∈ l -> (0 <= count_in known info)%Z) ->
  for_range (keep_remaining Table_String known) i l acc
  = Ret (acc ++ filter (fun info => (0 < count_in known info)%Z) l) tt.
Proof.
  induction l as [|x l IH]; intros i acc Hk Hnn; simpl.
  - unfold_M. rewrite app_nil_r. reflexivity.
  - unfold_M. unfold keep_remaining at 1. fold (schema_of x).
    destruct (Hk x ltac:(left)) as [d Hd].
    pose proof (Hnn x ltac:(left)) as Hx.
    assert (Hcx : count_in known x = count d) by (unfold count_in; rewrite Hd; reflexivity).
    rewrite filter_cons, Hd. rewrite Hcx in Hx.
    assert (Hk' : known_names known l) by (intros y Hy; apply Hk; right; exact Hy).
    assert (Hnn' : forall info, info ∈ l -> (0 <= count_in known info)%Z)
      by (intros y Hy; apply Hnn; right; exact Hy).
    destruct (count d >? 0)%Z eqn:Hpos.
    + rewrite IH by assumption.
      rewrite decide_True by (rewrite Hcx; apply Z.gtb_lt in Hpos; lia).
      rewrite <- app_assoc. reflexivity.
    + rewrite Z.gtb_ltb in Hpos. apply Z.ltb_ge in Hpos.
      replace (count d <? 0)%Z with false by (symmetry; apply Z.ltb_ge; lia).
      rewrite IH by assumption. rewrite decide_False by (rewrite Hcx; lia).
      reflexivity.
Qed.

(** It fails with a table-route error at the first file whose name has a
    negative count. *)
Lemma keep_remaining_negative known l : forall i acc,
  known_names known l ->
  (exists info, info ∈ l /\ (count_in known info < 0)%Z) ->
  exists acc' info,
    info ∈ l /\ (count_in known info < 0)%Z /\
    for_range (keep_remaining Table_String known) i l acc
    = Fail acc' (Normalized ErrTableRoute
                   ("something wrong happened when route "
                      ++ Table_String (TableName info))).
Proof.
  induction l as [|x l IH]; intros i acc Hk (info & Hin & Hneg).
  - inversion Hin.
  - simpl. unfold_M. unfold keep_remaining at 1. fold (schema_of x).
    destruct (Hk x ltac:(left)) as [d Hd]. rewrite Hd.
    assert (Hcx : count_in known x = count d) by (unfold count_in; rewrite Hd; reflexivity).
    destruct (count d >? 0)%Z eqn:Hpos; [|destruct (count d <? 0)%Z eqn:Hlt].
    + apply Z.gtb_lt in Hpos.
      apply elem_of_cons in Hin as [->|Hin]; [lia|].
      destruct (IH (S i) (acc ++ [x])) as (acc' & y & Hy & Hny & HF); eauto.
      { intros z Hz. apply Hk. right. exact Hz. }
      exists acc', y. split; [right; exact Hy|]. auto.
    + apply Z.ltb_lt in Hlt. exists acc, x. split; [left|]. split; [lia|reflexivity].
    + apply Z.ltb_ge in Hlt.
      apply elem_of_cons in Hin as [->|Hin]; [lia|].
      destruct (IH (S i) acc) as (acc' & y & Hy & Hny & HF); eauto.
      { intros z Hz. apply Hk. right. exact Hz. }
      exists acc', y. split; [right; exact Hy|]. auto.
Qed.

(** The first file of a list whose name has a negative count. *)
Lemma first_negative known (l : list FileInfo) :
  (exists info, info ∈ l /\ (count_in known info < 0)%Z) ->
  exists before info after,
    l = before ++ info :: after /\
    (forall x, x ∈ before -> (0 <= count_in known x)%Z) /\
    (count_in known info < 0)%Z.
Proof.
  induction l as [|x l IH]; intros (info & Hin & Hneg); [inversion Hin|].
  destruct (decide (count_in known x < 0)%Z) as [Hx|Hx].
  - exists [], x, l. split; [reflexivity|]. split; [|exact Hx].
    intros y Hy. inversion Hy.
  - apply elem_of_cons in Hin as [->|Hin]; [contradiction|].
    destruct IH as (before & y & after & -> & Hb & Hy); [eauto|].
    exists (x :: before), y, after. split; [reflexivity|]. split; [|exact Hy].
    intros z [->|Hz]%elem_of_cons; [lia|auto].
Qed.

(** The closing loop stops at that file, having kept the files with a
    positive count that come before it. *)
Lemma keep_remaining_first_negative known before : forall i acc info after,
  known_names known (before ++ info :: after) ->
  (forall x, x ∈ before -> (0 <= count_in known x)%Z) ->
  (count_in known info < 0)%Z ->
  for_range (keep_remaining Table_String known) i (before ++ info :: after) acc
  = Fail (acc ++ filter (fun x => (0 < count_in known x)%Z) before)
         (Normalized ErrTableRoute
            ("something wrong happened when route " ++ Table_String (TableName info))).
Proof.
  induction before as [|x before IH]; intros i acc info after Hk Hnn Hneg; simpl.
  - unfold_M. unfold keep_remaining at 1. fold (schema_of info).
    destruct (Hk info ltac:(left)) as [d Hd]. rewrite Hd.
    assert (Hc : count_in known info = count d) by (unfold count_in; rewrite Hd; reflexivity).
    rewrite Hc in Hneg.
    rewrite Z_gtb_false by lia.
    replace (count d <? 0)%Z with true by (symmetry; apply Z.ltb_lt; exact Hneg).
    rewrite app_nil_r. reflexivity.
  - unfold_M. unfold keep_remaining at 1. fold (schema_of x).
    destruct (Hk x ltac:(left)) as [d Hd]. rewrite Hd.
    pose proof (Hnn x ltac:(left)) as Hx.
    assert (Hc : count_in known x = count d) by (unfold count_in; rewrite Hd; reflexivity).
    rewrite Hc in Hx. rewrite filter_cons.
    assert (Hk' : known_names known (before ++ info :: after))
      by (intros y Hy; apply Hk; right; exact Hy).
    assert (Hnn' : forall y, y ∈ before -> (0 <= count_in known y)%Z)
      by (intros y Hy; apply Hnn; right; exact Hy).
    destruct (count d >? 0)%Z eqn:Hpos.
    + rewrite IH by assumption.
      rewrite decide_True by (rewrite Hc; apply Z.gtb_lt in Hpos; lia).
      rewrite <- app_assoc. reflexivity.
    + rewrite Z.gtb_ltb in Hpos. apply Z.ltb_ge in Hpos.
      replace (count d <? 0)%Z with false by (symmetry; apply Z.ltb_ge; lia).
      rewrite IH by assumption. rewrite decide_False by (rewrite Hc; lia).
      reflexivity.
Qed.

(** Once the counting loops are through, every file has a count. *)
Lemma counted_buckets_known s known :
  count_files s (base_counts (elems (dbSchemas s))) = Ret known tt ->
  buckets_known (s, known).
Proof.
  intros Hc.
  destruct (known_names_dec (base_counts (elems (dbSchemas s)))
              (elems (tableSchemas s) ++ elems (viewSchemas s) ++ elems (tableDatas s)))
    as [Hk|(info & Hin & Hn)].
  2:{ rewrite (count_files_crash _ _ _ Hin Hn) in Hc. discriminate. }
  destruct (count_files_ok _ _ Hk) as (known' & Hc' & E & _).
  rewrite Hc in Hc'. injection Hc' as <-.
  apply known_names_app in Hk as (H1 & Hk). apply known_names_app in Hk as (H2 & H3).
  intros b. simpl. eapply known_names_extends; [exact E|].
  destruct b; simpl; try assumption.
  intros d Hd. apply base_counts_is_Some. eauto.
Qed.

(** C10: with a router configured, the pass panics on a nil map entry as
    soon as some table-schema, view-schema or data file belongs to a
    database that has no database-schema file; when every such file's
    database has one, the pass does not panic. *)
Theorem route_needs_database_schemas (s : mdLoaderSetup) (r : RouteTable) :
  router (loader s) = Some r ->
  ((exists info,
      info ∈ elems (tableSchemas s) ++ elems (viewSchemas s) ++ elems (tableDatas s) /\
      forall d, d ∈ elems (dbSchemas s) -> schema_of d <> schema_of info) ->
   route growslice Table_String s = Crash nil_deref)
  /\
  ((forall info,
      info ∈ elems (tableSchemas s) ++ elems (viewSchemas s) ++ elems (tableDatas s) ->
      exists d, d ∈ elems (dbSchemas s) /\ schema_of d = schema_of info) ->
   forall reason, route growslice Table_String s <> Crash reason).
Proof.
  intros Hr. split.
  - intros (info & Hin & Hmiss). unfold route. rewrite Hr.
    rewrite (count_files_crash _ _ info); [reflexivity|exact Hin|].
    apply not_is_Some_None. intros (d & Hd & Hs)%base_counts_is_Some.
    eapply Hmiss; eassumption.
  - intros Hall reason. unfold route. rewrite Hr.
    destruct (count_files_ok s (base_counts (elems (dbSchemas s)))) as (known & Hc & _).
    { intros info Hin. apply base_counts_is_Some, Hall, Hin. }
    rewrite Hc.
    pose proof (route_rewrite_inv r (s, known) (counted_buckets_known _ _ Hc)) as Hrw.
    destruct (route_rewrite growslice r (s, known)) as [[s' known'] []|[s' known'] e|?];
      [|discriminate|contradiction].
    destruct Hrw as [_ HP]. specialize (HP DbSchemas). simpl in HP.
    destruct (negative_count_dec known' (elems (dbSchemas s'))) as [Hnn|Hneg].
    + rewrite keep_remaining_nonneg by assumption. discriminate.
    + destruct (keep_remaining_negative known' _ 0 [] HP Hneg) as (acc & y & _ & _ & ->).
      discriminate.
Qed.

(** C2, as the code has it: at the end of the pass a database-schema file
    whose name has reference count zero is dropped from the bucket and one
    with a positive count is kept, in order; if the name of some file still
    in the bucket has a negative count, the pass fails with a table-route
    error that names the first such file, leaving the bucket at its length
    with the files kept before that file written over its front.  Whatever
    makes the pass fail, a negative count or an error of the routing rules,
    [setup] reports it under the one table-route class. *)
Theorem route_reference_counts (s : mdLoaderSetup) (r : RouteTable)
    (known : gmap string dbInfo) (s' : mdLoaderSetup) (known' : gmap string dbInfo) :
  router (loader s) = Some r ->
  count_files s (base_counts (elems (dbSchemas s))) = Ret known tt ->
  route_rewrite growslice r (s, known) = Ret (s', known') tt ->
  ((forall info, info ∈ elems (dbSchemas s') -> (0 <= count_in known' info)%Z) ->
   route growslice Table_String s
   = Ret (set_dbSchemas s'
            (mkSlice (filter (fun info => (0 < count_in known' info)%Z)
                             (elems (dbSchemas s')))
                     (cap (dbSchemas s')))) tt)
  /\
  ((exists info, info ∈ elems (dbSchemas s') /\ (count_in known' info < 0)%Z) ->
   exists before info after,
     elems (dbSchemas s') = before ++ info :: after /\
     (forall x, x ∈ before -> (0 <= count_in known' x)%Z) /\
     (count_in known' info < 0)%Z /\
     route growslice Table_String s
     = Fail (set_dbSchemas s'
               (mkSlice (filtered_in_place
                           (filter (fun x => (0 < count_in known' x)%Z) before)
                           (elems (dbSchemas s')))
                        (cap (dbSchemas s'))))
            (Normalized ErrTableRoute
               ("something wrong happened when route "
                  ++ Table_String (TableName info))))
  /\
  (forall st s0 err sx e,
     listFiles growslice st s0 = (s, err) -> scan_continues err ->
     route growslice Table_String s = Fail sx e ->
     setup growslice Table_String st s0
     = Fail sx (Wrapped ErrTableRoute "table route error" e) /\
     error_kind (Wrapped ErrTableRoute "table route error" e) = Some ErrTableRoute).
Proof.
  intros Hr Hc Hrw.
  pose proof (route_rewrite_inv r (s, known) (counted_buckets_known _ _ Hc)) as Hinv.
  rewrite Hrw in Hinv. destruct Hinv as [_ HP].
  specialize (HP DbSchemas). simpl in HP.
  split; [|split].
  - intros Hnn. unfold route. rewrite Hr, Hc, Hrw.
    rewrite keep_remaining_nonneg by assumption. reflexivity.
  - intros Hneg. unfold route. rewrite Hr, Hc, Hrw.
    destruct (first_negative known' _ Hneg) as (before & y & after & E & Hb & Hy).
    exists before, y, after. split; [exact E|]. split; [exact Hb|]. split; [exact Hy|].
    rewrite E in HP.
    pose proof (keep_remaining_first_negative known' before 0 [] y after HP Hb Hy) as HF.
    rewrite <- E in HF. rewrite HF. reflexivity.
  - intros st s0 err sx e HL HC HF. split; [|reflexivity].
    unfold setup. rewrite HL.
    destruct err as [e0|]; simpl in HC; [rewrite HC|]; rewrite HF; reflexivity.
Qed.

End Routing.

(** ** Catalog assembler *)

Lemma db_le_refl d : db_le d d.
Proof. repeat split; auto. Qed.

Lemma db_le_trans d1 d2 d3 : db_le d1 d2 -> db_le d2 d3 -> db_le d1 d3.
Proof.
  intros (N1 & V1 & T1) (N2 & V2 & T2). repeat split; [congruence|auto|lia].
Qed.

Lemma dbs_le_refl l : dbs_le l l.
Proof. intros i d H. exists d. split; [exact H|apply db_le_refl]. Qed.

Lemma dbs_le_trans l1 l2 l3 : dbs_le l1 l2 -> dbs_le l2 l3 -> dbs_le l1 l3.
Proof.
  intros H1 H2 i d Hd. destruct (H1 i d Hd) as (d2 & Hd2 & L1).
  destruct (H2 i d2 Hd2) as (d3 & Hd3 & L2).
  exists d3. split; [exact Hd3|eapply db_le_trans; eassumption].
Qed.

Lemma dbs_le_app l x : dbs_le l (l ++ [x]).
Proof.
  intros i d H. exists d. split; [|apply db_le_refl].
  rewrite lookup_app_l; [exact H|]. eapply lookup_lt_Some, H.
Qed.

Lemma dbs_le_alter f i l : (forall d, db_le d (f d)) -> dbs_le l (alter f i l).
Proof.
  intros Hf j d H. destruct (decide (i = j)) as [->|Hne].
  - exists (f d). rewrite list_lookup_alter_eq, H. split; [reflexivity|apply Hf].
  - exists d. rewrite list_lookup_alter_ne by exact Hne. split; [exact H|apply db_le_refl].
Qed.

Lemma step_refl s : step s s.
Proof. unfold step. repeat split; auto using dbs_le_refl. Qed.

Lemma step_trans s1 s2 s3 : step s1 s2 -> step s2 s3 -> step s1 s3.
Proof.
  unfold step. intros (A1 & B1 & C1 & D1 & E1 & F1 & G1 & H1)
                      (A2 & B2 & C2 & D2 & E2 & F2 & G2 & H2).
  repeat split; try congruence; [eapply dbs_le_trans; eassumption|auto].
Qed.

(** [insertDB] finds or creates the database and does not panic. *)
Lemma insertDB_spec f s :
  indexes_valid s ->
  exists s' i b,
    insertDB f s = Ret s' (i, b) /\ indexes_valid s' /\ step s s' /\
    tableIndexMap s' = tableIndexMap s /\
    dbIndexMap s' !! schema_of f = Some i /\
    (b = true <-> is_Some (dbIndexMap s !! schema_of f)).
Proof.
  intros [W1 W2]. unfold insertDB. fold (schema_of f).
  destruct (dbIndexMap s !! schema_of f) as [i|] eqn:Hi.
  - destruct (W1 _ _ Hi) as (d & Hd & Hn). rewrite Hd.
    exists s, i, true. split; [reflexivity|]. split; [split; assumption|].
    split; [apply step_refl|]. split; [reflexivity|]. split; [exact Hi|].
    split; eauto.
  - eexists _, _, false. split; [reflexivity|]. simpl.
    split; [split|split; [|split; [reflexivity|split]]].
    + intros name i. simpl. destruct (decide (schema_of f = name)) as [<-|Hne].
      * rewrite lookup_insert_eq. intros [= <-].
        eexists; split;
          [rewrite lookup_app_r, Nat.sub_diag by lia; reflexivity|reflexivity].
      * rewrite lookup_insert_ne by exact Hne. intros H.
        destruct (W1 _ _ H) as (d & Hd & Hn). exists d. split; [|exact Hn].
        rewrite lookup_app_l; [exact Hd|]. eapply lookup_lt_Some, Hd.
    + intros key j. simpl. intros H.
      destruct (W2 _ _ H) as (i & d & Hk & Hd & Hj).
      exists i, d. split; [|split; [|exact Hj]].
      * rewrite lookup_insert_ne; [exact Hk|]. intros E. rewrite <- E in Hk. congruence.
      * rewrite lookup_app_l; [exact Hd|]. eapply lookup_lt_Some, Hd.
    + unfold step. simpl. repeat split; auto using dbs_le_app.
      intros k i H. rewrite lookup_insert_ne; [exact H|]. intros E. congruence.
    + simpl. apply lookup_insert_eq.
    + split; [discriminate|]. intros [x Hx]. discriminate.
Qed.

Lemma indexes_valid_le s s' :
  indexes_valid s -> dbs_le (dbs (loader s)) (dbs (loader s')) ->
  dbIndexMap s' = dbIndexMap s -> tableIndexMap s' = tableIndexMap s ->
  indexes_valid s'.
Proof.
  intros [W1 W2] Hle Hd Ht. split.
  - intros name i. rewrite Hd. intros H.
    destruct (W1 _ _ H) as (d & Hd0 & Hn).
    destruct (Hle _ _ Hd0) as (d' & Hd' & (Hn' & _)).
    exists d'. split; [exact Hd'|congruence].
  - intros key j. rewrite Ht, Hd. intros H.
    destruct (W2 _ _ H) as (i & d & Hk & Hd0 & Hj).
    destruct (Hle _ _ Hd0) as (d' & Hd' & (_ & _ & Hlen)).
    exists i, d'. split; [exact Hk|]. split; [exact Hd'|lia].
Qed.

(** [insertTable] finds or creates the table and does not panic; the table
    existed exactly when its key was in the index map. *)
Lemma insertTable_spec f s :
  indexes_valid s ->
  exists s' i j de te,
    insertTable f s = Ret s' ((i, j), de, te) /\ indexes_valid s' /\ step s s' /\
    (te = true <-> is_Some (tableIndexMap s !! table_key (TableName f))) /\
    (forall k, is_Some (tableIndexMap s' !! k)
               <-> is_Some (tableIndexMap s !! k) \/ k = table_key (TableName f)).
Proof.
  intros W. unfold insertTable. unfold_M.
  destruct (insertDB_spec (dbFileInfo f) s W) as (s1 & i & de & -> & W1 & S1 & Ht1 & Hi & _).
  change (schema_of (dbFileInfo f)) with (schema_of f) in Hi.
  destruct (proj1 W1 _ _ Hi) as (d & Hd & Hn). rewrite Hd, Ht1.
  destruct (tableIndexMap s !! table_key (TableName f)) as [j|] eqn:Hj.
  - rewrite <- Ht1 in Hj.
    destruct (proj2 W1 _ _ Hj) as (i' & d' & Hk & Hd' & Hlt).
    change ((table_key (TableName f)).1) with (schema_of f) in Hk.
    rewrite Hi in Hk. injection Hk as <-. rewrite Hd in Hd'. injection Hd' as <-.
    destruct (lookup_lt_is_Some_2 _ _ Hlt) as [t ->].
    exists s1, i, j, de, true. split; [reflexivity|]. split; [exact W1|].
    split; [exact S1|]. split; [split; eauto|].
    intros k. rewrite Ht1. split; [auto|]. intros [H| ->]; [exact H|].
    rewrite <- Ht1, Hj. eauto.
  - eexists _, i, _, de, false. split; [reflexivity|].
    set (ptr := MDTableMeta.mk _ _ _ _ _ _ _ _).
    set (grow := fun d0 => set_Tables (MDDatabaseMeta.Tables d0 ++ [ptr]) d0).
    assert (Hgrow : forall d0, db_le d0 (grow d0)).
    { intros d0. unfold grow, db_le. simpl. rewrite length_app. simpl.
      repeat split; auto. lia. }
    assert (Hle : dbs_le (dbs (loader s1)) (alter grow i (dbs (loader s1))))
      by (apply dbs_le_alter, Hgrow).
    split; [split|split; [|split]].
    + intros name i0. simpl. intros H.
      destruct (proj1 W1 _ _ H) as (d0 & Hd0 & Hn0).
      destruct (Hle _ _ Hd0) as (d' & Hd' & (Hn' & _)).
      exists d'. split; [exact Hd'|congruence].
    + intros key j0. simpl.
      destruct (decide (table_key (TableName f) = key)) as [<-|Hne].
      * rewrite lookup_insert_eq. intros [= <-].
        exists i, (grow d). split; [exact Hi|].
        split; [rewrite list_lookup_alter_eq, Hd; reflexivity|].
        unfold grow. simpl. rewrite length_app. simpl. lia.
      * rewrite lookup_insert_ne by exact Hne. intros H.
        rewrite <- Ht1 in H.
        destruct (proj2 W1 _ _ H) as (i0 & d0 & Hk & Hd0 & Hlt).
        destruct (Hle _ _ Hd0) as (d' & Hd' & (_ & _ & Hlen)).
        exists i0, d'. split; [exact Hk|]. split; [exact Hd'|lia].
    + eapply step_trans; [exact S1|].
      unfold step. simpl. repeat split; auto.
    + split; [discriminate|]. intros [x Hx]. discriminate.
    + intros k. simpl. rewrite lookup_insert_is_Some'. split.
      * intros [<-|H]; auto.
      * intros [H| ->]; auto.
Qed.

Lemma has_view_le l l' name m : dbs_le l l' -> has_view l name m -> has_view l' name m.
Proof.
  intros Hle (d & [i Hi]%list_elem_of_lookup & Hn & Hm).
  destruct (Hle _ _ Hi) as (d' & Hd' & (Hn' & Hv & _)).
  exists d'. split; [eapply list_elem_of_lookup_2, Hd'|]. split; [congruence|auto].
Qed.

(** [insertView] does not panic; it reports whether the table key is in the
    index map, and in that case appends the view to the database of the
    view's schema name. *)
Lemma insertView_spec v s :
  indexes_valid s ->
  exists s' de te,
    insertView v s = Ret s' (de, te) /\ indexes_valid s' /\ step s s' /\
    tableIndexMap s' = tableIndexMap s /\
    (te = true <-> is_Some (tableIndexMap s !! table_key (TableName v))) /\
    (te = true ->
     has_view (dbs (loader s')) (schema_of v) (view_meta (charSet (loader s)) v)).
Proof.
  intros W. unfold insertView. unfold_M.
  destruct (insertDB_spec (dbFileInfo v) s W)
    as (s1 & i & de & -> & W1 & S1 & Ht1 & Hi & _).
  change (schema_of (dbFileInfo v)) with (schema_of v) in Hi.
  destruct (proj1 W1 _ _ Hi) as (d & Hd & Hn). rewrite Ht1.
  destruct (tableIndexMap s !! table_key (TableName v)) as [j|] eqn:Hj.
  - eexists _, de, true. split; [reflexivity|].
    set (meta := MDTableMeta.mk _ _ _ _ _ _ _ _).
    set (add := fun d0 => set_Views (MDDatabaseMeta.Views d0 ++ [meta]) d0).
    assert (Hadd : forall d0, db_le d0 (add d0)).
    { intros d0. unfold add, db_le. simpl. repeat split; auto.
      intros m Hm. apply elem_of_app. left. exact Hm. }
    assert (Hle : dbs_le (dbs (loader s1)) (alter add i (dbs (loader s1))))
      by (apply dbs_le_alter, Hadd).
    split; [|split; [|split; [|split]]].
    + eapply (indexes_valid_le s1); [exact W1|exact Hle|reflexivity|reflexivity].
    + eapply step_trans; [exact S1|]. unfold step. simpl. repeat split; auto.
    + simpl. exact Ht1.
    + split; eauto.
    + intros _. exists (add d). simpl. split; [|split].
      * eapply list_elem_of_lookup_2. rewrite list_lookup_alter_eq, Hd. reflexivity.
      * exact Hn.
      * apply elem_of_app. right. apply list_elem_of_singleton.
        unfold meta, view_meta. destruct S1 as (_ & _ & _ & _ & _ & -> & _). reflexivity.
  - exists s1, de, false. split; [reflexivity|]. split; [exact W1|].
    split; [exact S1|]. split; [exact Ht1|]. split.
    + split; [discriminate|]. intros [x Hx]. discriminate.
    + discriminate.
Qed.

Lemma assemble_stages s :
  assemble s = (_ ← assemble_schemas; _ ← assemble_views; assemble_datas) s.
Proof.
  unfold assemble, assemble_schemas, assemble_views, assemble_datas. unfold_M.
  destruct (for_range setup_dbSchema 0 (elems (dbSchemas s)) s) as [s1 []|s1 e|?];
    reflexivity.
Qed.

(** The database-schema loop: no panic; the table index map is untouched. *)
Lemma dbSchema_loop l : forall i s,
  indexes_valid s ->
  match for_range setup_dbSchema i l s with
  | Ret s' _ => indexes_valid s' /\ step s s' /\ tableIndexMap s' = tableIndexMap s
  | Fail _ e => invalid_schema_file e
  | Crash _ => False
  end.
Proof.
  induction l as [|x l IH]; intros i s W; simpl.
  - unfold_M. auto using step_refl.
  - unfold_M. unfold setup_dbSchema at 1. unfold_M.
    destruct (insertDB_spec x s W) as (s1 & j & b & -> & W1 & S1 & Ht1 & _).
    destruct (b && router_is_nil s1).
    + eexists. reflexivity.
    + specialize (IH (S i) s1 W1).
      destruct (for_range setup_dbSchema (S i) l s1) as [s2 []|s2 e|?]; auto.
      destruct IH as (W2 & S2 & Ht2).
      split; [exact W2|]. split; [eapply step_trans; eassumption|congruence].
Qed.

(** The table-schema loop: no panic; the table index map gains exactly the
    keys of the files. *)
Lemma tableSchema_loop l : forall i s,
  indexes_valid s ->
  match for_range setup_tableSchema i l s with
  | Ret s' _ =>
      indexes_valid s' /\ step s s' /\
      forall k, is_Some (tableIndexMap s' !! k)
                <-> is_Some (tableIndexMap s !! k) \/ k ∈ map key_of l
  | Fail _ e => invalid_schema_file e
  | Crash _ => False
  end.
Proof.
  induction l as [|x l IH]; intros i s W; simpl.
  - unfold_M. split; [exact W|]. split; [apply step_refl|].
    intros k. split; [auto|]. intros [H|H]; [exact H|inversion H].
  - unfold_M. unfold setup_tableSchema at 1. unfold_M.
    destruct (insertTable_spec x s W) as (s1 & a & j & de & te & -> & W1 & S1 & _ & Hdom).
    destruct (te && router_is_nil s1).
    + eexists. reflexivity.
    + specialize (IH (S i) s1 W1).
      destruct (for_range setup_tableSchema (S i) l s1) as [s2 []|s2 e|?]; auto.
      destruct IH as (W2 & S2 & Hdom2).
      split; [exact W2|]. split; [eapply step_trans; eassumption|].
      intros k. rewrite Hdom2, Hdom, elem_of_cons. fold (key_of x). tauto.
Qed.

(** The view-schema loop when every view's table key is indexed. *)
Lemma viewSchema_loop_ok l : forall i s,
  indexes_valid s ->
  (forall v, v ∈ l -> is_Some (tableIndexMap s !! key_of v)) ->
  exists s',
    for_range setup_viewSchema i l s = Ret s' tt /\ indexes_valid s' /\ step s s' /\
    tableIndexMap s' = tableIndexMap s /\
    forall v, v ∈ l -> has_view (dbs (loader s')) (schema_of v)
                                (view_meta (charSet (loader s)) v).
Proof.
  induction l as [|x l IH]; intros i s W Hreg; simpl.
  - exists s. unfold_M. split; [reflexivity|]. split; [exact W|].
    split; [apply step_refl|]. split; [reflexivity|]. intros v Hv. inversion Hv.
  - unfold_M. unfold setup_viewSchema at 1. unfold_M.
    destruct (insertView_spec x s W) as (s1 & de & te & -> & W1 & S1 & Ht1 & Hte & Hview).
    assert (te = true) as -> by (apply Hte, Hreg; left). simpl.
    destruct (IH (S i) s1 W1) as (s2 & -> & W2 & S2 & Ht2 & Hviews).
    { intros v Hv. rewrite Ht1. apply Hreg. right. exact Hv. }
    exists s2. split; [reflexivity|]. split; [exact W2|].
    split; [eapply step_trans; eassumption|]. split; [congruence|].
    assert (Hcs : charSet (loader s1) = charSet (loader s))
      by (destruct S1 as (_ & _ & _ & _ & _ & H & _); exact H).
    intros v [->|Hv]%elem_of_cons.
    + eapply has_view_le; [|apply Hview; reflexivity].
      destruct S2 as (_ & _ & _ & _ & _ & _ & H & _). exact H.
    + rewrite <- Hcs. apply Hviews, Hv.
Qed.

(** The view-schema loop fails at the first view whose table key is not
    indexed, with the error that names the view. *)
Lemma viewSchema_loop_orphan l1 : forall i s v l2,
  indexes_valid s ->
  (forall u, u ∈ l1 -> is_Some (tableIndexMap s !! key_of u)) ->
  tableIndexMap s !! key_of v = None ->
  exists s',
    for_range setup_viewSchema i (l1 ++ v :: l2) s
    = Fail s' (Normalized ErrInvalidSchemaFile
                 ("invalid view schema file, miss host table schema for view '"
                    ++ filter.Name (TableName v) ++ "'")).
Proof.
  induction l1 as [|x l1 IH]; intros i s v l2 W Hreg Hv; simpl.
  - unfold_M. unfold setup_viewSchema at 1. unfold_M.
    destruct (insertView_spec v s W) as (s1 & de & te & -> & W1 & S1 & Ht1 & Hte & _).
    destruct te.
    + destruct (proj1 Hte eq_refl) as [j Hj]. unfold key_of in Hv. congruence.
    + simpl. eauto.
  - unfold_M. unfold setup_viewSchema at 1. unfold_M.
    destruct (insertView_spec x s W) as (s1 & de & te & -> & W1 & S1 & Ht1 & Hte & _).
    assert (te = true) as -> by (apply Hte, Hreg; left). simpl.
    apply IH; [exact W1| |rewrite Ht1; exact Hv].
    intros u Hu. rewrite Ht1. apply Hreg. right. exact Hu.
Qed.

Lemma db_le_add_DataFile fileInfo j d :
  db_le d (set_Tables (alter (add_DataFile fileInfo) j (MDDatabaseMeta.Tables d)) d).
Proof.
  unfold db_le. simpl. rewrite length_alter. repeat split; auto.
Qed.

(** The data-file loop never fails and never panics. *)
Lemma tableData_loop l : forall i s,
  indexes_valid s ->
  exists s', for_range setup_tableData i l s = Ret s' tt /\ indexes_valid s' /\ step s s'.
Proof.
  induction l as [|x l IH]; intros i s W; simpl.
  - exists s. unfold_M. auto using step_refl.
  - unfold_M. unfold setup_tableData at 1. unfold_M.
    destruct (insertTable_spec (mkFileInfo (TableName x) zeroFileMeta) s W)
      as (s1 & a & j & de & te & -> & W1 & S1 & _).
    unfold update_db. unfold_M.
    set (s2 := set_loader s1 _).
    assert (Hle : dbs_le (dbs (loader s1)) (dbs (loader s2))).
    { unfold s2. simpl. apply dbs_le_alter. intros d. apply db_le_add_DataFile. }
    assert (W2 : indexes_valid s2)
      by (eapply (indexes_valid_le s1); [exact W1|exact Hle|reflexivity|reflexivity]).
    destruct (IH (S i) s2 W2) as (s3 & -> & W3 & S3).
    exists s3. split; [reflexivity|]. split; [exact W3|].
    eapply step_trans; [exact S1|]. eapply step_trans; [|exact S3].
    unfold step, s2. simpl. repeat split; auto.
Qed.

Lemma untouched_refl s : untouched s s.
Proof. repeat split. Qed.

Lemma untouched_trans s1 s2 s3 : untouched s1 s2 -> untouched s2 s3 -> untouched s1 s3.
Proof. unfold untouched. intros (A & B & C & D) (A' & B' & C' & D'). repeat split; congruence. Qed.

Lemma fresh_indexes_valid s : fresh s -> indexes_valid s.
Proof.
  intros (Hd & Ht & _). split.
  - intros name i. rewrite Hd, lookup_empty. discriminate.
  - intros key j. rewrite Ht, lookup_empty. discriminate.
Qed.

Lemma fresh_untouched s s' : untouched s s' -> fresh s -> fresh s'.
Proof. intros (A & B & C & _) (Hd & Ht & Hl). repeat split; congruence. Qed.

(** The first element of a list that fails a decidable test. *)
Lemma first_failing {A} (P : A -> Prop) `{forall x, Decision (P x)} (l : list A) :
  (forall x, x ∈ l -> P x) \/
  (exists l1 x l2, l = l1 ++ x :: l2 /\ (forall y, y ∈ l1 -> P y) /\ ~ P x).
Proof.
  induction l as [|a l [IH|(l1 & x & l2 & -> & H1 & Hx)]].
  - left. intros x Hx. inversion Hx.
  - destruct (decide (P a)) as [Ha|Ha].
    + left. intros x [->|Hx]%elem_of_cons; auto.
    + right. exists [], a, l. split; [reflexivity|]. split; [|exact Ha].
      intros y Hy. inversion Hy.
  - destruct (decide (P a)) as [Ha|Ha].
    + right. exists (a :: l1), x, l2. split; [reflexivity|]. split; [|exact Hx].
      intros y [->|Hy]%elem_of_cons; auto.
    + right. exists [], a, (l1 ++ x :: l2). split; [reflexivity|]. split; [|exact Ha].
      intros y Hy. inversion Hy.
Qed.

Section Assembly.

Variable growslice : nat -> nat.
Variable Table_String : filter.Table -> string.

Lemma listFiles_visit_untouched path size s c s' c' err :
  listFiles_visit growslice path size (s, c) = ((s', c'), err) -> untouched s s'.
Proof.
  unfold listFiles_visit.
  destruct (_ && _); [intros [= <- _ _]; apply untouched_refl|].
  destruct (fileRouter (loader s) path) as [e|[res|]];
    try (intros [= <- _ _]; apply untouched_refl).
  destruct (shouldSkip _ _); [intros [= <- _ _]; apply untouched_refl|].
  intros [= <- _ _]. destruct (res_Type res); repeat split.
Qed.

Lemma WalkDir_untouched entries failure : forall s c s' c' err,
  WalkDir entries failure (listFiles_visit growslice) (s, c) = ((s', c'), err) ->
  untouched s s'.
Proof.
  induction entries as [|[path size] entries IH]; intros s c s' c' err; cbn [WalkDir].
  - intros [= <- _ _]. apply untouched_refl.
  - destruct (listFiles_visit growslice path size (s, c)) as [[s1 c1] [e|]] eqn:Hv.
    + intros [= <- _ _]. eapply listFiles_visit_untouched, Hv.
    + intros H. eapply untouched_trans; [eapply listFiles_visit_untouched, Hv|].
      eapply IH, H.
Qed.

Lemma listFiles_untouched st s s' err :
  listFiles growslice st s = (s', err) -> untouched s s'.
Proof.
  unfold listFiles.
  destruct (WalkDir _ _ _ _) as [[s1 c1] e] eqn:Hw. intros [= <- _].
  eapply WalkDir_untouched, Hw.
Qed.

Lemma route_pass_untouched r b s known :
  match route_pass growslice r b (s, known) with
  | Ret (s', _) _ | Fail (s', _) _ => untouched s s'
  | Crash _ => True
  end.
Proof.
  unfold route_pass. destruct (runRoute _ _ _) as [st' []|st' e|?]; auto;
    destruct b; repeat split.
Qed.

Lemma route_rewrite_untouched r s known s' known' :
  route_rewrite growslice r (s, known) = Ret (s', known') tt -> untouched s s'.
Proof.
  unfold route_rewrite. unfold_M.
  pose proof (route_pass_untouched r DbSchemas s known) as H1.
  destruct (route_pass growslice r DbSchemas (s, known)) as [[s1 k1] []|? ?|?]; try discriminate.
  pose proof (route_pass_untouched r TableSchemas s1 k1) as H2.
  destruct (route_pass growslice r TableSchemas (s1, k1)) as [[s2 k2] []|? ?|?]; try discriminate.
  pose proof (route_pass_untouched r ViewSchemas s2 k2) as H3.
  destruct (route_pass growslice r ViewSchemas (s2, k2)) as [[s3 k3] []|? ?|?]; try discriminate.
  pose proof (route_pass_untouched r TableDatas s3 k3) as H4.
  intros H. rewrite H in H4.
  eauto using untouched_trans.
Qed.

Lemma route_untouched s s' :
  route growslice Table_String s = Ret s' tt -> untouched s s'.
Proof.
  unfold route. destruct (router (loader s)) as [r|].
  2:{ intros [= <-]. apply untouched_refl. }
  destruct (count_files _ _) as [known []|? ?|?]; try discriminate.
  destruct (route_rewrite growslice r (s, known)) as [[s1 known1] []|[s1 known1] ?|?] eqn:Hrw;
    try discriminate.
  destruct (for_range _ 0 _ _) as [rem []|? ?|?]; try discriminate.
  intros [= <-]. apply route_rewrite_untouched in Hrw.
  destruct Hrw as (A & B & C & D). repeat split; assumption.
Qed.

(** The schema loops on a fresh setup: the table index map holds exactly
    the keys of the table-schema files. *)
Lemma assemble_schemas_fresh s :
  fresh s ->
  match assemble_schemas s with
  | Ret s' _ =>
      indexes_valid s' /\ step s s' /\
      forall k, is_Some (tableIndexMap s' !! k) <-> k ∈ map key_of (elems (tableSchemas s))
  | Fail _ e => invalid_schema_file e
  | Crash _ => False
  end.
Proof.
  intros Hf. unfold assemble_schemas. unfold_M.
  pose proof (dbSchema_loop (elems (dbSchemas s)) 0 s (fresh_indexes_valid _ Hf)) as H1.
  destruct (for_range setup_dbSchema 0 _ s) as [s1 []|s1 e|?]; auto.
  destruct H1 as (W1 & S1 & Ht1).
  pose proof (tableSchema_loop (elems (tableSchemas s1)) 0 s1 W1) as H2.
  destruct (for_range setup_tableSchema 0 _ s1) as [s2 []|s2 e|?]; auto.
  destruct H2 as (W2 & S2 & Hdom).
  split; [exact W2|]. split; [eapply step_trans; eassumption|].
  intros k. rewrite Hdom, Ht1.
  destruct Hf as (_ & -> & _). rewrite lookup_empty.
  destruct S1 as (_ & -> & _). split; [|auto].
  intros [[x Hx]|H]; [discriminate|exact H].
Qed.

Lemma sort_db_le d : db_le d (sort_db d).
Proof.
  unfold db_le, sort_db. simpl. repeat split; auto.
  rewrite length_map.
  destruct (sort_Tables_spec (MDDatabaseMeta.Tables d)) as (HP & _).
  rewrite (Permutation_length HP). lia.
Qed.

Lemma sorted_dbs_le l : dbs_le l (map sort_db l).
Proof.
  intros i d H. exists (sort_db d). split; [|apply sort_db_le].
  change (map sort_db l) with (sort_db <$> l). rewrite list_lookup_fmap, H. reflexivity.
Qed.

(** Assembly of a fresh setup with an unregistered view fails at the first
    such view, unless a schema loop has failed before. *)
Lemma assemble_orphan s vs1 v vs2 :
  fresh s -> elems (viewSchemas s) = vs1 ++ v :: vs2 ->
  (forall u, u ∈ vs1 -> registered s u) -> ~ registered s v ->
  (exists s' e, assemble s = Fail s' e /\ invalid_schema_file e) /\
  (forall s1, assemble_schemas s = Ret s1 tt ->
     exists s', assemble s
       = Fail s' (Normalized ErrInvalidSchemaFile
                    ("invalid view schema file, miss host table schema for view '"
                       ++ filter.Name (TableName v) ++ "'"))).
Proof.
  intros Hf Hvs Hreg Hv.
  pose proof (assemble_schemas_fresh s Hf) as H1.
  assert (G : forall s1, assemble_schemas s = Ret s1 tt ->
     exists s', assemble s
       = Fail s' (Normalized ErrInvalidSchemaFile
                    ("invalid view schema file, miss host table schema for view '"
                       ++ filter.Name (TableName v) ++ "'"))).
  { intros s1 Hs1. rewrite Hs1 in H1. destruct H1 as (W1 & S1 & Hdom).
    rewrite assemble_stages. unfold_M. rewrite Hs1.
    unfold assemble_views. unfold_M.
    destruct S1 as (_ & _ & -> & _). rewrite Hvs.
    destruct (viewSchema_loop_orphan vs1 0 s1 v vs2 W1) as (s' & ->).
    - intros u Hu. apply Hdom, Hreg, Hu.
    - apply not_is_Some_None. intros H. apply Hv, Hdom, H.
    - eauto. }
  split; [|exact G].
  destruct (assemble_schemas s) as [s1 []|s1 e|?] eqn:Hs1.
  - destruct (G s1 eq_refl) as (s' & ->). eexists _, _. split; [reflexivity|].
    eexists. reflexivity.
  - rewrite assemble_stages. unfold_M. rewrite Hs1. eauto.
  - contradiction.
Qed.

(** A completed assembly of a fresh setup has every view registered and
    filed under its database. *)
Lemma assemble_views_filed s s' :
  fresh s -> assemble s = Ret s' tt ->
  forall v, v ∈ elems (viewSchemas s) ->
    registered s v /\
    has_view (dbs (loader s')) (schema_of v) (view_meta (charSet (loader s)) v).
Proof.
  intros Hf Ha.
  destruct (first_failing (registered s) (elems (viewSchemas s)))
    as [Hall|(vs1 & v0 & vs2 & Hvs & Hreg & Hv0)].
  2:{ destruct (assemble_orphan s vs1 v0 vs2 Hf Hvs Hreg Hv0) as ((sx & e & HF & _) & _).
      congruence. }
  pose proof (assemble_schemas_fresh s Hf) as H1.
  rewrite assemble_stages in Ha. unfold_M.
  destruct (assemble_schemas s) as [s1 []|s1 e|?]; try discriminate.
  destruct H1 as (W1 & S1 & Hdom).
  unfold assemble_views, assemble_datas in Ha. unfold_M.
  destruct (viewSchema_loop_ok (elems (viewSchemas s1)) 0 s1 W1)
    as (s2 & Hv & W2 & S2 & _ & Hviews).
  { intros v Hv. apply Hdom, Hall. destruct S1 as (_ & _ & <- & _). exact Hv. }
  rewrite Hv in Ha.
  destruct (tableData_loop (elems (tableDatas s2)) 0 s2 W2) as (s3 & Hd & W3 & S3).
  rewrite Hd in Ha. injection Ha as <-.
  intros v Hin. split; [apply Hall, Hin|].
  eapply has_view_le; [destruct S3 as (_ & _ & _ & _ & _ & _ & H & _); exact H|].
  destruct S1 as (_ & _ & E1 & _ & _ & E2 & _). rewrite <- E2. apply Hviews.
  rewrite E1. exact Hin.
Qed.

(** C6, as the code has it: views are assembled after the table-schema
    files and before the data files, so only a table-schema file registers
    a view's host table.  Once scanning and routing have passed, a load with
    a view-schema file whose (schema, table) pair no table-schema file has
    never yields a catalog: it fails with an invalid-schema-file error,
    which names the first such view when the schema loops pass.  A load that
    returns a catalog has every view registered and appended to the view
    list of the database of its schema name. *)
Theorem views_need_table_schema st f r fr cs opts s1 err s2 :
  listFiles growslice st (new_setup st f r fr cs opts) = (s1, err) ->
  scan_continues err ->
  route growslice Table_String s1 = Ret s2 tt ->
  ((exists v, v ∈ elems (viewSchemas s2) /\ ~ registered s2 v) ->
   exists e,
     NewMyDumpLoaderWithStore growslice Table_String st f r fr cs opts
       = Returned None (Some e) /\
     error_kind e = Some ErrInvalidSchemaFile)
  /\
  (forall s3 vs1 v vs2,
     assemble_schemas s2 = Ret s3 tt ->
     elems (viewSchemas s2) = vs1 ++ v :: vs2 ->
     (forall u, u ∈ vs1 -> registered s2 u) -> ~ registered s2 v ->
     NewMyDumpLoaderWithStore growslice Table_String st f r fr cs opts
     = Returned None
         (Some (Normalized ErrInvalidSchemaFile
                  ("invalid view schema file, miss host table schema for view '"
                     ++ filter.Name (TableName v) ++ "'"))))
  /\
  (forall mdl err',
     NewMyDumpLoaderWithStore growslice Table_String st f r fr cs opts
       = Returned (Some mdl) err' ->
     forall v, v ∈ elems (viewSchemas s2) ->
       registered s2 v /\ has_view (dbs mdl) (schema_of v) (view_meta cs v)).
Proof.
  intros HL HC HR.
  assert (Hu : untouched (new_setup st f r fr cs opts) s2).
  { eapply untouched_trans; [eapply listFiles_untouched, HL|eapply route_untouched, HR]. }
  assert (Hf : fresh s2) by (eapply fresh_untouched; [exact Hu|repeat split]).
  assert (Hcs : charSet (loader s2) = cs) by (destruct Hu as (-> & _); reflexivity).
  pose proof (fun s3 e => load_fails_in_assembly growslice Table_String
                st f r fr cs opts s1 err s2 s3 e HL HC HR) as Hfail.
  split; [|split].
  - intros (v & Hin & Hv).
    destruct (first_failing (registered s2) (elems (viewSchemas s2)))
      as [Hall|(vs1 & v0 & vs2 & Hvs & Hreg & Hv0)]; [exfalso; auto|].
    destruct (assemble_orphan s2 vs1 v0 vs2 Hf Hvs Hreg Hv0) as ((sx & e & HF & _) & _).
    destruct (Hfail _ _ HF) as [Hk Hload]. eauto.
  - intros s3 vs1 v vs2 Hs3 Hvs Hreg Hv.
    destruct (assemble_orphan s2 vs1 v vs2 Hf Hvs Hreg Hv) as (_ & G).
    destruct (G s3 Hs3) as (sx & HF).
    apply (Hfail _ _ HF).
  - intros mdl err' Hload v Hin.
    apply load_catalog in Hload as (s1' & s2' & s3' & HL' & _ & HR' & HA & ->).
    rewrite HL in HL'. injection HL' as <- <-. rewrite HR in HR'. injection HR' as <-.
    destruct (assemble_views_filed s2 s3' Hf HA v Hin) as [Hr Hv].
    split; [exact Hr|]. rewrite Hcs in Hv. simpl.
    eapply has_view_le; [apply sorted_dbs_le|exact Hv].
Qed.

End Assembly.

(** ** Duplicate schema files *)

Lemma insertDB_dom f s s' i b :
  insertDB f s = Ret s' (i, b) ->
  router (loader s') = router (loader s) /\
  (b = true <-> is_Some (dbIndexMap s !! schema_of f)) /\
  forall k, is_Some (dbIndexMap s' !! k) <-> is_Some (dbIndexMap s !! k) \/ k = schema_of f.
Proof.
  unfold insertDB. fold (schema_of f).
  destruct (dbIndexMap s !! schema_of f) as [j|] eqn:Hj.
  - destruct (dbs (loader s) !! j); [|discriminate]. intros [= <- <- <-].
    split; [reflexivity|]. split; [split; eauto|].
    intros k. split; [auto|]. intros [H| ->]; [exact H|rewrite Hj; eauto].
  - intros [= <- <- <-]. simpl. split; [reflexivity|].
    split; [split; [discriminate|intros [x Hx]; discriminate]|].
    intros k. rewrite lookup_insert_is_Some'. split; intros [H|H]; auto.
Qed.

(** With a router configured the schema loops raise no error: duplicates
    are let through. *)
Lemma dbSchema_loop_routed l : forall i s s' e,
  router_is_nil s = false -> for_range setup_dbSchema i l s <> Fail s' e.
Proof.
  induction l as [|x l IH]; intros i s s' e Hr; simpl; unfold_M; [discriminate|].
  unfold setup_dbSchema at 1. unfold_M.
  destruct (insertDB x s) as [s1 [j b]|s1 e1|?] eqn:Hi; try discriminate.
  - assert (Hr1 : router_is_nil s1 = false).
    { apply insertDB_dom in Hi as (Hrt & _). unfold router_is_nil in *. rewrite Hrt. exact Hr. }
    rewrite Hr1, andb_false_r. apply IH, Hr1.
  - exfalso. eapply (insertDB_fails (fun _ => False)), Hi.
Qed.

Lemma insertTable_router f s s' x :
  insertTable f s = Ret s' x -> router (loader s') = router (loader s).
Proof.
  unfold insertTable. unfold_M.
  destruct (insertDB (dbFileInfo f) s) as [s1 [i b]|?|?] eqn:Hi; try discriminate.
  apply insertDB_dom in Hi as (Hrt & _).
  destruct (dbs (loader s1) !! i); [|discriminate].
  destruct (tableIndexMap s1 !! table_key (TableName f)).
  - destruct (_ !! _); [|discriminate]. intros [= <- _]. exact Hrt.
  - intros [= <- _]. exact Hrt.
Qed.

Lemma tableSchema_loop_routed l : forall i s s' e,
  router_is_nil s = false -> for_range setup_tableSchema i l s <> Fail s' e.
Proof.
  induction l as [|x l IH]; intros i s s' e Hr; simpl; unfold_M; [discriminate|].
  unfold setup_tableSchema at 1. unfold_M.
  destruct (insertTable x s) as [s1 [[ij de] te]|s1 e1|?] eqn:Hi; try discriminate.
  - assert (Hr1 : router_is_nil s1 = false).
    { apply insertTable_router in Hi. unfold router_is_nil in *. rewrite Hi. exact Hr. }
    rewrite Hr1, andb_false_r. apply IH, Hr1.
  - exfalso. eapply (insertTable_fails (fun _ => False)), Hi.
Qed.

Lemma dbSchema_loop_router l : forall i s s',
  for_range setup_dbSchema i l s = Ret s' tt -> router (loader s') = router (loader s).
Proof.
  induction l as [|x l IH]; intros i s s'; simpl; unfold_M.
  - intros [= <-]. reflexivity.
  - unfold setup_dbSchema at 1. unfold_M.
    destruct (insertDB x s) as [s1 [j b]|?|?] eqn:Hi; try discriminate.
    apply insertDB_dom in Hi as (Hrt & _).
    destruct (b && router_is_nil s1); [discriminate|].
    intros H. rewrite (IH _ _ _ H). exact Hrt.
Qed.

(** With a router configured, assembly never fails for a duplicate
    database or table schema. *)
Lemma router_tolerates_duplicates s s' e :
  router_is_nil s = false -> assemble_schemas s <> Fail s' e.
Proof.
  intros Hr. unfold assemble_schemas. unfold_M.
  destruct (for_range setup_dbSchema 0 (elems (dbSchemas s)) s) as [s1 []|s1 e1|?] eqn:H1.
  - apply tableSchema_loop_routed.
    apply dbSchema_loop_router in H1. unfold router_is_nil in *. rewrite H1. exact Hr.
  - exfalso. eapply dbSchema_loop_routed; eassumption.
  - discriminate.
Qed.

(** Without a router, the database-schema loop on fresh index maps stops at
    the first file whose database name an earlier file already has. *)
Lemma dbSchema_loop_duplicate l1 : forall i s x l2,
  router_is_nil s = true -> indexes_valid s ->
  (forall k, is_Some (dbIndexMap s !! k) -> k ∉ map schema_of l1) ->
  NoDup (map schema_of l1) ->
  is_Some (dbIndexMap s !! schema_of x) \/ schema_of x ∈ map schema_of l1 ->
  exists s',
    for_range setup_dbSchema i (l1 ++ x :: l2) s
    = Fail s' (Normalized ErrInvalidSchemaFile
                 ("invalid database schema file, duplicated item - "
                    ++ Path (FileMeta x))).
Proof.
  induction l1 as [|y l1 IH]; intros i s x l2 Hr W Hnew Hnd Hx; simpl; unfold_M;
    unfold setup_dbSchema at 1; unfold_M.
  - destruct (insertDB_spec x s W) as (s1 & j & b & Hi & _ & S1 & _).
    rewrite Hi. apply insertDB_dom in Hi as (Hrt & Hb & _).
    assert (b = true) as ->.
    { apply Hb. destruct Hx as [Hx|Hx]; [exact Hx|inversion Hx]. }
    unfold router_is_nil in *. rewrite Hrt. rewrite Hr. simpl. eauto.
  - destruct (insertDB_spec y s W) as (s1 & j & b & Hi & W1 & S1 & _).
    rewrite Hi. apply insertDB_dom in Hi as (Hrt & Hb & Hdom).
    assert (b = false) as ->.
    { destruct b; [|reflexivity]. exfalso.
      eapply (Hnew (schema_of y)); [apply Hb; reflexivity|left]. }
    simpl. apply NoDup_cons in Hnd as [Hy Hnd].
    apply IH; auto.
    + unfold router_is_nil in *. rewrite Hrt. exact Hr.
    + intros k [Hk| ->]%Hdom; [|exact Hy].
      intros Hin. eapply Hnew; [exact Hk|right; exact Hin].
    + destruct Hx as [Hx|[->|Hx]%elem_of_cons].
      * left. apply Hdom. left. exact Hx.
      * left. apply Hdom. right. reflexivity.
      * right. exact Hx.
Qed.

(** Without a router, two database-schema files of one database name make
    the assembly fail with the duplicate error for the second file. *)
Lemma duplicate_database_schema_rejected s l1 x l2 :
  fresh s -> router_is_nil s = true ->
  elems (dbSchemas s) = l1 ++ x :: l2 ->
  NoDup (map schema_of l1) -> schema_of x ∈ map schema_of l1 ->
  exists s',
    assemble s
    = Fail s' (Normalized ErrInvalidSchemaFile
                 ("invalid database schema file, duplicated item - "
                    ++ Path (FileMeta x))).
Proof.
  intros Hf Hr Hl Hnd Hx.
  destruct (dbSchema_loop_duplicate l1 0 s x l2 Hr (fresh_indexes_valid _ Hf))
    as (s' & HF); auto.
  { intros k [d Hd]. destruct Hf as (E & _). rewrite E, lookup_empty in Hd. discriminate. }
  exists s'. unfold assemble. unfold_M. rewrite Hl, HF. reflexivity.
Qed.

(** Without a router, the table-schema loop stops at the first file whose
    (schema, table) pair an earlier file already has. *)
Lemma tableSchema_loop_duplicate l1 : forall i s x l2,
  router_is_nil s = true -> indexes_valid s ->
  (forall k, is_Some (tableIndexMap s !! k) -> k ∉ map key_of l1) ->
  NoDup (map key_of l1) ->
  is_Some (tableIndexMap s !! key_of x) \/ key_of x ∈ map key_of l1 ->
  exists s',
    for_range setup_tableSchema i (l1 ++ x :: l2) s
    = Fail s' (Normalized ErrInvalidSchemaFile
                 ("invalid table schema file, duplicated item - "
                    ++ Path (FileMeta x))).
Proof.
  induction l1 as [|y l1 IH]; intros i s x l2 Hr W Hnew Hnd Hx; simpl; unfold_M;
    unfold setup_tableSchema at 1; unfold_M.
  - destruct (insertTable_spec x s W) as (s1 & a & j & de & te & Hi & _ & _ & Hte & _).
    rewrite Hi. apply insertTable_router in Hi.
    assert (te = true) as ->.
    { apply Hte. destruct Hx as [Hx|Hx]; [exact Hx|inversion Hx]. }
    unfold router_is_nil in *. rewrite Hi, Hr. simpl. eauto.
  - destruct (insertTable_spec y s W) as (s1 & a & j & de & te & Hi & W1 & _ & Hte & Hdom).
    rewrite Hi. apply insertTable_router in Hi.
    assert (te = false) as ->.
    { destruct te; [|reflexivity]. exfalso.
      eapply (Hnew (key_of y)); [apply Hte; reflexivity|left]. }
    simpl. apply NoDup_cons in Hnd as [Hy Hnd].
    apply IH; auto.
    + unfold router_is_nil in *. rewrite Hi. exact Hr.
    + intros k [Hk| ->]%Hdom; [|exact Hy].
      intros Hin. eapply Hnew; [exact Hk|right; exact Hin].
    + destruct Hx as [Hx|[Hx|Hx]%elem_of_cons].
      * left. apply Hdom. left. exact Hx.
      * left. apply Hdom. right. exact Hx.
      * right. exact Hx.
Qed.

(** Without a router, two table-schema files of one (schema, table) pair
    make the assembly fail with the duplicate error for the second file,
    once the database-schema files have passed. *)
Lemma duplicate_table_schema_rejected s s1 l1 x l2 :
  fresh s -> router_is_nil s = true ->
  for_range setup_dbSchema 0 (elems (dbSchemas s)) s = Ret s1 tt ->
  elems (tableSchemas s) = l1 ++ x :: l2 ->
  NoDup (map key_of l1) -> key_of x ∈ map key_of l1 ->
  exists s',
    assemble s
    = Fail s' (Normalized ErrInvalidSchemaFile
                 ("invalid table schema file, duplicated item - "
                    ++ Path (FileMeta x))).
Proof.
  intros Hf Hr H1 Hl Hnd Hx.
  pose proof (dbSchema_loop (elems (dbSchemas s)) 0 s (fresh_indexes_valid _ Hf)) as G.
  rewrite H1 in G. destruct G as (W1 & S1 & Ht1).
  destruct (tableSchema_loop_duplicate l1 0 s1 x l2) as (s' & HF); auto.
  { apply dbSchema_loop_router in H1. unfold router_is_nil in *. rewrite H1. exact Hr. }
  { intros k [d Hd]. destruct Hf as (_ & E & _). rewrite Ht1, E, lookup_empty in Hd.
    discriminate. }
  exists s'. unfold assemble. unfold_M. rewrite H1.
  destruct S1 as (_ & -> & _). rewrite Hl, HF. reflexivity.
Qed.

(** * Concrete loads *)

(** ** C1 *)

(** The scenario of the specification loads, and its catalog is sorted. *)
Lemma catalog_sorted_witness :
  exists mdl,
    scenario_load = Returned (Some mdl) None /\
    forall db, db ∈ dbs mdl ->
      sorted_by (fun a b => (MDTableMeta.TotalSize a <= MDTableMeta.TotalSize b)%Z)
                (MDDatabaseMeta.Tables db) /\
      forall t, t ∈ MDDatabaseMeta.Tables db ->
        sorted_by (fun a b => String.leb (SortKey (FileMeta a)) (SortKey (FileMeta b)) = true)
                  (MDTableMeta.DataFiles t).
Proof.
  eexists. split.
  - vm_compute. reflexivity.
  - eapply (catalog_sorted double_cap quoted_name scenario_store match_all None
              (router_of_table scenario_rules) "utf8mb4" [] _ None).
    vm_compute. reflexivity.
Defined.

(** ** C7 *)

Lemma database_schema_default_witness :
  MDDatabaseMeta_GetSchema back_quote export_create (db1_meta "") scenario_store
    = "CREATE DATABASE IF NOT EXISTS `db1`" /\
  MDDatabaseMeta_GetSchema back_quote export_blank (db1_meta "db1-schema-create.sql")
                           scenario_store
    = "CREATE DATABASE IF NOT EXISTS `db1`" /\
  MDDatabaseMeta_GetSchema back_quote export_wide_blank (db1_meta "db1-schema-create.sql")
                           scenario_store
    = "CREATE DATABASE IF NOT EXISTS `db1`".
Proof.
  split; [|split].
  - apply (proj1 (database_schema_default back_quote export_create (db1_meta "")
                    scenario_store)).
    reflexivity.
  - apply (proj2 (database_schema_default back_quote export_blank
                    (db1_meta "db1-schema-create.sql") scenario_store)
                 (String (ascii_of_nat 32) (String (ascii_of_nat 10) ""))).
    + reflexivity.
    + reflexivity.
  - apply (proj2 (database_schema_default back_quote export_wide_blank
                    (db1_meta "db1-schema-create.sql") scenario_store)
                 wide_blank).
    + reflexivity.
    + vm_compute. reflexivity.
Defined.

(** White space of more than one byte is cut on both sides of a
    statement. *)
Lemma database_schema_trimmed :
  MDDatabaseMeta_GetSchema back_quote export_padded (db1_meta "db1-schema-create.sql")
                           scenario_store
  = "CREATE DATABASE `db1`;".
Proof. vm_compute. reflexivity. Qed.

(** ** C8 *)

Lemma table_schema_result_witness :
  MDTableMeta_GetSchema export_create (t1_meta "") scenario_store
    = ("", Some (Errorf "schema file is missing for the table 'db1.t1'")) /\
  MDTableMeta_GetSchema export_create (t1_meta "db1.t1-schema.sql") missing_store
    = ("", Some (Errorf "the provided schema file (db1.t1-schema.sql) for the table 'db1.t1' doesn't exist")) /\
  MDTableMeta_GetSchema export_blank (t1_meta "db1.t1-schema.sql") scenario_store
    = (String (ascii_of_nat 32) (String (ascii_of_nat 10) ""), None).
Proof.
  split; [|split].
  - apply (proj1 (table_schema_result export_create (t1_meta "") scenario_store)).
    reflexivity.
  - apply (proj1 (proj2 (table_schema_result export_create (t1_meta "db1.t1-schema.sql")
                           missing_store))).
    + discriminate.
    + reflexivity.
  - apply (proj2 (proj2 (table_schema_result export_blank (t1_meta "db1.t1-schema.sql")
                           scenario_store))).
    + discriminate.
    + reflexivity.
    + reflexivity.
Defined.

(** ** C9 *)



(** ** C3 *)

(** Entries the classifier declines count toward the ceiling.  With a
    ceiling of one, two unrecognised files abort the walk although no
    classified entry was seen; and a stray file in front of two classifiable
    ones leaves the returned buckets empty. *)
Lemma unclassified_entries_hit_the_ceiling :
  (List.filter (classified (loader stray_setup)) (walk_entries stray_store) = [] /\
   listFiles double_cap stray_store stray_setup = (stray_setup, Some TooManySourceFiles))
  /\
  (length (List.filter (classified (loader late_setup)) (walk_entries late_store)) = 2%nat /\
   MaxScanFiles (setupCfg late_setup) = 1%Z /\
   snd (listFiles double_cap late_store late_setup) = Some TooManySourceFiles /\
   bucket_total (fst (listFiles double_cap late_store late_setup)) = 0%nat).
Proof. vm_compute. repeat split. Qed.

Lemma scan_ceiling_witness :
  snd (listFiles double_cap scenario_store
         (new_setup scenario_store match_all None (router_of_table scenario_rules)
                    "utf8mb4" [WithMaxScanFiles 6]))
    = None /\
  exists s',
    listFiles double_cap late_store late_setup = (s', Some TooManySourceFiles) /\
    (bucket_total s' <= bucket_total late_setup + 1)%nat.
Proof.
  split.
  - apply (proj1 (scan_ceiling double_cap scenario_store
                    (new_setup scenario_store match_all None
                               (router_of_table scenario_rules) "utf8mb4"
                               [WithMaxScanFiles 6]) 6%Z eq_refl
                    ltac:(lia) ltac:(intros path size e _; discriminate))).
    simpl. lia.
  - destruct (proj2 (scan_ceiling double_cap late_store late_setup 1%Z eq_refl
                       ltac:(lia) ltac:(intros path size e _; discriminate)))
      as (s' & H1 & _ & H3).
    + simpl. lia.
    + exists s'. split; [exact H1|exact H3].
Defined.

(** ** C4 *)

(** The ceiling is exceeded, yet the load yields no catalog: the view
    scanned before the cut has lost its table-schema file, and the
    orphan-view error wins. *)
Lemma ceiling_exceeded_without_catalog :
  snd (listFiles double_cap cut_store cut_setup) = Some TooManySourceFiles /\
  cut_load
  = Returned None
      (Some (Normalized ErrInvalidSchemaFile
               "invalid view schema file, miss host table schema for view 'v'")).
Proof. vm_compute. split; reflexivity. Qed.

Lemma load_error_policy_witness :
  exists mdl,
    capped_scenario_load = Returned (Some mdl) (Some TooManySourceFiles) /\
    summary mdl = [("db1", [("t1", 500%Z, ["db1.t1.1.sql"])])].
Proof.
  pose proof (load_error_policy double_cap quoted_name scenario_store match_all None
                (router_of_table scenario_rules) "utf8mb4" [WithMaxScanFiles 3]
                _ _ (surjective_pairing _)) as (H & _).
  eexists. split.
  - eapply H.
    + vm_compute. reflexivity.
    + reflexivity.
    + vm_compute. reflexivity.
    + vm_compute. reflexivity.
  - vm_compute. reflexivity.
Defined.

(** ** C6 *)

(** A view whose host table is registered by a data file only is rejected
    all the same: the views are assembled before the data files. *)
Lemma view_over_data_only_table_rejected :
  (exists d,
     d ∈ elems (tableDatas (fst (listFiles double_cap dataonly_store
                                   (new_setup dataonly_store match_all None
                                      (router_of_table dataonly_rules) "utf8mb4" [])))) /\
     key_of d = ("db1", "v")) /\
  dataonly_load
  = Returned None
      (Some (Normalized ErrInvalidSchemaFile
               "invalid view schema file, miss host table schema for view 'v'")).
Proof.
  split.
  - eexists. split; [vm_compute; left|reflexivity].
  - vm_compute. reflexivity.
Qed.

Lemma views_need_table_schema_witness :
  exists mdl,
    view_load = Returned (Some mdl) None /\
    has_view (dbs mdl) "db1"
      (view_meta "utf8mb4"
         (mkFileInfo (filter.mkTable "db1" "t")
            (mkSourceFileMeta "db1.t-schema-view.sql" SourceTypeViewSchema 0%Z "" 10%Z))).
Proof.
  set (s0 := new_setup view_store match_all None (router_of_table view_rules) "utf8mb4" []).
  set (s1 := fst (listFiles double_cap view_store s0)).
  assert (HL : listFiles double_cap view_store s0 = (s1, None))
    by (vm_compute; reflexivity).
  assert (HR : route double_cap quoted_name s1 = Ret s1 tt)
    by (vm_compute; reflexivity).
  pose proof (views_need_table_schema double_cap quoted_name view_store match_all None
                (router_of_table view_rules) "utf8mb4" [] s1 None s1 HL I HR)
    as (_ & _ & H).
  assert (Hload : exists mdl, view_load = Returned (Some mdl) None)
    by (eexists; vm_compute; reflexivity).
  destruct Hload as [mdl Hload]. exists mdl. split; [exact Hload|].
  refine (proj2 (H mdl None Hload
                   (mkFileInfo (filter.mkTable "db1" "t")
                      (mkSourceFileMeta "db1.t-schema-view.sql" SourceTypeViewSchema
                                        0%Z "" 10%Z)) _)).
  vm_compute. left.
Defined.

(** ** C2 *)

(** A negative reference count and a failing routing rule end the load with
    errors of one and the same class. *)
Lemma negative_count_has_the_class_of_rule_failures :
  negative_load
  = Returned None
      (Some (Wrapped ErrTableRoute "table route error"
               (Normalized ErrTableRoute "something wrong happened when route `x`.``")))
  /\
  broken_rule_load
  = Returned None
      (Some (Wrapped ErrTableRoute "table route error"
               (Foreign "invalid capture group in the target pattern")))
  /\
  error_kind (Wrapped ErrTableRoute "table route error"
                (Normalized ErrTableRoute "something wrong happened when route `x`.``"))
  = error_kind (Wrapped ErrTableRoute "table route error"
                  (Foreign "invalid capture group in the target pattern")).
Proof. vm_compute. repeat split. Qed.

(** A negative count that no file of the bucket carries any more is not
    looked at: the count of [x] ends at -1 and the load succeeds. *)
Lemma negative_count_can_pass_unreported :
  final_count (fst (listFiles double_cap silent_store
                      (new_setup silent_store match_all (Some silent_router)
                                 (router_of_table silent_rules) "utf8mb4" [])))
              silent_router "x"
    = Some (-1)%Z /\
  summary_of silent_load = Some ([("d", [])], None).
Proof. vm_compute. split; reflexivity. Qed.

Lemma route_reference_counts_witness :
  (exists sx info,
     route double_cap quoted_name shifted_setup
     = Fail sx (Normalized ErrTableRoute
                  ("something wrong happened when route "
                     ++ quoted_name (TableName info)))) /\
  names_at_failure (route double_cap quoted_name shifted_setup)
  = ["b"; "b"; "x"; "x"; "n"].
Proof.
  split; [|vm_compute; reflexivity].
  set (known := match count_files shifted_setup
                        (base_counts (elems (dbSchemas shifted_setup))) with
                | Ret k _ => k
                | _ => ∅
                end).
  set (sk := match route_rewrite double_cap shifted_router (shifted_setup, known) with
             | Ret sk _ => sk
             | _ => (shifted_setup, known)
             end).
  destruct (route_reference_counts double_cap quoted_name shifted_setup shifted_router
              known (fst sk) (snd sk)) as (_ & H & _).
  - reflexivity.
  - vm_compute. reflexivity.
  - vm_compute. reflexivity.
  - destruct H as (before & info & after & _ & _ & _ & HF).
    + exists (mkFileInfo (filter.mkTable "x" "")
                (mkSourceFileMeta "p/x-schema-create.sql" SourceTypeSchemaSchema 0%Z "" 10%Z)).
      split; [vm_compute; do 2 right; left|vm_compute; reflexivity].
    + eexists _, info. exact HF.
Defined.

(** ** C10 *)

Lemma route_needs_database_schemas_witness :
  route double_cap quoted_name bare_setup = Crash nil_deref /\
  forall reason, route double_cap quoted_name negative_setup <> Crash reason.
Proof.
  split.
  - apply (proj1 (route_needs_database_schemas double_cap quoted_name bare_setup
                    (rename_databases []) eq_refl)).
    exists (mkFileInfo (filter.mkTable "db1" "t1")
              (mkSourceFileMeta "db1.t1-schema.sql" SourceTypeTableSchema 0%Z "" 60%Z)).
    split.
    + vm_compute. left.
    + intros d Hd. vm_compute in Hd. inversion Hd.
  - apply (proj2 (route_needs_database_schemas double_cap quoted_name negative_setup
                    negative_router eq_refl)).
    intros info Hin. vm_compute in Hin. inversion Hin.
Defined.

(** ** C5 *)

(** C5, where the code goes wrong.  With a router configured, the
    database-schema files of [a] and [b] are both routed to [c], while the
    three files of [c] itself go to [d]: the load succeeds, but its catalog
    has the single database [d] and no database [c] at all.  And two
    database-schema files of one database [a], both routed to [c], do not
    load: the pass reports its own bookkeeping as broken.  Both come from
    the reference count of a database name being set to one for each of its
    database-schema files instead of being counted up. *)
Theorem routed_database_schemas_miscounted :
  summary_of merge_load = Some ([("d", [])], None) /\
  twin_load
  = Returned None
      (Some (Wrapped ErrTableRoute "table route error"
               (Normalized ErrTableRoute "something wrong happened when route `a`.``"))).
Proof. vm_compute. split; reflexivity. Qed.

(** * Further properties *)

(** ** Scanner *)

Section ScannerSpec.

Variable growslice : nat -> nat.

Lemma scanned_app b l e1 e2 :
  scanned b l (e1 ++ e2) = scanned b l e1 ++ scanned b l e2.
Proof. unfold scanned. apply omap_app. Qed.

Lemma scanned_cons b l e es :
  scanned b l (e :: es) = scanned b l [e] ++ scanned b l es.
Proof. apply (scanned_app b l [e] es). Qed.

(** One visit on which the ceiling does not fire and the file router raises
    no error files the entry under its bucket, or nowhere. *)
Lemma listFiles_visit_spec path size s c :
  below_ceiling s c 1 ->
  (forall e, fileRouter (loader s) path <> inl e) ->
  exists s',
    listFiles_visit growslice path size (s, c) = ((s', int64_add c 1), None) /\
    untouched s s' /\
    forall b, elems (bucket_of b s')
              = elems (bucket_of b s) ++ scanned b (loader s) [(path, size)].
Proof.
  intros Hc Hr. unfold listFiles_visit.
  assert (Hno : ((MaxScanFiles (setupCfg s) >? 0)
                 && (int64_add c 1 >? MaxScanFiles (setupCfg s)))%Z = false).
  { destruct Hc as [Hc|(H0 & Hk & Hb)].
    - rewrite Z_gtb_false by lia. reflexivity.
    - rewrite int64_add_small by lia. rewrite (Z_gtb_false (c + 1)) by lia.
      apply andb_false_r. }
  rewrite Hno. unfold scanned, classify_entry. cbn [omap list_omap fst snd].
  destruct (fileRouter (loader s) path) as [e|[res|]] eqn:E.
  - exfalso. eapply Hr. reflexivity.
  - cbn [TableName]. destruct (shouldSkip _ _).
    + exists s. split; [reflexivity|]. split; [apply untouched_refl|].
      intros b. rewrite app_nil_r. reflexivity.
    + eexists. split; [reflexivity|].
      cbn [FileMeta Type_].
      destruct (res_Type res); (split; [repeat split|]); intros b; destruct b;
        cbn; rewrite ?elems_append, ?app_nil_r; reflexivity.
  - exists s. split; [reflexivity|]. split; [apply untouched_refl|].
    intros b. rewrite app_nil_r. reflexivity.
Qed.

(** A walk on which the ceiling does not fire and the file router raises no
    error visits every entry and ends with the walk's own result. *)
Lemma WalkDir_spec entries : forall s c,
  below_ceiling s c (length entries) ->
  (forall path size e, (path, size) ∈ entries -> fileRouter (loader s) path <> inl e) ->
  exists s' c',
    (forall failure,
       WalkDir entries failure (listFiles_visit growslice) (s, c) = ((s', c'), failure)) /\
    untouched s s' /\
    (forall b, elems (bucket_of b s')
               = elems (bucket_of b s) ++ scanned b (loader s) entries) /\
    ((0 < MaxScanFiles (setupCfg s))%Z -> c' = (c + Z.of_nat (length entries))%Z).
Proof.
  induction entries as [|[path size] entries IH]; intros s c Hc Hr.
  - exists s, c. split; [reflexivity|]. split; [apply untouched_refl|].
    split; [intros b; rewrite app_nil_r; reflexivity|]. simpl. lia.
  - destruct (listFiles_visit_spec path size s c) as (s1 & Hv & Hu & Hb).
    { destruct Hc as [Hc|Hc]; [left; exact Hc|right; simpl length in Hc; lia]. }
    { intros e. eapply Hr. left. }
    assert (Hcfg : setupCfg s1 = setupCfg s) by apply Hu.
    assert (Hl : loader s1 = loader s) by apply Hu.
    destruct (IH s1 (int64_add c 1)) as (s' & c' & Hw & Hu' & Hb' & Hc').
    { unfold below_ceiling in *. rewrite Hcfg.
      destruct Hc as [Hc|Hc]; [left; exact Hc|right].
      simpl length in Hc. rewrite int64_add_small by lia. lia. }
    { intros p sz e Hin. rewrite Hl. eapply Hr. right. exact Hin. }
    exists s', c'. split; [|split; [|split]].
    + intros failure. cbn [WalkDir]. rewrite Hv. apply Hw.
    + eapply untouched_trans; eassumption.
    + intros b. rewrite Hb', Hb, Hl, <- app_assoc, <- scanned_cons. reflexivity.
    + intros Hpos. rewrite Hc' by (rewrite Hcfg; exact Hpos).
      destruct Hc as [Hc|Hc]; [lia|]. simpl length in *.
      rewrite int64_add_small by lia. lia.
Qed.

(** X1: what a scan leaves in the buckets.  When the file router raises no
    error, each bucket gains exactly the entries of its kind that the
    router recognises and the filter accepts, in walk order, taken from the
    entries the visitor gets to see: all of them, or the first
    [MaxScanFiles] when that ceiling is positive and exceeded.  The scan
    reports the too-many-source-files error in the second case and the
    walk's own result otherwise. *)
Theorem scan_buckets (st : ExternalStorage) (s : mdLoaderSetup) :
  (MaxScanFiles (setupCfg s) < 2 ^ 63 - 1)%Z ->
  (forall path size e,
     (path, size) ∈ walk_entries st -> fileRouter (loader s) path <> inl e) ->
  exists s',
    listFiles growslice st s
    = (s', if over_ceiling s (walk_entries st) then Some TooManySourceFiles
           else walk_failure st) /\
    untouched s s' /\
    forall b, elems (bucket_of b s')
              = elems (bucket_of b s) ++ scanned b (loader s) (visited s (walk_entries st)).
Proof.
  intros HK Hr. unfold listFiles, visited.
  destruct (over_ceiling s (walk_entries st)) eqn:Hover.
  - apply andb_true_iff in Hover as [Hpos Hlen].
    apply Z.ltb_lt in Hpos, Hlen.
    set (n := Z.to_nat (MaxScanFiles (setupCfg s))).
    assert (Hn : (n < length (walk_entries st))%nat) by lia.
    pose proof (take_drop n (walk_entries st)) as HE.
    destruct (drop n (walk_entries st)) as [|[p sz] rest] eqn:Hd.
    { apply (f_equal length) in Hd. rewrite length_drop in Hd. simpl in Hd. lia. }
    assert (Htake : length (take n (walk_entries st)) = n) by (rewrite length_take; lia).
    destruct (WalkDir_spec (take n (walk_entries st)) s 0%Z) as (s' & c' & Hw & Hu & Hb & Hc').
    { right. lia. }
    { intros path size e Hin. eapply Hr, subseteq_take. exact Hin. }
    exists s'.
    replace (WalkDir (walk_entries st) (walk_failure st)
                     (listFiles_visit growslice) (s, 0%Z))
      with (WalkDir (take n (walk_entries st) ++ (p, sz) :: rest) (walk_failure st)
                    (listFiles_visit growslice) (s, 0%Z))
      by (rewrite HE; reflexivity).
    rewrite WalkDir_app, Hw. cbn [WalkDir].
    rewrite Hc' by lia.
    assert (Hcfg : setupCfg s' = setupCfg s) by apply Hu.
    rewrite listFiles_visit_above by (rewrite ?Hcfg; lia).
    split; [reflexivity|]. split; [exact Hu|exact Hb].
  - destruct (WalkDir_spec (walk_entries st) s 0%Z) as (s' & c' & Hw & Hu & Hb & _).
    { apply andb_false_iff in Hover as [H|H]; apply Z.ltb_ge in H; [left; exact H|right; lia]. }
    { exact Hr. }
    exists s'. rewrite Hw. auto.
Qed.

(** One visit, whatever its outcome, leaves each bucket as it was or adds
    one file of the bucket's kind that passed the filter. *)
Lemma listFiles_visit_adds path size s c s' c' err b :
  listFiles_visit growslice path size (s, c) = ((s', c'), err) ->
  untouched s s' /\
  (elems (bucket_of b s') = elems (bucket_of b s) \/
   exists info, elems (bucket_of b s') = elems (bucket_of b s) ++ [info] /\
                scanned_file b (loader s) [(path, size)] info).
Proof.
  unfold listFiles_visit.
  destruct (_ && _); [intros [= <- _ _]; split; [apply untouched_refl|left; reflexivity]|].
  destruct (fileRouter (loader s) path) as [e|[res|]];
    try (intros [= <- _ _]; split; [apply untouched_refl|left; reflexivity]).
  destruct (shouldSkip _ _) eqn:Hskip;
    [intros [= <- _ _]; split; [apply untouched_refl|left; reflexivity]|].
  intros [= <- _ _]. split; [destruct (res_Type res); repeat split|].
  destruct (res_Type res) eqn:Ht, b; cbn; rewrite ?elems_append; auto;
    right; eexists; (split; [reflexivity|]);
    unfold scanned_file; cbn; rewrite ?Ht; (split; [reflexivity|]);
    (split; [exact Hskip|left]).
Qed.

Lemma scanned_file_mono b l e1 e2 info :
  e1 ⊆ e2 -> scanned_file b l e1 info -> scanned_file b l e2 info.
Proof. intros Hsub (H1 & H2 & H3). repeat split; auto. Qed.

Lemma WalkDir_adds entries failure b : forall s c s' c' err,
  WalkDir entries failure (listFiles_visit growslice) (s, c) = ((s', c'), err) ->
  forall info, info ∈ elems (bucket_of b s') ->
    info ∈ elems (bucket_of b s) \/ scanned_file b (loader s) entries info.
Proof.
  induction entries as [|[path size] entries IH]; intros s c s' c' err; cbn [WalkDir].
  - intros [= <- _ _] info Hin. left. exact Hin.
  - destruct (listFiles_visit growslice path size (s, c)) as [[s1 c1] o] eqn:Hv.
    destruct (listFiles_visit_adds _ _ _ _ _ _ _ b Hv) as [Hu Hadd].
    assert (Hl : loader s1 = loader s) by apply Hu.
    assert (Hone : forall info, info ∈ elems (bucket_of b s1) ->
              info ∈ elems (bucket_of b s)
              \/ scanned_file b (loader s) ((path, size) :: entries) info).
    { destruct Hadd as [->|(x & -> & Hx)]; intros info Hin; [left; exact Hin|].
      apply elem_of_app in Hin as [Hin| ->%list_elem_of_singleton]; [left; exact Hin|].
      right. eapply scanned_file_mono; [|exact Hx].
      intros y ->%list_elem_of_singleton. left. }
    destruct o as [e|].
    + intros [= <- _ _]. exact Hone.
    + intros Hw info Hin.
      destruct (IH _ _ _ _ _ Hw info Hin) as [H|H]; [apply Hone, H|].
      right. rewrite <- Hl. eapply scanned_file_mono; [|exact H].
      intros y Hy. right. exact Hy.
Qed.

(** X2: whatever the outcome of the scan (complete, cut by the ceiling, or
    stopped by an error), a file that the scan has put into a bucket is of
    that bucket's source type, was accepted by the filter, and carries the
    path and the size of a walked entry. *)
Theorem scan_files_accepted (st : ExternalStorage) (s : mdLoaderSetup)
    (b : bucket) (info : FileInfo) :
  info ∈ elems (bucket_of b (fst (listFiles growslice st s))) ->
  info ∈ elems (bucket_of b s) \/
  (bucket_kind (Type_ (FileMeta info)) = Some b /\
   shouldSkip (loader s) (TableName info) = false /\
   (Path (FileMeta info), FileSize (FileMeta info)) ∈ walk_entries st).
Proof.
  unfold listFiles.
  destruct (WalkDir _ _ _ _) as [[s' c'] err] eqn:Hw. simpl.
  apply (WalkDir_adds _ _ b _ _ _ _ _ Hw).
Qed.

(** X3: the first error of the file router stops the scan with that error,
    annotated with the path; the buckets hold what the entries before it
    gave.  Unless the router's error is itself the ceiling error, the load
    then fails with a storage error around it and returns no catalog. *)
Theorem scan_file_router_error st f r fr cs opts pre path size post e :
  let s := new_setup st f r fr cs opts in
  walk_entries st = pre ++ (path, size) :: post ->
  (forall p sz e', (p, sz) ∈ pre -> fr p <> inl e') ->
  fr path = inl e ->
  below_ceiling s 0 (S (length pre)) ->
  (exists s',
     listFiles growslice st s
     = (s', Some (Annotated ("apply file routing on file '" ++ path ++ "' failed") e)) /\
     forall b, elems (bucket_of b s') = scanned b (loader s) pre)
  /\
  (ErrorEqual e TooManySourceFiles = false ->
   forall Table_String,
     NewMyDumpLoaderWithStore growslice Table_String st f r fr cs opts
     = Returned None
         (Some (Wrapped ErrStorageUnknown "list file failed"
                  (Annotated ("apply file routing on file '" ++ path ++ "' failed") e)))).
Proof.
  intros s HE Hpre He Hc.
  assert (HL : exists s',
     listFiles growslice st s
     = (s', Some (Annotated ("apply file routing on file '" ++ path ++ "' failed") e)) /\
     forall b, elems (bucket_of b s') = scanned b (loader s) pre).
  { unfold listFiles. rewrite HE, WalkDir_app.
    destruct (WalkDir_spec pre s 0%Z) as (s' & c' & Hw & Hu & Hb & Hc').
    { destruct Hc as [Hc|Hc]; [left; exact Hc|right; lia]. }
    { exact Hpre. }
    rewrite Hw. cbn [WalkDir]. unfold listFiles_visit.
    assert (Hcfg : setupCfg s' = setupCfg s) by apply Hu.
    assert (Hl : loader s' = loader s) by apply Hu.
    assert (Hno : ((MaxScanFiles (setupCfg s') >? 0)
                   && (int64_add c' 1 >? MaxScanFiles (setupCfg s')))%Z = false).
    { rewrite Hcfg. destruct Hc as [Hc|(H0 & Hk & Hb0)].
      - rewrite Z_gtb_false by lia. reflexivity.
      - destruct (Z_lt_le_dec 0 (MaxScanFiles (setupCfg s))) as [Hpos|Hneg].
        + rewrite (Hc' Hpos). rewrite int64_add_small by lia.
          rewrite (Z_gtb_false (0 + Z.of_nat (length pre) + 1)) by lia.
          apply andb_false_r.
        + rewrite Z_gtb_false by lia. reflexivity. }
    rewrite Hno, Hl. change (fileRouter (loader s) path) with (fr path). rewrite He.
    exists s'. split; [reflexivity|]. intros b. rewrite Hb. destruct b; reflexivity. }
  split; [exact HL|].
  intros HEq Table_String. destruct HL as (s' & HL & _).
  rewrite load_of_setup. unfold setup. fold s. rewrite HL.
  assert (HA : ErrorEqual (Annotated ("apply file routing on file '" ++ path ++ "' failed") e)
                          TooManySourceFiles = false) by exact HEq.
  rewrite HA. reflexivity.
Qed.

(** X4: when the walk itself fails, after the visitor has accepted every
    entry without hitting the ceiling, and its error is not the
    too-many-source-files one, the load returns no catalog and the walk's
    error wrapped as a storage error. *)
Theorem walk_failure_aborts_load st f r fr cs opts e Table_String :
  walk_failure st = Some e ->
  ErrorEqual e TooManySourceFiles = false ->
  over_ceiling (new_setup st f r fr cs opts) (walk_entries st) = false ->
  (MaxScanFiles (setupCfg (new_setup st f r fr cs opts)) < 2 ^ 63 - 1)%Z ->
  (forall path size e', (path, size) ∈ walk_entries st -> fr path <> inl e') ->
  NewMyDumpLoaderWithStore growslice Table_String st f r fr cs opts
  = Returned None (Some (Wrapped ErrStorageUnknown "list file failed" e)).
Proof.
  intros Hw He Hover HK Hfr.
  destruct (WalkDir_spec (walk_entries st) (new_setup st f r fr cs opts) 0%Z)
    as (s' & c' & Hwk & _).
  { apply andb_false_iff in Hover as [H|H]; apply Z.ltb_ge in H; [left; exact H|right; lia]. }
  { exact Hfr. }
  rewrite load_of_setup. unfold setup, listFiles.
  change (store (loader (new_setup st f r fr cs opts))) with st.
  rewrite Hwk, Hw, He. reflexivity.
Qed.

End ScannerSpec.

(** ** Name router pass *)

Section RouterSpec.

Variable growslice : nat -> nat.
Variable Table_String : filter.Table -> string.

(** One iteration of [runRoute] that returns has rewritten [arr[i]] to the
    name the router gave, and nothing else of [arr]. *)
Lemma runRoute_body_arr r i info st st' :
  runRoute_body growslice r i info st = Ret st' tt ->
  exists d t,
    r (filter.Schema (TableName info)) (filter.Name (TableName info)) = inr (d, t) /\
    arr st' = alter (rename d t) i (arr st).
Proof.
  unfold runRoute_body.
  destruct (r _ _) as [e|[d t]]; [discriminate|].
  intros H. exists d, t. split; [reflexivity|].
  case_bool_decide.
  - destruct (knownDBNames st !! _); [|discriminate].
    destruct (_ !! d); injection H as <-; reflexivity.
  - injection H as <-. reflexivity.
Qed.

Lemma runRoute_range_arr r todo : forall i st st',
  for_range (runRoute_body growslice r) i todo st = Ret st' tt ->
  (forall k x, todo !! k = Some x -> arr st !! (i + k) = Some x) ->
  length (arr st') = length (arr st) /\
  (forall j, ~ (i <= j < i + length todo) -> arr st' !! j = arr st !! j) /\
  (forall k x, todo !! k = Some x ->
     exists y, arr st' !! (i + k) = Some y /\ routed_to r x y).
Proof.
  induction todo as [|info todo IH]; intros i st st'; simpl; unfold_M.
  - intros [= <-] _. split; [reflexivity|]. split; [reflexivity|].
    intros k x Hk. destruct k; discriminate.
  - destruct (runRoute_body growslice r i info st) as [st1 []|?|?] eqn:Hb; try discriminate.
    intros Hloop Hpre.
    destruct (runRoute_body_arr _ _ _ _ _ Hb) as (d & t & Hr & Ha).
    destruct (IH (S i) st1 st' Hloop) as (Hlen & Hout & Hin).
    { intros k x Hk. rewrite Ha, list_lookup_alter_ne by lia.
      replace (S i + k) with (i + S k) by lia. apply Hpre. exact Hk. }
    split; [rewrite Hlen, Ha; apply length_alter|]. split.
    + intros j Hj. rewrite Hout by lia. rewrite Ha. apply list_lookup_alter_ne. lia.
    + intros [|k] x Hk.
      * simpl in Hk. injection Hk as <-. rewrite Hout by lia.
        rewrite Ha, Nat.add_0_r, list_lookup_alter_eq.
        specialize (Hpre 0 info eq_refl). rewrite Nat.add_0_r in Hpre. rewrite Hpre.
        eexists. split; [reflexivity|]. split; [exact Hr|reflexivity].
      * simpl in Hk. replace (i + S k) with (S i + k) by lia. apply Hin, Hk.
Qed.

(** [runRoute] over a whole slice rewrites each of its elements. *)
Lemma runRoute_arr r st st' :
  runRoute growslice r st = Ret st' tt -> Forall2 (routed_to r) (arr st) (arr st').
Proof.
  unfold runRoute. intros H.
  destruct (runRoute_range_arr r (arr st) 0 st st' H) as (Hlen & _ & Hin).
  { intros k x Hk. exact Hk. }
  apply Forall2_same_length_lookup_2; [congruence|].
  intros j x y Hx Hy. destruct (Hin j x Hx) as (y' & Hy' & Hr).
  simpl in Hy'. congruence.
Qed.

(** One call of [runRoute] on a bucket other than the database-schema one
    rewrites that bucket and leaves the other two alone. *)
Lemma route_pass_buckets r b s known s' known' :
  b <> DbSchemas ->
  route_pass growslice r b (s, known) = Ret (s', known') tt ->
  Forall2 (routed_to r) (elems (bucket_of b s)) (elems (bucket_of b s')) /\
  forall b', b' <> DbSchemas -> b' <> b -> bucket_of b' s' = bucket_of b' s.
Proof.
  intros Hb. unfold route_pass.
  destruct (runRoute growslice r _) as [st' []|?|?] eqn:Hrun; try discriminate.
  intros [= <- _]. apply runRoute_arr in Hrun. simpl in Hrun.
  split.
  - destruct b; try congruence; exact Hrun.
  - intros b' Hb' Hne. destruct b, b'; try congruence; reflexivity.
Qed.

Lemma route_pass_db_buckets r s known s' known' :
  route_pass growslice r DbSchemas (s, known) = Ret (s', known') tt ->
  forall b', b' <> DbSchemas -> bucket_of b' s' = bucket_of b' s.
Proof.
  unfold route_pass.
  destruct (runRoute growslice r _) as [st' []|?|?]; try discriminate.
  intros [= <- _] b' Hb'. destruct b'; try congruence; reflexivity.
Qed.

(** X5: a routing pass that succeeds gives every table-schema, view-schema
    and data file exactly the (schema, table) name the router returns for
    its old name and keeps its metadata; those three buckets keep their
    length and order. *)
Theorem route_renames (s s' : mdLoaderSetup) (r : RouteTable) (b : bucket) :
  router (loader s) = Some r ->
  route growslice Table_String s = Ret s' tt ->
  b <> DbSchemas ->
  Forall2 (routed_to r) (elems (bucket_of b s)) (elems (bucket_of b s')).
Proof.
  intros Hr Hroute Hb. unfold route in Hroute. rewrite Hr in Hroute.
  destruct (count_files _ _) as [known []|?|?]; try discriminate.
  destruct (route_rewrite growslice r (s, known)) as [[s4 k4] []|[? ?] ?|?] eqn:Hrw;
    try discriminate.
  destruct (for_range _ 0 _ _) as [rem []|?|?]; try discriminate.
  injection Hroute as <-.
  assert (G : Forall2 (routed_to r) (elems (bucket_of b s)) (elems (bucket_of b s4))).
  { unfold route_rewrite in Hrw. unfold_M.
    destruct (route_pass growslice r DbSchemas (s, known)) as [[s1 k1] []|?|?] eqn:H1;
      try discriminate.
    destruct (route_pass growslice r TableSchemas (s1, k1)) as [[s2 k2] []|?|?] eqn:H2;
      try discriminate.
    destruct (route_pass growslice r ViewSchemas (s2, k2)) as [[s3 k3] []|?|?] eqn:H3;
      try discriminate.
    pose proof (route_pass_db_buckets _ _ _ _ _ H1) as F1.
    destruct (route_pass_buckets r TableSchemas _ _ _ _ ltac:(discriminate) H2) as [R2 F2].
    destruct (route_pass_buckets r ViewSchemas _ _ _ _ ltac:(discriminate) H3) as [R3 F3].
    destruct (route_pass_buckets r TableDatas _ _ _ _ ltac:(discriminate) Hrw) as [R4 F4].
    destruct b; try congruence.
    - rewrite (F4 TableSchemas), (F3 TableSchemas), <- (F1 TableSchemas) by discriminate.
      exact R2.
    - rewrite (F4 ViewSchemas), <- (F1 ViewSchemas), <- (F2 ViewSchemas) by discriminate.
      exact R3.
    - rewrite <- (F1 TableDatas), <- (F2 TableDatas), <- (F3 TableDatas) by discriminate.
      exact R4. }
  destruct b; try congruence; exact G.
Qed.

End RouterSpec.

(** ** A router that renames nothing *)

Section IdentityRouter.

Variable growslice : nat -> nat.
Variable Table_String : filter.Table -> string.

Lemma alter_fixed {A} (f : A -> A) (l : list A) i x :
  l !! i = Some x -> f x = x -> alter f i l = l.
Proof.
  intros Hl Hf. apply list_eq. intros j. destruct (decide (j = i)) as [->|Hne].
  - rewrite list_lookup_alter_eq, Hl. simpl. congruence.
  - apply list_lookup_alter_ne. congruence.
Qed.

Lemma filter_all {A} (P : A -> Prop) `{!forall x, Decision (P x)} (l : list A) :
  (forall x, x ∈ l -> P x) -> filter P l = l.
Proof.
  induction l as [|x l IH]; intros Hall; [reflexivity|].
  rewrite filter_cons_True by (apply Hall; left).
  f_equal. apply IH. intros y Hy. apply Hall. right. exact Hy.
Qed.

Lemma rename_same (info : FileInfo) :
  rename (filter.Schema (TableName info)) (filter.Name (TableName info)) info = info.
Proof. destruct info as [[? ?] ?]. reflexivity. Qed.

Lemma slice_eta {A} (x : slice A) : mkSlice (elems x) (cap x) = x.
Proof. destruct x. reflexivity. Qed.

(** Every reference count starts at one. *)
Lemma base_counts_one (l : list FileInfo) k d :
  base_counts l !! k = Some d -> count d = 1%Z.
Proof.
  unfold base_counts.
  assert (G : forall acc : gmap string dbInfo,
             (forall k d, acc !! k = Some d -> count d = 1%Z) ->
             forall k d, foldl (fun known info =>
                                  <[filter.Schema (TableName info)
                                      := mkDbInfo (FileMeta info) 1]> known) acc l !! k
                         = Some d -> count d = 1%Z).
  { induction l as [|x l IH]; intros acc Hacc; simpl; [exact Hacc|].
    apply IH. intros k' d'. destruct (decide (filter.Schema (TableName x) = k')) as [->|Hne].
    - rewrite lookup_insert_eq. intros [= <-]. reflexivity.
    - rewrite lookup_insert_ne by exact Hne. apply Hacc. }
  apply G. intros k' d'. rewrite lookup_empty. discriminate.
Qed.

(** The counting loops add at most one per file to a count. *)
Lemma count_range_bounds l : forall i known (B : Z),
  known_names known l ->
  (forall k d, known !! k = Some d -> (1 <= count d <= B)%Z) ->
  (B + Z.of_nat (length l) < 2 ^ 63)%Z ->
  exists known',
    for_range count_file i l known = Ret known' tt /\
    (forall k d, known' !! k = Some d -> (1 <= count d <= B + Z.of_nat (length l))%Z) /\
    extends known known'.
Proof.
  induction l as [|x l IH]; intros i known B Hk Hb Hlt; simpl; unfold_M.
  - exists known. split; [reflexivity|]. split; [|intros k Hs; exact Hs].
    intros k d Hd. specialize (Hb k d Hd). simpl. lia.
  - unfold count_file at 1.
    destruct (Hk x ltac:(left)) as [d Hd]. unfold schema_of in Hd. rewrite Hd.
    pose proof (Hb _ _ Hd) as Hbd.
    cbn [length] in Hlt. rewrite Nat2Z.inj_succ in Hlt.
    destruct (IH (S i) (<[filter.Schema (TableName x)
                            := mkDbInfo (fileMeta d) (int64_add (count d) 1)]> known)
                 (B + 1)%Z) as (known' & Hrun & Hb' & Hext).
    + intros y Hy. unfold schema_of.
      apply lookup_insert_is_Some'. right. apply Hk. right. exact Hy.
    + intros k d'. destruct (decide (filter.Schema (TableName x) = k)) as [->|Hne].
      * rewrite lookup_insert_eq. intros [= <-]. simpl.
        rewrite int64_add_small by lia. lia.
      * rewrite lookup_insert_ne by exact Hne. intros Hd'. specialize (Hb _ _ Hd'). lia.
    + lia.
    + exists known'. split; [exact Hrun|]. split.
      * intros k d' Hd'. specialize (Hb' k d' Hd'). cbn [length].
        rewrite Nat2Z.inj_succ. lia.
      * intros k Hs. apply Hext. apply lookup_insert_is_Some'. right. exact Hs.
Qed.

Lemma count_files_bounds s known :
  known_names known (table_level_files s) ->
  (forall k d, known !! k = Some d -> count d = 1%Z) ->
  (Z.of_nat (length (table_level_files s)) < 2 ^ 63 - 1)%Z ->
  exists known',
    count_files s known = Ret known' tt /\
    (forall k d, known' !! k = Some d -> (1 <= count d)%Z) /\
    extends known known'.
Proof.
  unfold table_level_files. intros Hk H1 Hlen. rewrite !length_app in Hlen.
  unfold count_files. unfold_M.
  destruct (count_range_bounds (elems (tableSchemas s)) 0 known 1) as (k1 & R1 & B1 & E1).
  { intros x Hx. apply Hk. rewrite !elem_of_app. auto. }
  { intros k d Hd. rewrite (H1 k d Hd). lia. }
  { lia. }
  assert (N2 : known_names k1 (elems (viewSchemas s))).
  { intros x Hx. apply E1, Hk. rewrite !elem_of_app. auto. }
  assert (L2 : (1 + Z.of_nat (length (elems (tableSchemas s)))
                + Z.of_nat (length (elems (viewSchemas s))) < 2 ^ 63)%Z) by lia.
  pose proof (count_range_bounds (elems (viewSchemas s)) 0 k1 _ N2 B1 L2)
    as (k2 & R2 & B2 & E2).
  assert (N3 : known_names k2 (elems (tableDatas s))).
  { intros x Hx. apply E2, E1, Hk. rewrite !elem_of_app. auto. }
  assert (L3 : (1 + Z.of_nat (length (elems (tableSchemas s)))
                + Z.of_nat (length (elems (viewSchemas s)))
                + Z.of_nat (length (elems (tableDatas s))) < 2 ^ 63)%Z) by lia.
  pose proof (count_range_bounds (elems (tableDatas s)) 0 k2 _ N3 B2 L3)
    as (k3 & R3 & B3 & E3).
  exists k3. split; [rewrite R1, R2; exact R3|]. split.
  - intros k d Hd. apply (B3 k d Hd).
  - intros k Hs. apply E3, E2, E1, Hs.
Qed.

(** An iteration of [runRoute] on a file whose name the router keeps writes
    the element back as it was. *)
Lemma runRoute_body_id r i info st :
  keeps_name r info ->
  arr st !! i = Some info ->
  (aliased st = true -> elems (rs_dbSchemas st) !! i = Some info) ->
  runRoute_body growslice r i info st = Ret st tt.
Proof.
  unfold keeps_name, runRoute_body. intros -> Ha Hd.
  rewrite bool_decide_eq_false_2 by (intros H; apply H; reflexivity).
  f_equal. unfold write_arr.
  rewrite (alter_fixed _ _ _ _ Ha (rename_same info)).
  destruct st as [ds known a al]. simpl in *. f_equal.
  destruct al; [|reflexivity].
  rewrite (alter_fixed _ _ _ _ (Hd eq_refl) (rename_same info)). apply slice_eta.
Qed.

Lemma runRoute_range_id r todo : forall i st,
  (forall x, x ∈ todo -> keeps_name r x) ->
  (forall k x, todo !! k = Some x ->
     arr st !! (i + k) = Some x /\
     (aliased st = true -> elems (rs_dbSchemas st) !! (i + k) = Some x)) ->
  for_range (runRoute_body growslice r) i todo st = Ret st tt.
Proof.
  induction todo as [|x todo IH]; intros i st Hkeep Hpre; simpl; unfold_M; [reflexivity|].
  destruct (Hpre 0 x eq_refl) as [Ha Hd]. rewrite Nat.add_0_r in Ha, Hd.
  rewrite runRoute_body_id by (try assumption; apply Hkeep; left).
  apply IH.
  - intros y Hy. apply Hkeep. right. exact Hy.
  - intros k y Hk. replace (S i + k) with (i + S k) by lia. apply Hpre. exact Hk.
Qed.

Lemma route_pass_id r b s known :
  (forall x, x ∈ elems (bucket_of b s) -> keeps_name r x) ->
  route_pass growslice r b (s, known) = Ret (s, known) tt.
Proof.
  intros Hkeep. unfold route_pass, runRoute. cbn [arr].
  rewrite runRoute_range_id.
  - simpl. f_equal. f_equal.
    destruct s as [l d t v td dm tm cfg]. unfold commit, set_dbSchemas. simpl.
    destruct b; simpl; unfold set_tableSchemas, set_viewSchemas, set_tableDatas; simpl;
      rewrite ?slice_eta; reflexivity.
  - exact Hkeep.
  - intros k x Hk. simpl. split; [exact Hk|]. destruct b; try discriminate.
    intros _. exact Hk.
Qed.

(** X6: a router that gives every file of the four buckets the name it
    already has leaves the buckets exactly as they were (no file renamed,
    no database-schema file added or dropped), provided every table-level
    file's database has a database-schema file and the reference counts do
    not overflow. *)
Theorem route_keeping_names (s : mdLoaderSetup) (r : RouteTable) :
  router (loader s) = Some r ->
  (forall b info, info ∈ elems (bucket_of b s) -> keeps_name r info) ->
  (forall info, info ∈ table_level_files s ->
     exists d, d ∈ elems (dbSchemas s) /\ schema_of d = schema_of info) ->
  (Z.of_nat (length (table_level_files s)) < 2 ^ 63 - 1)%Z ->
  route growslice Table_String s = Ret s tt.
Proof.
  intros Hr Hkeep Hall Hlen. unfold route. rewrite Hr.
  destruct (count_files_bounds s (base_counts (elems (dbSchemas s)))) as (known & Hc & Hpos & Hext).
  { intros info Hin. apply base_counts_is_Some, Hall, Hin. }
  { apply base_counts_one. }
  { exact Hlen. }
  rewrite Hc. unfold route_rewrite. unfold_M.
  rewrite !route_pass_id by (apply Hkeep).
  assert (Hk : known_names known (elems (dbSchemas s))).
  { intros info Hin. apply Hext, base_counts_is_Some. exists info. split; [exact Hin|reflexivity]. }
  assert (Hc1 : forall info, info ∈ elems (dbSchemas s) -> (0 < count_in known info)%Z).
  { intros info Hin. unfold count_in. destruct (Hk info Hin) as [d Hd]. rewrite Hd.
    specialize (Hpos _ _ Hd). lia. }
  rewrite keep_remaining_nonneg; [|exact Hk|intros info Hin; specialize (Hc1 info Hin); lia].
  rewrite filter_all by exact Hc1. simpl.
  f_equal. destruct s as [l [d c] t v td dm tm cfg]. reflexivity.
Qed.

End IdentityRouter.

(** ** The catalog by name *)

Lemma elem_of_db_names l n :
  n ∈ db_names l <-> exists i d, l !! i = Some d /\ MDDatabaseMeta.Name d = n.
Proof.
  unfold db_names. rewrite list_elem_of_fmap. split.
  - intros (d & -> & [i Hi]%list_elem_of_lookup). eauto.
  - intros (i & d & Hi & <-). exists d. split; [reflexivity|].
    eapply list_elem_of_lookup_2, Hi.
Qed.

Lemma elem_of_table_names ts n :
  n ∈ table_names ts <-> exists j t, ts !! j = Some t /\ MDTableMeta.Name t = n.
Proof.
  unfold table_names. rewrite list_elem_of_fmap. split.
  - intros (t & -> & [j Hj]%list_elem_of_lookup). eauto.
  - intros (j & t & Hj & <-). exists t. split; [reflexivity|].
    eapply list_elem_of_lookup_2, Hj.
Qed.

Lemma indexed_valid s : indexed s -> indexes_valid s.
Proof.
  intros [A1 A2]. split.
  - intros name i H. apply A1, H.
  - intros [db tbl] j H. destruct (proj1 (A2 db tbl j) H) as (i & d & t & Hd & Hn & Ht & _).
    exists i, d. simpl. split; [apply A1; eauto|]. split; [exact Hd|].
    eapply lookup_lt_Some, Ht.
Qed.

Lemma fresh_indexed s : fresh s -> indexed s.
Proof.
  intros (Hd & Ht & Hl). split.
  - intros name i. rewrite Hd, Hl, lookup_empty. split; [discriminate|].
    intros (d & H & _). discriminate.
  - intros db tbl j. rewrite Ht, Hl, lookup_empty. split; [discriminate|].
    intros (i & d & t & H & _). discriminate.
Qed.

(** No two databases of an indexed catalog have the same name. *)
Lemma indexed_db_unique s i i' d d' :
  indexed s ->
  dbs (loader s) !! i = Some d -> dbs (loader s) !! i' = Some d' ->
  MDDatabaseMeta.Name d = MDDatabaseMeta.Name d' -> i = i'.
Proof.
  intros [A1 _] H H' Hn.
  assert (E : dbIndexMap s !! MDDatabaseMeta.Name d = Some i) by (apply A1; eauto).
  assert (E' : dbIndexMap s !! MDDatabaseMeta.Name d = Some i') by (apply A1; eauto).
  congruence.
Qed.

(** No two tables of a database of an indexed catalog have the same name. *)
Lemma indexed_table_unique s i d j j' t t' :
  indexed s ->
  dbs (loader s) !! i = Some d ->
  MDDatabaseMeta.Tables d !! j = Some t -> MDDatabaseMeta.Tables d !! j' = Some t' ->
  MDTableMeta.Name t = MDTableMeta.Name t' -> j = j'.
Proof.
  intros [_ A2] Hd H H' Hn.
  assert (E : tableIndexMap s !! (MDDatabaseMeta.Name d, MDTableMeta.Name t) = Some j)
    by (apply A2; exists i, d, t; auto).
  assert (E' : tableIndexMap s !! (MDDatabaseMeta.Name d, MDTableMeta.Name t) = Some j')
    by (apply A2; exists i, d, t'; auto).
  congruence.
Qed.

Lemma indexed_NoDup s : indexed s -> NoDup (db_names (dbs (loader s))).
Proof.
  intros W. apply NoDup_alt. intros i i' n. unfold db_names.
  rewrite !list_lookup_fmap.
  destruct (dbs (loader s) !! i) as [d|] eqn:Hd; [|discriminate].
  destruct (dbs (loader s) !! i') as [d'|] eqn:Hd'; [|discriminate].
  simpl. intros [= <-] [= Hn]. eapply indexed_db_unique; eauto.
Qed.

(** An update through the index of a database is an update of the database
    of that name. *)
Lemma alter_on_db s g i d :
  indexed s -> dbs (loader s) !! i = Some d ->
  alter g i (dbs (loader s)) = on_db (MDDatabaseMeta.Name d) g (dbs (loader s)).
Proof.
  intros W Hd. apply list_eq. intros k. unfold on_db. rewrite list_lookup_fmap.
  destruct (decide (k = i)) as [->|Hne].
  - rewrite list_lookup_alter_eq, Hd. simpl. rewrite decide_True by reflexivity. reflexivity.
  - rewrite list_lookup_alter_ne by congruence.
    destruct (dbs (loader s) !! k) as [d'|] eqn:Hd'; [|reflexivity]. simpl.
    rewrite decide_False; [reflexivity|]. intros Hn. apply Hne.
    eapply indexed_db_unique; eauto.
Qed.

Lemma alter_on_table s g i d j t :
  indexed s -> dbs (loader s) !! i = Some d -> MDDatabaseMeta.Tables d !! j = Some t ->
  alter g j (MDDatabaseMeta.Tables d) = on_table (MDTableMeta.Name t) g (MDDatabaseMeta.Tables d).
Proof.
  intros W Hd Ht. apply list_eq. intros k. unfold on_table. rewrite list_lookup_fmap.
  destruct (decide (k = j)) as [->|Hne].
  - rewrite list_lookup_alter_eq, Ht. simpl. rewrite decide_True by reflexivity. reflexivity.
  - rewrite list_lookup_alter_ne by congruence.
    destruct (MDDatabaseMeta.Tables d !! k) as [t'|] eqn:Ht'; [|reflexivity]. simpl.
    rewrite decide_False; [reflexivity|]. intros Hn. apply Hne.
    eapply indexed_table_unique; eauto.
Qed.

(** [insertDB] by name: the database of the file's schema name is appended
    unless the catalog has one, and the returned index leads to it. *)
Lemma insertDB_exact f s :
  indexed s ->
  exists s' i d b,
    insertDB f s = Ret s' (i, b) /\ indexed s' /\
    dbs (loader s') = ensure_db f (charSet (loader s)) (dbs (loader s)) /\
    dbs (loader s') !! i = Some d /\ MDDatabaseMeta.Name d = schema_of f /\
    (b = true <-> schema_of f ∈ db_names (dbs (loader s))) /\
    tableIndexMap s' = tableIndexMap s /\ step s s'.
Proof.
  intros W. pose proof W as [A1 A2]. unfold insertDB, ensure_db. fold (schema_of f).
  destruct (dbIndexMap s !! schema_of f) as [i|] eqn:Hi.
  - destruct (proj1 (A1 _ _) Hi) as (d & Hd & Hn). rewrite Hd.
    assert (Hin : schema_of f ∈ db_names (dbs (loader s))) by (apply elem_of_db_names; eauto).
    rewrite decide_True by exact Hin.
    exists s, i, d, true. split; [reflexivity|]. split; [exact W|].
    split; [reflexivity|]. split; [exact Hd|]. split; [exact Hn|].
    split; [split; auto|]. split; [reflexivity|apply step_refl].
  - assert (Hin : schema_of f ∉ db_names (dbs (loader s))).
    { intros (i & d & Hd & Hn)%elem_of_db_names.
      assert (E : dbIndexMap s !! schema_of f = Some i) by (apply A1; eauto). congruence. }
    rewrite decide_False by exact Hin.
    eexists _, _, (MDDatabaseMeta.mk (schema_of f) f [] [] (charSet (loader s))), false.
    split; [reflexivity|]. simpl.
    split; [split|split; [reflexivity|split; [|split; [reflexivity|split; [|split]]]]].
    + intros name i. simpl. destruct (decide (schema_of f = name)) as [<-|Hne].
      * rewrite lookup_insert_eq. split.
        -- intros [= <-]. eexists. split; [apply list_lookup_middle; reflexivity|reflexivity].
        -- intros (d & Hd & Hn). f_equal.
           destruct (decide (i < length (dbs (loader s)))) as [Hlt|Hge].
           ++ rewrite lookup_app_l in Hd by exact Hlt. exfalso. apply Hin.
              apply elem_of_db_names. eauto.
           ++ apply lookup_lt_Some in Hd. rewrite length_app in Hd. simpl in Hd. lia.
      * rewrite lookup_insert_ne by exact Hne. rewrite A1. split.
        -- intros (d & Hd & Hn). exists d. split; [|exact Hn].
           rewrite lookup_app_l; [exact Hd|]. eapply lookup_lt_Some, Hd.
        -- intros (d & Hd & Hn). exists d. split; [|exact Hn].
           destruct (decide (i < length (dbs (loader s)))) as [Hlt|Hge].
           ++ rewrite lookup_app_l in Hd by exact Hlt. exact Hd.
           ++ rewrite lookup_app_r in Hd by lia.
              destruct (i - length (dbs (loader s))) as [|k]; [|discriminate].
              injection Hd as <-. simpl in Hn. congruence.
    + intros db tbl j. simpl. rewrite A2. split.
      * intros (i & d & t & Hd & Hr). exists i, d, t. split; [|exact Hr].
        rewrite lookup_app_l; [exact Hd|]. eapply lookup_lt_Some, Hd.
      * intros (i & d & t & Hd & Hn & Ht & Hr). exists i, d, t.
        split; [|auto].
        destruct (decide (i < length (dbs (loader s)))) as [Hlt|Hge].
        -- rewrite lookup_app_l in Hd by exact Hlt. exact Hd.
        -- rewrite lookup_app_r in Hd by lia.
           destruct (i - length (dbs (loader s))) as [|k]; [|discriminate].
           injection Hd as <-. simpl in Ht. discriminate.
    + apply list_lookup_middle. reflexivity.
    + split; [discriminate|]. intros H. contradiction.
    + reflexivity.
    + unfold step. simpl. repeat split; auto using dbs_le_app.
      intros k i H. rewrite lookup_insert_ne; [exact H|]. intros E. congruence.
Qed.

Lemma on_db_ext n g g' l :
  (forall d, d ∈ l -> MDDatabaseMeta.Name d = n -> g d = g' d) ->
  on_db n g l = on_db n g' l.
Proof.
  intros H. unfold on_db. apply list_eq. intros k. rewrite !list_lookup_fmap.
  destruct (l !! k) as [d|] eqn:Hd; [|reflexivity]. simpl.
  destruct (decide _) as [Hn|]; [|reflexivity].
  f_equal. apply H; [eapply list_elem_of_lookup_2, Hd|exact Hn].
Qed.

Lemma on_db_fixed n g l :
  (forall d, d ∈ l -> MDDatabaseMeta.Name d = n -> g d = d) -> on_db n g l = l.
Proof.
  intros H. unfold on_db. apply list_eq. intros k. rewrite !list_lookup_fmap.
  destruct (l !! k) as [d|] eqn:Hd; [|reflexivity]. simpl.
  destruct (decide _) as [Hn|]; [|reflexivity].
  f_equal. apply H; [eapply list_elem_of_lookup_2, Hd|exact Hn].
Qed.

(** Lookups after an update that keeps the name of the database. *)
Lemma alter_lookup_name g i (l : list MDDatabaseMeta.t) k n :
  (forall d, MDDatabaseMeta.Name (g d) = MDDatabaseMeta.Name d) ->
  (exists d, alter g i l !! k = Some d /\ MDDatabaseMeta.Name d = n)
  <-> (exists d, l !! k = Some d /\ MDDatabaseMeta.Name d = n).
Proof.
  intros Hg. destruct (decide (k = i)) as [->|Hne].
  - rewrite list_lookup_alter_eq. split.
    + intros (d & Hd & Hn). destruct (l !! i) as [d0|]; [|discriminate].
      injection Hd as <-. exists d0. split; [reflexivity|]. rewrite <- Hg. exact Hn.
    + intros (d & -> & Hn). exists (g d). split; [reflexivity|]. rewrite Hg. exact Hn.
  - rewrite list_lookup_alter_ne by congruence. reflexivity.
Qed.

(** [insertTable] by name: the database is ensured, then the table of the
    file's name is appended to it unless it has one; the returned indexes
    lead to that table. *)
Lemma insertTable_exact f s :
  indexed s ->
  exists s' i j d t de te,
    insertTable f s = Ret s' ((i, j), de, te) /\ indexed s' /\
    dbs (loader s') = file_table (charSet (loader s)) f (dbs (loader s)) /\
    dbs (loader s') !! i = Some d /\ MDDatabaseMeta.Name d = schema_of f /\
    MDDatabaseMeta.Tables d !! j = Some t /\ MDTableMeta.Name t = name_of f /\
    (te = true <-> is_Some (tableIndexMap s !! (schema_of f, name_of f))) /\
    step s s'.
Proof.
  intros W. unfold insertTable, file_table. unfold_M.
  destruct (insertDB_exact (dbFileInfo f) s W)
    as (s1 & i & d & de & -> & W1 & Hdbs & Hd & Hn & _ & Ht1 & S1).
  change (schema_of (dbFileInfo f)) with (schema_of f) in Hn.
  assert (Hcs : charSet (loader s1) = charSet (loader s))
    by (destruct S1 as (_ & _ & _ & _ & _ & H & _); exact H).
  rewrite Hd. rewrite <- Hdbs, <- Ht1. clear Hdbs.
  change (table_key (TableName f)) with (schema_of f, name_of f).
  pose proof W1 as [A1 A2].
  destruct (tableIndexMap s1 !! (schema_of f, name_of f)) as [j|] eqn:Hj.
  - destruct (proj1 (A2 _ _ _) Hj) as (i' & d' & t & Hd' & Hn' & Ht & Hnt).
    assert (i' = i) as -> by (eapply (indexed_db_unique s1); eauto; congruence).
    rewrite Hd in Hd'. injection Hd' as <-. rewrite Ht.
    exists s1, i, j, d, t, de, true. split; [reflexivity|]. split; [exact W1|].
    split; [|split; [exact Hd|]; split; [exact Hn|]; split; [exact Ht|];
             split; [exact Hnt|]; split; [split; eauto|exact S1]].
    symmetry. apply on_db_fixed. intros d0 [k Hk]%list_elem_of_lookup Hn0.
    assert (k = i) as -> by (eapply (indexed_db_unique s1); eauto; congruence).
    rewrite Hd in Hk. injection Hk as <-. unfold ensure_table.
    rewrite decide_True; [reflexivity|]. apply elem_of_table_names. eauto.
  - assert (Hnew : name_of f ∉ table_names (MDDatabaseMeta.Tables d)).
    { intros (j & t & Ht & Hnt)%elem_of_table_names.
      assert (E : tableIndexMap s1 !! (schema_of f, name_of f) = Some j)
        by (apply A2; exists i, d, t; auto).
      congruence. }
    set (ptr := MDTableMeta.mk _ _ _ _ _ _ _ _).
    set (grow := fun d0 => set_Tables (MDDatabaseMeta.Tables d0 ++ [ptr]) d0).
    assert (Hgn : forall d0, MDDatabaseMeta.Name (grow d0) = MDDatabaseMeta.Name d0)
      by reflexivity.
    eexists _, i, _, (grow d), ptr, de, false. split; [reflexivity|]. simpl.
    split; [split|split; [|split; [|split; [exact Hn|split; [|split; [reflexivity|split]]]]]].
    + intros name k. simpl. rewrite (alter_lookup_name grow i _ k name Hgn). apply A1.
    + intros db tbl j0. simpl.
      destruct (decide ((schema_of f, name_of f) = (db, tbl))) as [E|Hne].
      * injection E as <- <-. rewrite lookup_insert_eq. split.
        -- intros [= <-]. exists i, (grow d), ptr.
           rewrite list_lookup_alter_eq, Hd. split; [reflexivity|]. split; [exact Hn|].
           split; [|reflexivity]. simpl. apply list_lookup_middle. reflexivity.
        -- intros (i0 & d0 & t0 & Hd0 & Hn0 & Ht0 & Hnt0). f_equal.
           assert (i0 = i) as ->.
           { destruct (proj1 (alter_lookup_name grow i (dbs (loader s1)) i0 (schema_of f) Hgn))
               as (dx & Hdx & Hnx); [eauto|].
             eapply (indexed_db_unique s1); eauto. congruence. }
           rewrite list_lookup_alter_eq, Hd in Hd0. injection Hd0 as <-. simpl in Ht0.
           destruct (decide (j0 < length (MDDatabaseMeta.Tables d))) as [Hlt|Hge].
           ++ rewrite lookup_app_l in Ht0 by exact Hlt. exfalso. apply Hnew.
              apply elem_of_table_names. eauto.
           ++ apply lookup_lt_Some in Ht0. rewrite length_app in Ht0. simpl in Ht0. lia.
      * rewrite lookup_insert_ne by exact Hne. rewrite A2. split.
        -- intros (i0 & d0 & t0 & Hd0 & Hn0 & Ht0 & Hnt0).
           destruct (decide (i0 = i)) as [->|Hi].
           ++ rewrite Hd in Hd0. injection Hd0 as <-. exists i, (grow d), t0.
              rewrite list_lookup_alter_eq, Hd. split; [reflexivity|]. split; [exact Hn0|].
              split; [|exact Hnt0]. simpl.
              rewrite lookup_app_l; [exact Ht0|]. eapply lookup_lt_Some, Ht0.
           ++ exists i0, d0, t0. rewrite list_lookup_alter_ne by congruence. auto.
        -- intros (i0 & d0 & t0 & Hd0 & Hn0 & Ht0 & Hnt0).
           destruct (decide (i0 = i)) as [->|Hi].
           ++ rewrite list_lookup_alter_eq, Hd in Hd0. injection Hd0 as <-.
              simpl in Ht0, Hn0.
              destruct (decide (j0 < length (MDDatabaseMeta.Tables d))) as [Hlt|Hge].
              ** rewrite lookup_app_l in Ht0 by exact Hlt. exists i, d, t0. auto.
              ** rewrite lookup_app_r in Ht0 by lia.
                 destruct (j0 - length (MDDatabaseMeta.Tables d)) as [|k]; [|discriminate].
                 simpl in Ht0. injection Ht0 as <-. simpl in Hnt0. exfalso. apply Hne.
                 unfold name_of. congruence.
           ++ rewrite list_lookup_alter_ne in Hd0 by congruence. exists i0, d0, t0. auto.
    + rewrite (alter_on_db s1 grow i d W1 Hd), Hn. apply on_db_ext.
      intros d0 [k Hk]%list_elem_of_lookup Hn0.
      assert (k = i) as -> by (eapply (indexed_db_unique s1); eauto; congruence).
      rewrite Hd in Hk. injection Hk as <-. unfold ensure_table.
      rewrite decide_False by exact Hnew. unfold grow, ptr, view_meta. rewrite Hcs.
      reflexivity.
    + rewrite list_lookup_alter_eq, Hd. reflexivity.
    + simpl. apply list_lookup_middle. reflexivity.
    + split; [discriminate|]. intros [x Hx]. discriminate.
    + eapply step_trans; [exact S1|]. unfold step. simpl. repeat split; auto.
      apply dbs_le_alter. intros d0. unfold grow, db_le. simpl. rewrite length_app. simpl.
      repeat split; auto. lia.
Qed.

(** An update of one database that keeps its name and the names of its
    tables keeps the index maps right. *)
Lemma indexed_alter s g i :
  indexed s ->
  (forall d, MDDatabaseMeta.Name (g d) = MDDatabaseMeta.Name d) ->
  (forall d, table_names (MDDatabaseMeta.Tables (g d)) = table_names (MDDatabaseMeta.Tables d)) ->
  indexed (set_loader s (set_dbs (loader s) (alter g i (dbs (loader s))))).
Proof.
  intros [A1 A2] Hn Ht. split.
  - intros name k. simpl. rewrite (alter_lookup_name g i _ k name Hn). apply A1.
  - intros db tbl j. simpl. rewrite A2.
    assert (Hl : forall d t, MDDatabaseMeta.Tables d !! j = Some t ->
                 exists t', MDDatabaseMeta.Tables (g d) !! j = Some t' /\
                            MDTableMeta.Name t' = MDTableMeta.Name t).
    { intros d t H. pose proof (f_equal (fun l => l !! j) (Ht d)) as E. simpl in E.
      unfold table_names in E. rewrite !list_lookup_fmap, H in E.
      destruct (MDDatabaseMeta.Tables (g d) !! j) as [t'|]; [|discriminate].
      injection E as E. eauto. }
    assert (Hr : forall d t, MDDatabaseMeta.Tables (g d) !! j = Some t ->
                 exists t', MDDatabaseMeta.Tables d !! j = Some t' /\
                            MDTableMeta.Name t' = MDTableMeta.Name t).
    { intros d t H. pose proof (f_equal (fun l => l !! j) (Ht d)) as E. simpl in E.
      unfold table_names in E. rewrite !list_lookup_fmap, H in E.
      destruct (MDDatabaseMeta.Tables d !! j) as [t'|]; [|discriminate].
      injection E as E. eauto. }
    split.
    + intros (k & d & t & Hd & Hdn & Htj & Htn).
      destruct (decide (k = i)) as [->|Hne].
      * destruct (Hl _ _ Htj) as (t' & Ht' & Hn').
        exists i, (g d), t'. rewrite list_lookup_alter_eq, Hd.
        split; [reflexivity|]. rewrite Hn. split; [exact Hdn|]. split; [exact Ht'|congruence].
      * exists k, d, t. rewrite list_lookup_alter_ne by congruence. auto.
    + intros (k & d & t & Hd & Hdn & Htj & Htn).
      destruct (decide (k = i)) as [->|Hne].
      * rewrite list_lookup_alter_eq in Hd.
        destruct (dbs (loader s) !! i) as [d0|] eqn:Hd0; [|discriminate].
        injection Hd as <-. destruct (Hr _ _ Htj) as (t' & Ht' & Hn').
        exists i, d0, t'. split; [exact Hd0|]. rewrite <- Hn. split; [exact Hdn|].
        split; [exact Ht'|congruence].
      * rewrite list_lookup_alter_ne in Hd by congruence. exists k, d, t. auto.
Qed.

Lemma step_alter s g i :
  (forall d, db_le d (g d)) ->
  step s (set_loader s (set_dbs (loader s) (alter g i (dbs (loader s))))).
Proof. intros H. unfold step. simpl. repeat split; auto using dbs_le_alter. Qed.

(** [insertView] by name. *)
Lemma insertView_exact v s :
  indexed s ->
  exists s' de te,
    insertView v s = Ret s' (de, te) /\ indexed s' /\
    (te = true <-> is_Some (tableIndexMap s !! (schema_of v, name_of v))) /\
    (te = true -> dbs (loader s') = file_view (charSet (loader s)) v (dbs (loader s))) /\
    tableIndexMap s' = tableIndexMap s /\ step s s'.
Proof.
  intros W. unfold insertView, file_view. unfold_M.
  destruct (insertDB_exact (dbFileInfo v) s W)
    as (s1 & i & d & de & -> & W1 & Hdbs & Hd & Hn & _ & Ht1 & S1).
  change (schema_of (dbFileInfo v)) with (schema_of v) in Hn.
  assert (Hcs : charSet (loader s1) = charSet (loader s))
    by (destruct S1 as (_ & _ & _ & _ & _ & H & _); exact H).
  rewrite <- Hdbs, <- Ht1. clear Hdbs.
  change (table_key (TableName v)) with (schema_of v, name_of v).
  destruct (tableIndexMap s1 !! (schema_of v, name_of v)) as [j|] eqn:Hj.
  - eexists _, de, true. split; [reflexivity|].
    set (meta := MDTableMeta.mk _ _ _ _ _ _ _ _).
    set (add := fun d0 => set_Views (MDDatabaseMeta.Views d0 ++ [meta]) d0).
    split; [|split; [|split; [|split]]].
    + apply indexed_alter; [exact W1|reflexivity|reflexivity].
    + split; eauto.
    + intros _. simpl. rewrite (alter_on_db s1 add i d W1 Hd), Hn.
      unfold add, meta, add_view, view_meta. rewrite Hcs. reflexivity.
    + reflexivity.
    + eapply step_trans; [exact S1|]. apply step_alter.
      intros d0. unfold add, db_le. simpl. repeat split; auto.
      intros m Hm. apply elem_of_app. left. exact Hm.
  - exists s1, de, false. split; [reflexivity|]. split; [exact W1|].
    split; [split; [discriminate|intros [x Hx]; discriminate]|].
    split; [discriminate|]. split; [reflexivity|exact S1].
Qed.

(** The body of the data-file loop, by name. *)
Lemma setup_tableData_exact k x s :
  indexed s ->
  exists s',
    setup_tableData k x s = Ret s' tt /\ indexed s' /\
    dbs (loader s') = file_data (charSet (loader s)) x (dbs (loader s)) /\
    tableIndexMap s' !! (schema_of x, name_of x) <> None /\
    step s s'.
Proof.
  intros W. unfold setup_tableData, file_data. unfold_M.
  destruct (insertTable_exact (mkFileInfo (TableName x) zeroFileMeta) s W)
    as (s1 & i & j & d & t & de & te & -> & W1 & Hdbs & Hd & Hn & Ht & Hnt & _ & S1).
  change (schema_of (mkFileInfo (TableName x) zeroFileMeta)) with (schema_of x) in *.
  change (name_of (mkFileInfo (TableName x) zeroFileMeta)) with (name_of x) in *.
  rewrite <- Hdbs. clear Hdbs. unfold update_db. unfold_M.
  set (G := fun d0 => set_Tables (alter (add_DataFile x) j (MDDatabaseMeta.Tables d0)) d0).
  eexists. split; [reflexivity|]. split; [|split; [|split]].
  - apply indexed_alter; [exact W1|reflexivity|].
    intros d0. unfold G, table_names. simpl. apply list_eq. intros n.
    rewrite !list_lookup_fmap. destruct (decide (n = j)) as [->|Hne].
    + rewrite list_lookup_alter_eq.
      destruct (MDDatabaseMeta.Tables d0 !! j); reflexivity.
    + rewrite list_lookup_alter_ne by congruence. reflexivity.
  - simpl. rewrite (alter_on_db s1 G i d W1 Hd), Hn. apply on_db_ext.
    intros d0 [n Hn0]%list_elem_of_lookup Hname.
    assert (n = i) as -> by (eapply (indexed_db_unique s1); eauto; congruence).
    rewrite Hd in Hn0. injection Hn0 as <-. unfold G, add_data.
    rewrite (alter_on_table s1 _ i d j t W1 Hd Ht), Hnt. reflexivity.
  - simpl. intros E.
    assert (E' : tableIndexMap s1 !! (schema_of x, name_of x) = Some j)
      by (apply (proj2 W1); exists i, d, t; auto).
    congruence.
  - eapply step_trans; [exact S1|]. apply step_alter.
    intros d0. apply db_le_add_DataFile.
Qed.

(** The four assembly loops, by name. *)
Lemma dbSchema_loop_exact l : forall k s s',
  indexed s ->
  for_range setup_dbSchema k l s = Ret s' tt ->
  indexed s' /\ step s s' /\ tableIndexMap s' = tableIndexMap s /\
  dbs (loader s')
  = foldl (fun acc f => ensure_db f (charSet (loader s)) acc) (dbs (loader s)) l.
Proof.
  induction l as [|x l IH]; intros k s s' W; simpl; unfold_M.
  - intros [= <-]. auto using step_refl.
  - unfold setup_dbSchema at 1. unfold_M.
    destruct (insertDB_exact x s W) as (s1 & i & d & b & -> & W1 & Hdbs & _ & _ & _ & Ht1 & S1).
    destruct (b && router_is_nil s1); [discriminate|].
    intros Hrun. destruct (IH _ _ _ W1 Hrun) as (W2 & S2 & Ht2 & Hdbs2).
    assert (Hcs : charSet (loader s1) = charSet (loader s))
      by (destruct S1 as (_ & _ & _ & _ & _ & H & _); exact H).
    split; [exact W2|]. split; [eapply step_trans; eassumption|].
    split; [congruence|]. rewrite Hdbs2, Hdbs, Hcs. reflexivity.
Qed.

Lemma tableSchema_loop_exact l : forall k s s',
  indexed s ->
  for_range setup_tableSchema k l s = Ret s' tt ->
  indexed s' /\ step s s' /\
  dbs (loader s')
  = foldl (fun acc f => file_table (charSet (loader s)) f acc) (dbs (loader s)) l.
Proof.
  induction l as [|x l IH]; intros k s s' W; simpl; unfold_M.
  - intros [= <-]. auto using step_refl.
  - unfold setup_tableSchema at 1. unfold_M.
    destruct (insertTable_exact x s W)
      as (s1 & i & j & d & t & de & te & -> & W1 & Hdbs & _ & _ & _ & _ & _ & S1).
    destruct (te && router_is_nil s1); [discriminate|].
    intros Hrun. destruct (IH _ _ _ W1 Hrun) as (W2 & S2 & Hdbs2).
    assert (Hcs : charSet (loader s1) = charSet (loader s))
      by (destruct S1 as (_ & _ & _ & _ & _ & H & _); exact H).
    split; [exact W2|]. split; [eapply step_trans; eassumption|].
    rewrite Hdbs2, Hdbs, Hcs. reflexivity.
Qed.

Lemma viewSchema_loop_exact l : forall k s s',
  indexed s ->
  for_range setup_viewSchema k l s = Ret s' tt ->
  indexed s' /\ step s s' /\ tableIndexMap s' = tableIndexMap s /\
  (forall v, v ∈ l -> is_Some (tableIndexMap s !! (schema_of v, name_of v))) /\
  dbs (loader s')
  = foldl (fun acc v => file_view (charSet (loader s)) v acc) (dbs (loader s)) l.
Proof.
  induction l as [|x l IH]; intros k s s' W; simpl; unfold_M.
  - intros [= <-]. split; [exact W|]. split; [apply step_refl|]. split; [reflexivity|].
    split; [|reflexivity]. intros v Hv. inversion Hv.
  - unfold setup_viewSchema at 1. unfold_M.
    destruct (insertView_exact x s W) as (s1 & de & te & -> & W1 & Hte & Hdbs & Ht1 & S1).
    destruct te; simpl; [|discriminate].
    intros Hrun. destruct (IH _ _ _ W1 Hrun) as (W2 & S2 & Ht2 & Hreg & Hdbs2).
    assert (Hcs : charSet (loader s1) = charSet (loader s))
      by (destruct S1 as (_ & _ & _ & _ & _ & H & _); exact H).
    split; [exact W2|]. split; [eapply step_trans; eassumption|].
    split; [congruence|]. split.
    + intros v [->|Hv]%elem_of_cons; [apply Hte; reflexivity|].
      rewrite <- Ht1. apply Hreg, Hv.
    + rewrite Hdbs2, Hdbs, Hcs by reflexivity. reflexivity.
Qed.

Lemma tableData_loop_exact l : forall k s s',
  indexed s ->
  for_range setup_tableData k l s = Ret s' tt ->
  indexed s' /\ step s s' /\
  dbs (loader s')
  = foldl (fun acc x => file_data (charSet (loader s)) x acc) (dbs (loader s)) l.
Proof.
  induction l as [|x l IH]; intros k s s' W; simpl; unfold_M.
  - intros [= <-]. auto using step_refl.
  - destruct (setup_tableData_exact k x s W) as (s1 & -> & W1 & Hdbs & _ & S1).
    intros Hrun. destruct (IH _ _ _ W1 Hrun) as (W2 & S2 & Hdbs2).
    assert (Hcs : charSet (loader s1) = charSet (loader s))
      by (destruct S1 as (_ & _ & _ & _ & _ & H & _); exact H).
    split; [exact W2|]. split; [eapply step_trans; eassumption|].
    rewrite Hdbs2, Hdbs, Hcs. reflexivity.
Qed.

(** The catalog [assemble] builds on a fresh setup is the one the files of
    the four buckets give by name: the index maps never lead to a database
    or table of another name. *)
Lemma assemble_exact s s' :
  fresh s -> assemble s = Ret s' tt ->
  indexed s' /\ step s s' /\
  (forall v, v ∈ elems (viewSchemas s) ->
     exists f, f ∈ elems (tableSchemas s) /\ key_of f = key_of v) /\
  dbs (loader s')
  = catalog_of (charSet (loader s)) (elems (dbSchemas s)) (elems (tableSchemas s))
               (elems (viewSchemas s)) (elems (tableDatas s)).
Proof.
  intros Hf. pose proof (fresh_indexed s Hf) as W. unfold assemble. unfold_M.
  destruct (for_range setup_dbSchema 0 _ s) as [s1 []|?|?] eqn:H1; try discriminate.
  destruct (for_range setup_tableSchema 0 _ s1) as [s2 []|?|?] eqn:H2; try discriminate.
  destruct (for_range setup_viewSchema 0 _ s2) as [s3 []|?|?] eqn:H3; try discriminate.
  intros H4.
  destruct (dbSchema_loop_exact _ _ _ _ W H1) as (W1 & S1 & T1 & D1).
  destruct (tableSchema_loop_exact _ _ _ _ W1 H2) as (W2 & S2 & D2).
  destruct (viewSchema_loop_exact _ _ _ _ W2 H3) as (W3 & S3 & T3 & R3 & D3).
  destruct (tableData_loop_exact _ _ _ _ W3 H4) as (W4 & S4 & D4).
  pose proof (step_trans _ _ _ S1 S2) as S12.
  pose proof (step_trans _ _ _ S12 S3) as S13.
  pose proof (step_trans _ _ _ S13 S4) as S14.
  destruct S1 as (_ & B1 & _ & _ & _ & C1 & _).
  destruct S12 as (_ & B2 & V2 & _ & _ & C2 & _).
  destruct S13 as (_ & _ & _ & X3 & _ & C3 & _).
  split; [exact W4|]. split; [exact S14|]. split.
  - intros v Hv. rewrite <- V2 in Hv. specialize (R3 v Hv).
    pose proof (tableSchema_loop (elems (tableSchemas s1)) 0 s1 (indexed_valid _ W1)) as L.
    rewrite H2 in L. destruct L as (_ & _ & Hdom).
    apply Hdom in R3. destruct R3 as [R3|R3].
    + rewrite T1 in R3. destruct Hf as (_ & Hte & _). rewrite Hte, lookup_empty in R3.
      destruct R3; discriminate.
    + apply list_elem_of_fmap in R3. destruct R3 as (f & E & Hin).
      exists f. rewrite <- B1. split; [exact Hin|]. symmetry. exact E.
  - unfold catalog_of. rewrite D4, D3, D2, D1, C3, C2, C1, X3, V2, B1.
    destruct Hf as (_ & _ & ->). reflexivity.
Qed.

(** *** Database names *)

Lemma add_name_NoDup n seen : NoDup seen -> NoDup (add_name n seen).
Proof.
  intros H. unfold add_name. destruct (decide _) as [|Hn]; [exact H|].
  apply NoDup_app. split; [exact H|]. split.
  - intros x Hx [->|Hin]%elem_of_cons; [contradiction|inversion Hin].
  - apply NoDup_singleton.
Qed.

Lemma elem_of_add_name x n seen : x ∈ add_name n seen <-> x ∈ seen \/ x = n.
Proof.
  unfold add_name. destruct (decide _) as [Hn|Hn].
  - split; [auto|]. intros [H| ->]; assumption.
  - rewrite elem_of_app, list_elem_of_singleton. reflexivity.
Qed.

Lemma fold_add_name_NoDup names : forall seen,
  NoDup seen -> NoDup (foldl (fun seen n => add_name n seen) seen names).
Proof.
  induction names as [|n names IH]; intros seen H; simpl; [exact H|].
  apply IH, add_name_NoDup, H.
Qed.

Lemma elem_of_fold_add_name x names : forall seen,
  x ∈ foldl (fun seen n => add_name n seen) seen names <-> x ∈ seen \/ x ∈ names.
Proof.
  induction names as [|n names IH]; intros seen; simpl.
  - split; [auto|]. intros [H|H]; [exact H|inversion H].
  - rewrite IH, elem_of_add_name, elem_of_cons. tauto.
Qed.

Lemma first_seen_NoDup names : NoDup (first_seen names).
Proof. apply fold_add_name_NoDup, NoDup_nil_2. Qed.

Lemma elem_of_first_seen x names : x ∈ first_seen names <-> x ∈ names.
Proof.
  unfold first_seen. rewrite elem_of_fold_add_name. split; [|auto].
  intros [H|H]; [inversion H|exact H].
Qed.

Lemma db_names_ensure_db f cs l :
  db_names (ensure_db f cs l) = add_name (schema_of f) (db_names l).
Proof.
  unfold ensure_db, add_name. destruct (decide _); [reflexivity|].
  unfold db_names. rewrite map_app. reflexivity.
Qed.

Lemma db_names_on_db n g l :
  (forall d, MDDatabaseMeta.Name (g d) = MDDatabaseMeta.Name d) ->
  db_names (on_db n g l) = db_names l.
Proof.
  intros Hg. unfold db_names, on_db. rewrite map_map. apply map_ext.
  intros d. destruct (decide _); [apply Hg|reflexivity].
Qed.

Lemma ensure_table_name cs f d :
  MDDatabaseMeta.Name (ensure_table cs f d) = MDDatabaseMeta.Name d.
Proof. unfold ensure_table. destruct (decide _); reflexivity. Qed.

Lemma db_names_file_table cs f l :
  db_names (file_table cs f l) = add_name (schema_of f) (db_names l).
Proof.
  unfold file_table. rewrite db_names_on_db by apply ensure_table_name.
  exact (db_names_ensure_db (dbFileInfo f) cs l).
Qed.

Lemma db_names_file_view cs v l :
  db_names (file_view cs v l) = add_name (schema_of v) (db_names l).
Proof.
  unfold file_view. rewrite db_names_on_db by reflexivity.
  exact (db_names_ensure_db (dbFileInfo v) cs l).
Qed.

Lemma db_names_file_data cs x l :
  db_names (file_data cs x l) = add_name (schema_of x) (db_names l).
Proof.
  unfold file_data. rewrite db_names_on_db by reflexivity.
  exact (db_names_file_table cs (mkFileInfo (TableName x) zeroFileMeta) l).
Qed.

Lemma db_names_fold (op : FileInfo -> list MDDatabaseMeta.t -> list MDDatabaseMeta.t) files :
  (forall f l, db_names (op f l) = add_name (schema_of f) (db_names l)) ->
  forall l, db_names (foldl (fun l f => op f l) l files)
            = foldl (fun seen n => add_name n seen) (db_names l) (map schema_of files).
Proof.
  intros Hop. induction files as [|f files IH]; intros l; simpl; [reflexivity|].
  rewrite IH, Hop. reflexivity.
Qed.

(** The databases of the catalog, in order: the distinct schema names of
    the files, database-schema files first, then table-schema, view-schema
    and data files. *)
Lemma catalog_of_names cs D T V X :
  db_names (catalog_of cs D T V X) = first_seen (map schema_of (D ++ T ++ V ++ X)).
Proof.
  unfold catalog_of, first_seen.
  rewrite (db_names_fold (file_data cs)) by apply db_names_file_data.
  rewrite (db_names_fold (file_view cs)) by apply db_names_file_view.
  rewrite (db_names_fold (file_table cs)) by apply db_names_file_table.
  rewrite (db_names_fold (fun f l => ensure_db f cs l)) by (intros; apply db_names_ensure_db).
  rewrite !map_app, !foldl_app. reflexivity.
Qed.

(** *** Folding with an invariant that follows the processed files *)

Lemma foldl_inv {A B} (op : A -> B -> A) (Q : list B -> A -> Prop) :
  (forall done x a, Q done a -> Q (done ++ [x]) (op a x)) ->
  forall todo a done, Q done a -> Q (done ++ todo) (foldl op a todo).
Proof.
  intros Hop. induction todo as [|x todo IH]; intros a done H; simpl.
  - rewrite app_nil_r. exact H.
  - rewrite cons_middle, app_assoc. apply IH, Hop, H.
Qed.

Lemma foldl_keeps {A B} (op : A -> B -> A) (P : A -> Prop) :
  (forall x a, P a -> P (op a x)) -> forall todo a, P a -> P (foldl op a todo).
Proof.
  intros Hop. induction todo as [|x todo IH]; intros a H; simpl; [exact H|].
  apply IH, Hop, H.
Qed.

Lemma filter_none {A} (P : A -> Prop) `{!forall x, Decision (P x)} (l : list A) :
  (forall x, x ∈ l -> ~ P x) -> filter P l = [].
Proof.
  induction l as [|x l IH]; intros Hall; [reflexivity|].
  rewrite filter_cons_False by (apply Hall; left).
  apply IH. intros y Hy. apply Hall. right. exact Hy.
Qed.

Lemma elem_of_on_db d' n g l :
  d' ∈ on_db n g l <->
  exists d, d ∈ l /\ d' = if decide (MDDatabaseMeta.Name d = n) then g d else d.
Proof.
  unfold on_db. rewrite list_elem_of_fmap. split; intros (d & H1 & H2); exists d; auto.
Qed.

Lemma elem_of_ensure_db d f cs l :
  d ∈ ensure_db f cs l ->
  d ∈ l \/ ((schema_of f ∉ db_names l) /\ d = MDDatabaseMeta.mk (schema_of f) f [] [] cs).
Proof.
  unfold ensure_db. destruct (decide _) as [|Hn]; [auto|].
  intros [H|H]%elem_of_app; [auto|]. apply list_elem_of_singleton in H. auto.
Qed.

Lemma ensure_db_has f cs l : schema_of f ∈ db_names (ensure_db f cs l).
Proof. rewrite db_names_ensure_db. apply elem_of_add_name. auto. Qed.

Lemma ensure_db_keeps f cs l n : n ∈ db_names l -> n ∈ db_names (ensure_db f cs l).
Proof. rewrite db_names_ensure_db. intros H. apply elem_of_add_name. auto. Qed.

(** *** Views *)

Lemma views_ensure_db cs V f l :
  views_described cs V l -> views_described cs V (ensure_db f cs l).
Proof.
  intros [H1 H2]. split.
  - intros d [Hd|[Hn ->]]%elem_of_ensure_db; [apply H1, Hd|]. simpl.
    unfold files_of_schema. rewrite filter_none; [reflexivity|].
    intros v Hv E. apply Hn. rewrite <- E. apply H2, Hv.
  - intros v Hv. apply ensure_db_keeps, H2, Hv.
Qed.

Lemma views_on_db cs V n g l :
  (forall d, MDDatabaseMeta.Name (g d) = MDDatabaseMeta.Name d) ->
  (forall d, MDDatabaseMeta.Views (g d) = MDDatabaseMeta.Views d) ->
  views_described cs V l -> views_described cs V (on_db n g l).
Proof.
  intros Hn Hv [H1 H2]. split.
  - intros d' (d & Hd & ->)%elem_of_on_db. destruct (decide _).
    + rewrite Hn, Hv. apply H1, Hd.
    + apply H1, Hd.
  - intros v Hin. rewrite db_names_on_db by exact Hn. apply H2, Hin.
Qed.

Lemma ensure_table_views cs f d :
  MDDatabaseMeta.Views (ensure_table cs f d) = MDDatabaseMeta.Views d.
Proof. unfold ensure_table. destruct (decide _); reflexivity. Qed.

Lemma views_file_table cs V f l :
  views_described cs V l -> views_described cs V (file_table cs f l).
Proof.
  intros H. unfold file_table.
  apply views_on_db; [apply ensure_table_name|apply ensure_table_views|].
  apply views_ensure_db, H.
Qed.

Lemma views_file_data cs V x l :
  views_described cs V l -> views_described cs V (file_data cs x l).
Proof.
  intros H. unfold file_data. apply views_on_db; [reflexivity|reflexivity|].
  apply views_file_table, H.
Qed.

Lemma views_file_view cs V v l :
  views_described cs V l -> views_described cs (V ++ [v]) (file_view cs v l).
Proof.
  intros H. unfold file_view.
  pose proof (views_ensure_db cs V (dbFileInfo v) l H) as [H1 H2].
  pose proof (ensure_db_has (dbFileInfo v) cs l) as Hhas.
  change (schema_of (dbFileInfo v)) with (schema_of v) in Hhas.
  split.
  - intros d' (d & Hd & ->)%elem_of_on_db. unfold files_of_schema.
    destruct (decide _) as [E|E].
    + simpl. rewrite (H1 d Hd), filter_app, map_app. unfold files_of_schema. f_equal.
      rewrite filter_cons_True by (symmetry; exact E). reflexivity.
    + rewrite (H1 d Hd), filter_app. unfold files_of_schema.
      rewrite (filter_cons_False _ v) by congruence. rewrite filter_nil, app_nil_r.
      reflexivity.
  - intros u [Hu|Hu]%elem_of_app; rewrite db_names_on_db by reflexivity.
    + apply H2, Hu.
    + apply list_elem_of_singleton in Hu. subst u. exact Hhas.
Qed.

(** The views of each database of the catalog. *)
Lemma catalog_of_views cs D T V X : views_described cs V (catalog_of cs D T V X).
Proof.
  unfold catalog_of.
  apply (foldl_keeps (fun l x => file_data cs x l) (views_described cs V)).
  { intros x a. apply views_file_data. }
  apply (foldl_inv (fun l v => file_view cs v l) (views_described cs) ) with (done := []).
  { intros done x a. apply views_file_view. }
  apply (foldl_keeps (fun l f => file_table cs f l) (views_described cs [])).
  { intros x a. apply views_file_table. }
  apply (foldl_keeps (fun l f => ensure_db f cs l) (views_described cs [])).
  { intros x a. apply views_ensure_db. }
  split; intros ? H; inversion H.
Qed.

(** *** Schema files of the databases *)

Lemma head_app_Some {A} (l l' : list A) x : head l = Some x -> head (l ++ l') = Some x.
Proof. destruct l; [discriminate|]. simpl. auto. Qed.

Lemma dbs_ensure_db cs C f l :
  dbs_described cs C l -> dbs_described cs (C ++ [f]) (ensure_db f cs l).
Proof.
  intros [H1 H2]. split.
  - intros d [Hd|[Hn ->]]%elem_of_ensure_db.
    + destruct (H1 d Hd) as [Hh Hc]. split; [|exact Hc].
      unfold files_of_schema. rewrite filter_app. apply head_app_Some, Hh.
    + simpl. split; [|reflexivity]. unfold files_of_schema. rewrite filter_app.
      rewrite (filter_none _ C).
      * rewrite filter_cons_True by reflexivity. reflexivity.
      * intros g Hg E. apply Hn. rewrite <- E. apply H2, Hg.
  - intros g [Hg|Hg]%elem_of_app.
    + apply ensure_db_keeps, H2, Hg.
    + apply list_elem_of_singleton in Hg. subst g. apply ensure_db_has.
Qed.

Lemma dbs_on_db cs C n g l :
  (forall d, MDDatabaseMeta.Name (g d) = MDDatabaseMeta.Name d) ->
  (forall d, MDDatabaseMeta.SchemaFile (g d) = MDDatabaseMeta.SchemaFile d) ->
  (forall d, MDDatabaseMeta.charSet (g d) = MDDatabaseMeta.charSet d) ->
  dbs_described cs C l -> dbs_described cs C (on_db n g l).
Proof.
  intros Hn Hs Hc [H1 H2]. split.
  - intros d' (d & Hd & ->)%elem_of_on_db. destruct (decide _).
    + rewrite Hn, Hs, Hc. apply H1, Hd.
    + apply H1, Hd.
  - intros f Hin. rewrite db_names_on_db by exact Hn. apply H2, Hin.
Qed.

Lemma ensure_table_SchemaFile cs f d :
  MDDatabaseMeta.SchemaFile (ensure_table cs f d) = MDDatabaseMeta.SchemaFile d.
Proof. unfold ensure_table. destruct (decide _); reflexivity. Qed.

Lemma ensure_table_charSet cs f d :
  MDDatabaseMeta.charSet (ensure_table cs f d) = MDDatabaseMeta.charSet d.
Proof. unfold ensure_table. destruct (decide _); reflexivity. Qed.

Lemma dbs_file_table cs C f l :
  dbs_described cs C l -> dbs_described cs (C ++ [dbFileInfo f]) (file_table cs f l).
Proof.
  intros H. unfold file_table.
  apply dbs_on_db;
    [apply ensure_table_name|apply ensure_table_SchemaFile|apply ensure_table_charSet|].
  apply dbs_ensure_db, H.
Qed.

Lemma dbs_file_view cs C v l :
  dbs_described cs C l -> dbs_described cs (C ++ [dbFileInfo v]) (file_view cs v l).
Proof.
  intros H. unfold file_view. apply dbs_on_db; [reflexivity|reflexivity|reflexivity|].
  apply dbs_ensure_db, H.
Qed.

Lemma dbs_file_data cs C x l :
  dbs_described cs C l -> dbs_described cs (C ++ [dbFileInfo x]) (file_data cs x l).
Proof.
  intros H. unfold file_data. apply dbs_on_db; [reflexivity|reflexivity|reflexivity|].
  apply (dbs_file_table cs C (zeroed x)), H.
Qed.

Lemma dbs_fold cs (op : FileInfo -> list MDDatabaseMeta.t -> list MDDatabaseMeta.t) :
  (forall C f l, dbs_described cs C l -> dbs_described cs (C ++ [dbFileInfo f]) (op f l)) ->
  forall files C l,
    dbs_described cs C l ->
    dbs_described cs (C ++ map dbFileInfo files) (foldl (fun l f => op f l) l files).
Proof.
  intros Hop files C l H.
  apply (foldl_inv (fun l f => op f l)
           (fun done l => dbs_described cs (C ++ map dbFileInfo done) l)) with (done := []).
  - intros done x a Ha. rewrite map_app, app_assoc. apply Hop, Ha.
  - simpl. rewrite app_nil_r. exact H.
Qed.

Lemma catalog_of_dbs cs D T V X :
  dbs_described cs (D ++ map dbFileInfo (T ++ V ++ X)) (catalog_of cs D T V X).
Proof.
  unfold catalog_of. rewrite !map_app, !app_assoc.
  apply (dbs_fold cs (file_data cs)); [intros; apply dbs_file_data; assumption|].
  apply (dbs_fold cs (file_view cs)); [intros; apply dbs_file_view; assumption|].
  apply (dbs_fold cs (file_table cs)); [intros; apply dbs_file_table; assumption|].
  apply (foldl_inv (fun l f => ensure_db f cs l) (dbs_described cs)) with (done := []).
  - intros done x a. apply dbs_ensure_db.
  - split; intros ? H; inversion H.
Qed.

(** The schema file of a database: the first database-schema file of its
    name, or the path-less reference a table, view or data file left. *)
Lemma dbs_described_schema_file cs D R l d :
  dbs_described cs (D ++ map dbFileInfo R) l -> d ∈ l ->
  MDDatabaseMeta.SchemaFile d
  = match files_of_schema (MDDatabaseMeta.Name d) D with
    | f :: _ => f
    | [] => mkFileInfo (filter.mkTable (MDDatabaseMeta.Name d) "")
                       (mkSourceFileMeta "" SourceTypeSchemaSchema 0%Z "" 0%Z)
    end.
Proof.
  intros [H1 _] Hd. destruct (H1 d Hd) as [Hh _].
  unfold files_of_schema in *. rewrite filter_app in Hh.
  destruct (filter _ D) as [|f rest].
  - simpl in Hh. apply head_Some_elem_of in Hh.
    apply list_elem_of_filter in Hh. destruct Hh as [Hn Hin].
    apply list_elem_of_fmap in Hin. destruct Hin as (h & E & _).
    rewrite E in *. unfold schema_of in Hn. simpl in Hn. rewrite <- Hn. reflexivity.
  - simpl in Hh. congruence.
Qed.

(** *** Tables *)

Lemma elem_of_on_table t' n g ts :
  t' ∈ on_table n g ts <->
  exists t, t ∈ ts /\ t' = if decide (MDTableMeta.Name t = n) then g t else t.
Proof.
  unfold on_table. rewrite list_elem_of_fmap. split; intros (t & H1 & H2); exists t; auto.
Qed.

Lemma table_names_on_table n g ts :
  (forall t, MDTableMeta.Name (g t) = MDTableMeta.Name t) ->
  table_names (on_table n g ts) = table_names ts.
Proof.
  intros Hg. unfold table_names, on_table. rewrite map_map. apply map_ext.
  intros t. destruct (decide _); [apply Hg|reflexivity].
Qed.

Lemma ensure_table_keeps cs f d n :
  n ∈ table_names (MDDatabaseMeta.Tables d) ->
  n ∈ table_names (MDDatabaseMeta.Tables (ensure_table cs f d)).
Proof.
  unfold ensure_table. destruct (decide _); [auto|]. simpl. unfold table_names.
  rewrite map_app, elem_of_app. auto.
Qed.

Lemma ensure_table_has cs f d :
  name_of f ∈ table_names (MDDatabaseMeta.Tables (ensure_table cs f d)).
Proof.
  unfold ensure_table. destruct (decide _) as [H|H]; [exact H|]. simpl. unfold table_names.
  rewrite map_app, elem_of_app. right. simpl. apply list_elem_of_singleton. reflexivity.
Qed.

Lemma table_described_more cs C C' X db t :
  table_described cs C X db t -> table_described cs (C ++ C') X db t.
Proof.
  intros (A & B & R). split; [exact A|]. split; [|exact R].
  unfold files_named. rewrite filter_app. apply head_app_Some, B.
Qed.

Lemma table_described_other cs C X x db t :
  table_described cs C X db t -> key_of x <> (db, MDTableMeta.Name t) ->
  table_described cs C (X ++ [x]) db t.
Proof.
  intros (A & B & F & R) Hne. split; [exact A|]. split; [exact B|]. split; [|exact R].
  unfold files_named. rewrite filter_app, (filter_cons_False _ x) by exact Hne.
  rewrite filter_nil, app_nil_r. exact F.
Qed.

Lemma tables_ensure_db cs C X f l :
  tables_described cs C X l -> tables_described cs C X (ensure_db f cs l).
Proof.
  intros (H1 & H2 & H3). split; [|split; [|exact H3]].
  - intros d [Hd|[Hn ->]]%elem_of_ensure_db; [apply H1, Hd|]. simpl.
    split; [apply NoDup_nil_2|]. intros t Ht. inversion Ht.
  - intros g Hg. destruct (H2 g Hg) as [Hin Hall]. split; [apply ensure_db_keeps, Hin|].
    intros d [Hd|[Hn ->]]%elem_of_ensure_db E; [apply Hall; assumption|].
    simpl in E. exfalso. apply Hn. rewrite E. exact Hin.
Qed.

Lemma tables_on_db_same cs C X n g l :
  (forall d, MDDatabaseMeta.Name (g d) = MDDatabaseMeta.Name d) ->
  (forall d, MDDatabaseMeta.Tables (g d) = MDDatabaseMeta.Tables d) ->
  tables_described cs C X l -> tables_described cs C X (on_db n g l).
Proof.
  intros Hn Ht (H1 & H2 & H3). split; [|split; [|exact H3]].
  - intros d' (d & Hd & ->)%elem_of_on_db. destruct (decide _).
    + rewrite Hn, Ht. apply H1, Hd.
    + apply H1, Hd.
  - intros f Hf. destruct (H2 f Hf) as [Hin Hall].
    split; [rewrite db_names_on_db by exact Hn; exact Hin|].
    intros d' (d & Hd & ->)%elem_of_on_db. destruct (decide _).
    + rewrite Hn, Ht. apply Hall, Hd.
    + apply Hall, Hd.
Qed.

Lemma tables_file_view cs C X v l :
  tables_described cs C X l -> tables_described cs C X (file_view cs v l).
Proof.
  intros H. unfold file_view. apply tables_on_db_same; [reflexivity|reflexivity|].
  apply tables_ensure_db, H.
Qed.

(** A (schema, table) name no file of [C] has is the name of no table, and
    of no data file. *)
Lemma tables_described_absent cs C X l d f :
  tables_described cs C X l -> d ∈ l -> MDDatabaseMeta.Name d = schema_of f ->
  name_of f ∉ table_names (MDDatabaseMeta.Tables d) ->
  files_named (MDDatabaseMeta.Name d) (name_of f) C = [] /\
  files_named (MDDatabaseMeta.Name d) (name_of f) X = [].
Proof.
  intros (H1 & H2 & H3) Hd E Hnin.
  assert (HC : forall g, g ∈ C -> key_of g <> (MDDatabaseMeta.Name d, name_of f)).
  { intros g Hg Hk. apply Hnin. injection Hk as Hs Hn.
    fold (schema_of g) in Hs. fold (name_of g) in Hn. rewrite <- Hn.
    apply (proj2 (H2 g Hg)); [exact Hd|]. congruence. }
  split; apply filter_none.
  - exact HC.
  - intros x Hx Hk. apply H3 in Hx. apply list_elem_of_fmap in Hx.
    destruct Hx as (g & Eg & Hg). apply (HC g Hg). congruence.
Qed.

Lemma tables_file_table cs C X f l :
  tables_described cs C X l -> tables_described cs (C ++ [f]) X (file_table cs f l).
Proof.
  intros H. unfold file_table.
  pose proof (tables_ensure_db cs C X (dbFileInfo f) l H) as K.
  pose proof (ensure_db_has (dbFileInfo f) cs l) as Hhas.
  change (schema_of (dbFileInfo f)) with (schema_of f) in Hhas.
  set (l1 := ensure_db (dbFileInfo f) cs l) in *. clearbody l1. clear H.
  pose proof K as (K1 & K2 & K3). split; [|split].
  - intros d' (d & Hd & ->)%elem_of_on_db. destruct (K1 d Hd) as [Hnd Ht].
    destruct (decide _) as [E|E].
    + unfold ensure_table. destruct (decide _) as [Hin|Hnin].
      * split; [exact Hnd|]. intros t Ht0. apply table_described_more, Ht, Ht0.
      * destruct (tables_described_absent cs C X l1 d f K Hd E Hnin) as [HC HX].
        simpl. split.
        -- unfold table_names in *. rewrite map_app. apply NoDup_app.
           split; [exact Hnd|]. split; [|apply NoDup_singleton].
           intros n Hn [->|Hx]%elem_of_cons; [contradiction|inversion Hx].
        -- intros t [Ht0|Ht0]%elem_of_app; [apply table_described_more, Ht, Ht0|].
           apply list_elem_of_singleton in Ht0. subst t.
           unfold table_described. simpl. fold (schema_of f) (name_of f).
           split; [congruence|]. split.
           { unfold files_named in *. rewrite filter_app, HC.
             rewrite filter_cons_True by (unfold key_of, table_key; fold (schema_of f) (name_of f); congruence).
             reflexivity. }
           split; [symmetry; exact HX|]. auto.
    + split; [exact Hnd|]. intros t Ht0. apply table_described_more, Ht, Ht0.
  - intros g [Hg|Hg]%elem_of_app.
    + destruct (K2 g Hg) as [Hin Hall].
      split; [rewrite db_names_on_db by apply ensure_table_name; exact Hin|].
      intros d' (d & Hd & ->)%elem_of_on_db. destruct (decide _).
      * rewrite ensure_table_name. intros E. apply ensure_table_keeps, Hall; assumption.
      * apply Hall, Hd.
    + apply list_elem_of_singleton in Hg. subst g.
      split; [rewrite db_names_on_db by apply ensure_table_name; exact Hhas|].
      intros d' (d & Hd & ->)%elem_of_on_db. destruct (decide _) as [E|E].
      * intros _. apply ensure_table_has.
      * intros E'. contradiction.
  - intros x Hx. rewrite map_app, elem_of_app. left. apply K3, Hx.
Qed.

Lemma total_size_snoc files x :
  total_size (files ++ [x]) = int64_add (total_size files) (FileSize (FileMeta x)).
Proof. unfold total_size. rewrite foldl_app. reflexivity. Qed.

Lemma tables_add_data cs C X x l :
  tables_described cs C X l -> key_of x ∈ map key_of C ->
  tables_described cs C (X ++ [x]) (on_db (schema_of x) (add_data x) l).
Proof.
  intros (H1 & H2 & H3) Hkey. split; [|split].
  - intros d' (d & Hd & ->)%elem_of_on_db. destruct (H1 d Hd) as [Hnd Ht].
    destruct (decide _) as [E|E].
    + unfold add_data. simpl. split.
      * rewrite table_names_on_table by reflexivity. exact Hnd.
      * intros t' (t & Ht0 & ->)%elem_of_on_table.
        destruct (Ht t Ht0) as (A & B & F & S & R).
        destruct (decide _) as [En|En].
        -- unfold table_described, add_DataFile. simpl.
           split; [exact A|]. split; [exact B|]. split; [|split; [|exact R]].
           ++ unfold files_named in *. rewrite filter_app, F.
              rewrite filter_cons_True
                by (unfold key_of, table_key; fold (schema_of x) (name_of x); congruence).
              reflexivity.
           ++ rewrite total_size_snoc, S. reflexivity.
        -- apply table_described_other; [apply Ht, Ht0|].
           unfold key_of, table_key. fold (name_of x). congruence.
    + split; [exact Hnd|]. intros t Ht0. apply table_described_other; [apply Ht, Ht0|].
      unfold key_of, table_key. fold (schema_of x). congruence.
  - intros f Hf. destruct (H2 f Hf) as [Hin Hall].
    split; [rewrite db_names_on_db by reflexivity; exact Hin|].
    intros d' (d & Hd & ->)%elem_of_on_db. destruct (decide _).
    + simpl. rewrite table_names_on_table by reflexivity. apply Hall, Hd.
    + apply Hall, Hd.
  - intros y [Hy|Hy]%elem_of_app; [apply H3, Hy|].
    apply list_elem_of_singleton in Hy. subst y. exact Hkey.
Qed.

Lemma tables_file_data cs C X x l :
  tables_described cs C X l ->
  tables_described cs (C ++ [zeroed x]) (X ++ [x]) (file_data cs x l).
Proof.
  intros H. unfold file_data. apply tables_add_data.
  - apply (tables_file_table cs C X (zeroed x)), H.
  - rewrite map_app, elem_of_app. right. apply list_elem_of_singleton. reflexivity.
Qed.

(** The tables of the catalog, with the table-schema files and the
    placeholders of the data files as the files that can create one. *)
Lemma catalog_of_tables cs D T V X :
  tables_described cs (T ++ map zeroed X) X (catalog_of cs D T V X).
Proof.
  unfold catalog_of.
  apply (foldl_inv (fun l x => file_data cs x l)
           (fun done l => tables_described cs (T ++ map zeroed done) done l)) with (done := []).
  { intros done x a Ha. rewrite map_app, app_assoc. apply tables_file_data, Ha. }
  simpl. rewrite app_nil_r.
  apply (foldl_keeps (fun l v => file_view cs v l) (tables_described cs T [])).
  { intros v a. apply tables_file_view. }
  apply (foldl_inv (fun l f => file_table cs f l)
           (fun done l => tables_described cs done [] l)) with (done := []).
  { intros done f a. apply tables_file_table. }
  apply (foldl_keeps (fun l f => ensure_db f cs l) (tables_described cs [] [])).
  { intros f a. apply tables_ensure_db. }
  split; [|split]; intros ? H; inversion H.
Qed.

(** The schema file of a table: the first table-schema file of its name, or
    the placeholder of a data file. *)
Lemma table_described_schema_file cs T X db t :
  table_described cs (T ++ map zeroed X) X db t ->
  MDTableMeta.SchemaFile t
  = match files_named db (MDTableMeta.Name t) T with
    | f :: _ => f
    | [] => mkFileInfo (filter.mkTable db (MDTableMeta.Name t)) zeroFileMeta
    end.
Proof.
  intros (_ & Hh & _). unfold files_named in *. rewrite filter_app in Hh.
  destruct (filter _ T) as [|f rest].
  - simpl in Hh. apply head_Some_elem_of in Hh.
    apply list_elem_of_filter in Hh. destruct Hh as [Hk Hin].
    apply list_elem_of_fmap in Hin. destruct Hin as (x & E & _).
    rewrite E in *. unfold key_of, table_key, zeroed in Hk. simpl in Hk.
    unfold zeroed. destruct (TableName x) as [a b]. simpl in Hk.
    injection Hk as <- <-. reflexivity.
  - simpl in Hh. congruence.
Qed.

(** *** The sorting loop *)

Lemma sort_db_Tables_elem d t' :
  t' ∈ MDDatabaseMeta.Tables (sort_db d) <->
  exists t, t ∈ MDDatabaseMeta.Tables d /\ t' = sort_DataFiles t.
Proof.
  unfold sort_db. simpl. rewrite list_elem_of_fmap.
  destruct (sort_Tables_spec (MDDatabaseMeta.Tables d)) as (Hperm & _).
  split.
  - intros (t & E & Hin). exists t. split; [|exact E]. rewrite <- Hperm. exact Hin.
  - intros (t & Hin & E). exists t. split; [exact E|]. rewrite Hperm. exact Hin.
Qed.

Lemma table_names_sort_db d :
  table_names (MDDatabaseMeta.Tables (sort_db d)) ≡ₚ table_names (MDDatabaseMeta.Tables d).
Proof.
  unfold sort_db, table_names. simpl. rewrite map_map. simpl.
  destruct (sort_Tables_spec (MDDatabaseMeta.Tables d)) as (Hperm & _).
  apply fmap_Permutation, Hperm.
Qed.

Lemma db_names_sort_db l : db_names (map sort_db l) = db_names l.
Proof. unfold db_names. rewrite map_map. reflexivity. Qed.

Section CatalogSpec.

Variable growslice : nat -> nat.
Variable Table_String : filter.Table -> string.

(** The catalog a load returns is the sorted by-name catalog of the routed
    buckets. *)
Lemma load_catalog_of st f r fr cs opts mdl err :
  NewMyDumpLoaderWithStore growslice Table_String st f r fr cs opts
    = Returned (Some mdl) err ->
  exists s,
    load_buckets growslice Table_String st f r fr cs opts err s /\
    dbs mdl = map sort_db (catalog_of cs (elems (dbSchemas s)) (elems (tableSchemas s))
                                      (elems (viewSchemas s)) (elems (tableDatas s))).
Proof.
  intros H. destruct (load_catalog growslice Table_String _ _ _ _ _ _ _ _ H)
    as (s1 & s2 & s3 & HL & _ & HR & HA & ->).
  pose proof (listFiles_untouched growslice _ _ _ _ HL) as U1.
  pose proof (route_untouched growslice Table_String _ _ HR) as U2.
  pose proof (untouched_trans _ _ _ U1 U2) as U.
  assert (Hf : fresh s2).
  { eapply fresh_untouched; [exact U|]. repeat split. }
  destruct (assemble_exact s2 s3 Hf HA) as (_ & _ & _ & Hdbs).
  exists s2. split; [exists s1; auto|].
  simpl. rewrite Hdbs. destruct U as (-> & _). reflexivity.
Qed.

(** X7: the databases of a returned catalog are the distinct schema names
    of the routed files in the order in which the assembler first meets
    them (database-schema files, then table-schema, view-schema and data
    files); no two databases have the same name. *)
Theorem catalog_database_order st f r fr cs opts mdl err :
  NewMyDumpLoaderWithStore growslice Table_String st f r fr cs opts
    = Returned (Some mdl) err ->
  exists s,
    load_buckets growslice Table_String st f r fr cs opts err s /\
    db_names (dbs mdl) = first_seen (map schema_of (assembly_order s)) /\
    NoDup (db_names (dbs mdl)).
Proof.
  intros H. destruct (load_catalog_of _ _ _ _ _ _ _ _ H) as (s & Hb & ->).
  exists s. split; [exact Hb|].
  rewrite db_names_sort_db, catalog_of_names.
  split; [reflexivity|apply first_seen_NoDup].
Qed.

(** X8: the views of each database of a returned catalog are exactly the
    routed view-schema files of that schema name, in scan order, each as a
    table entry without data. *)
Theorem catalog_views st f r fr cs opts mdl err :
  NewMyDumpLoaderWithStore growslice Table_String st f r fr cs opts
    = Returned (Some mdl) err ->
  exists s,
    load_buckets growslice Table_String st f r fr cs opts err s /\
    forall d, d ∈ dbs mdl ->
      MDDatabaseMeta.Views d
      = map (view_meta cs) (files_of_schema (MDDatabaseMeta.Name d) (elems (viewSchemas s))).
Proof.
  intros H. destruct (load_catalog_of _ _ _ _ _ _ _ _ H) as (s & Hb & ->).
  exists s. split; [exact Hb|].
  intros d' (d & -> & Hd)%list_elem_of_fmap.
  apply (proj1 (catalog_of_views cs _ _ _ _) d Hd).
Qed.

(** X9: in a returned catalog the tables of a database have pairwise
    distinct names, each records the database's name as its own, and a
    database has a table of a given name exactly when some routed
    table-schema or data file has that (schema, table) name. *)
Theorem catalog_tables st f r fr cs opts mdl err :
  NewMyDumpLoaderWithStore growslice Table_String st f r fr cs opts
    = Returned (Some mdl) err ->
  exists s,
    load_buckets growslice Table_String st f r fr cs opts err s /\
    forall d, d ∈ dbs mdl ->
      NoDup (table_names (MDDatabaseMeta.Tables d)) /\
      (forall t, t ∈ MDDatabaseMeta.Tables d -> MDTableMeta.DB t = MDDatabaseMeta.Name d) /\
      (forall tbl, tbl ∈ table_names (MDDatabaseMeta.Tables d) <->
         (MDDatabaseMeta.Name d, tbl)
           ∈ map key_of (elems (tableSchemas s) ++ elems (tableDatas s))).
Proof.
  intros H. destruct (load_catalog_of _ _ _ _ _ _ _ _ H) as (s & Hb & ->).
  exists s. split; [exact Hb|].
  intros d' (d & -> & Hd)%list_elem_of_fmap.
  destruct (catalog_of_tables cs (elems (dbSchemas s)) (elems (tableSchemas s))
              (elems (viewSchemas s)) (elems (tableDatas s))) as (H1 & H2 & _).
  destruct (H1 d Hd) as [Hnd Ht]. split; [|split].
  - rewrite table_names_sort_db. exact Hnd.
  - intros t' (t & Ht0 & ->)%sort_db_Tables_elem. apply (Ht t Ht0).
  - intros tbl. rewrite table_names_sort_db. change (MDDatabaseMeta.Name (sort_db d))
      with (MDDatabaseMeta.Name d). split.
    + intros (t & -> & Ht0)%list_elem_of_fmap.
      destruct (Ht t Ht0) as (_ & Hh & _).
      apply head_Some_elem_of, list_elem_of_filter in Hh. destruct Hh as [Hk Hin].
      rewrite <- Hk. rewrite map_app, elem_of_app.
      apply elem_of_app in Hin. destruct Hin as [Hin|Hin].
      * left. apply list_elem_of_fmap. eauto.
      * right. apply list_elem_of_fmap in Hin. destruct Hin as (x & -> & Hx).
        apply list_elem_of_fmap. exists x. split; [reflexivity|exact Hx].
    + intros (g & Hk & Hin)%list_elem_of_fmap. injection Hk as Hs Hn.
      assert (G : forall c, c ∈ elems (tableSchemas s) ++ map zeroed (elems (tableDatas s)) ->
                  schema_of c = schema_of g -> name_of c = name_of g ->
                  tbl ∈ table_names (MDDatabaseMeta.Tables d)).
      { intros c Hc Es En. rewrite Hn. fold (name_of g). rewrite <- En.
        apply (proj2 (H2 c Hc)); [exact Hd|]. rewrite Es. exact Hs. }
      apply elem_of_app in Hin. destruct Hin as [Hin|Hin].
      * apply (G g); [apply elem_of_app; auto|reflexivity|reflexivity].
      * apply (G (zeroed g)); [|reflexivity|reflexivity].
        apply elem_of_app. right. apply list_elem_of_fmap. eauto.
Qed.

(** X10: in a returned catalog the data files of a table are exactly the
    routed data files of its (schema, table) name, stably sorted by sort
    key; its total size is the sum, with the wrap-around of int64, of their
    sizes; and every routed data file is a data file of the table of its
    name. *)
Theorem catalog_data_files st f r fr cs opts mdl err :
  NewMyDumpLoaderWithStore growslice Table_String st f r fr cs opts
    = Returned (Some mdl) err ->
  exists s,
    load_buckets growslice Table_String st f r fr cs opts err s /\
    (forall d t, d ∈ dbs mdl -> t ∈ MDDatabaseMeta.Tables d ->
       stable_sort_of (fun x => SortKey (FileMeta x)) (fun j k => String.leb j k = true)
         (files_named (MDDatabaseMeta.Name d) (MDTableMeta.Name t) (elems (tableDatas s)))
         (MDTableMeta.DataFiles t) /\
       MDTableMeta.TotalSize t
       = total_size (files_named (MDDatabaseMeta.Name d) (MDTableMeta.Name t)
                                 (elems (tableDatas s)))) /\
    (forall x, x ∈ elems (tableDatas s) ->
       exists d t, d ∈ dbs mdl /\ t ∈ MDDatabaseMeta.Tables d /\
                   MDDatabaseMeta.Name d = schema_of x /\ MDTableMeta.Name t = name_of x /\
                   x ∈ MDTableMeta.DataFiles t).
Proof.
  intros H. destruct (load_catalog_of _ _ _ _ _ _ _ _ H) as (s & Hb & ->).
  exists s. split; [exact Hb|].
  pose proof (catalog_of_tables cs (elems (dbSchemas s)) (elems (tableSchemas s))
                (elems (viewSchemas s)) (elems (tableDatas s))) as (H1 & H2 & _).
  split.
  - intros d' t' (d & -> & Hd)%list_elem_of_fmap (t & Ht0 & ->)%sort_db_Tables_elem.
    destruct (H1 d Hd) as [_ Ht]. destruct (Ht t Ht0) as (_ & _ & F & S & _).
    change (MDDatabaseMeta.Name (sort_db d)) with (MDDatabaseMeta.Name d).
    change (MDTableMeta.Name (sort_DataFiles t)) with (MDTableMeta.Name t).
    rewrite <- F. split; [apply sort_DataFiles_spec|exact S].
  - intros x Hx.
    assert (Hz : zeroed x ∈ elems (tableSchemas s) ++ map zeroed (elems (tableDatas s))).
    { apply elem_of_app. right. apply list_elem_of_fmap. eauto. }
    destruct (H2 _ Hz) as [Hin Hall].
    change (schema_of (zeroed x)) with (schema_of x) in *.
    change (name_of (zeroed x)) with (name_of x) in *.
    apply list_elem_of_fmap in Hin. destruct Hin as (d & Hn & Hd).
    pose proof (Hall d Hd (eq_sym Hn)) as Ht.
    apply list_elem_of_fmap in Ht. destruct Ht as (t & Hnt & Ht0).
    exists (sort_db d), (sort_DataFiles t).
    split; [apply list_elem_of_fmap; eauto|].
    split; [apply sort_db_Tables_elem; eauto|].
    split; [symmetry; exact Hn|]. split; [symmetry; exact Hnt|].
    destruct (H1 d Hd) as [_ Hdesc]. destruct (Hdesc t Ht0) as (_ & _ & F & _).
    simpl. destruct (sort_DataFiles_spec (MDTableMeta.DataFiles t)) as (Hperm & _).
    rewrite Hperm, F. apply list_elem_of_filter. split; [|exact Hx].
    unfold key_of, table_key. fold (schema_of x) (name_of x). congruence.
Qed.

(** X11: in a returned catalog the schema file of a database is the first
    routed database-schema file of its name, or a path-less reference when
    there is none; the schema file of a table is the first routed
    table-schema file of its name, or a reference without metadata when
    the table has data files only.  Databases and tables carry the
    character set of the loader. *)
Theorem catalog_schema_files st f r fr cs opts mdl err :
  NewMyDumpLoaderWithStore growslice Table_String st f r fr cs opts
    = Returned (Some mdl) err ->
  exists s,
    load_buckets growslice Table_String st f r fr cs opts err s /\
    forall d, d ∈ dbs mdl ->
      MDDatabaseMeta.SchemaFile d
      = match files_of_schema (MDDatabaseMeta.Name d) (elems (dbSchemas s)) with
        | f :: _ => f
        | [] => mkFileInfo (filter.mkTable (MDDatabaseMeta.Name d) "")
                           (mkSourceFileMeta "" SourceTypeSchemaSchema 0%Z "" 0%Z)
        end /\
      MDDatabaseMeta.charSet d = cs /\
      forall t, t ∈ MDDatabaseMeta.Tables d ->
        MDTableMeta.SchemaFile t
        = match files_named (MDDatabaseMeta.Name d) (MDTableMeta.Name t)
                            (elems (tableSchemas s)) with
          | f :: _ => f
          | [] => mkFileInfo (filter.mkTable (MDDatabaseMeta.Name d) (MDTableMeta.Name t))
                             zeroFileMeta
          end /\
        MDTableMeta.charSet t = cs.
Proof.
  intros H. destruct (load_catalog_of _ _ _ _ _ _ _ _ H) as (s & Hb & ->).
  exists s. split; [exact Hb|].
  intros d' (d & -> & Hd)%list_elem_of_fmap.
  pose proof (catalog_of_dbs cs (elems (dbSchemas s)) (elems (tableSchemas s))
                (elems (viewSchemas s)) (elems (tableDatas s))) as HD.
  pose proof (catalog_of_tables cs (elems (dbSchemas s)) (elems (tableSchemas s))
                (elems (viewSchemas s)) (elems (tableDatas s))) as (H1 & _).
  split; [|split].
  - apply (dbs_described_schema_file _ _ _ _ d HD Hd).
  - apply (proj1 HD d Hd).
  - intros t' (t & Ht0 & ->)%sort_db_Tables_elem.
    destruct (H1 d Hd) as [_ Ht]. specialize (Ht t Ht0).
    split; [apply (table_described_schema_file _ _ _ _ _ Ht)|].
    destruct Ht as (_ & _ & _ & _ & Hc & _). exact Hc.
Qed.

End CatalogSpec.

(** ** Schema text of a loaded catalog *)

Section LoadedSchemaText.

Variable growslice : nat -> nat.
Variable Table_String : filter.Table -> string.
Variable EscapeIdentifier : string -> string.
Variable ExportStatement : ExternalStorage -> FileInfo -> string -> error + string.

(** X12: what the accessors answer for the entries of a returned catalog
    that no schema file stands behind.  A database that got into the
    catalog through its tables, views or data files only has the
    synthesized statement as its schema; a table that has data files only
    has no schema: its accessor fails with the error that names it. *)
Theorem loaded_without_schema_file st f r fr cs opts mdl err (from : ExternalStorage) :
  NewMyDumpLoaderWithStore growslice Table_String st f r fr cs opts
    = Returned (Some mdl) err ->
  exists s,
    load_buckets growslice Table_String st f r fr cs opts err s /\
    forall d, d ∈ dbs mdl ->
      (files_of_schema (MDDatabaseMeta.Name d) (elems (dbSchemas s)) = [] ->
       MDDatabaseMeta_GetSchema EscapeIdentifier ExportStatement d from
       = ("CREATE DATABASE IF NOT EXISTS " ++ EscapeIdentifier (MDDatabaseMeta.Name d))%string) /\
      forall t, t ∈ MDDatabaseMeta.Tables d ->
        files_named (MDDatabaseMeta.Name d) (MDTableMeta.Name t) (elems (tableSchemas s)) = [] ->
        MDTableMeta_GetSchema ExportStatement t from
        = ("", Some (Errorf ("schema file is missing for the table '"
                               ++ MDDatabaseMeta.Name d ++ "." ++ MDTableMeta.Name t ++ "'"))).
Proof.
  intros H. destruct (load_catalog_of growslice Table_String _ _ _ _ _ _ _ _ H) as (s & Hb & ->).
  exists s. split; [exact Hb|].
  intros d' (d & -> & Hd)%list_elem_of_fmap.
  pose proof (catalog_of_dbs cs (elems (dbSchemas s)) (elems (tableSchemas s))
                (elems (viewSchemas s)) (elems (tableDatas s))) as HD.
  pose proof (catalog_of_tables cs (elems (dbSchemas s)) (elems (tableSchemas s))
                (elems (viewSchemas s)) (elems (tableDatas s))) as (H1 & _).
  change (MDDatabaseMeta.Name (sort_db d)) with (MDDatabaseMeta.Name d).
  split.
  - intros Hnone. unfold MDDatabaseMeta_GetSchema.
    change (MDDatabaseMeta.SchemaFile (sort_db d)) with (MDDatabaseMeta.SchemaFile d).
    rewrite (dbs_described_schema_file _ _ _ _ d HD Hd), Hnone. reflexivity.
  - intros t' (t & Ht0 & ->)%sort_db_Tables_elem.
    change (MDTableMeta.Name (sort_DataFiles t)) with (MDTableMeta.Name t).
    intros Hnone. destruct (H1 d Hd) as [_ Ht]. specialize (Ht t Ht0).
    unfold MDTableMeta_GetSchema.
    change (MDTableMeta.SchemaFile (sort_DataFiles t)) with (MDTableMeta.SchemaFile t).
    change (MDTableMeta.DB (sort_DataFiles t)) with (MDTableMeta.DB t).
    rewrite (table_described_schema_file _ _ _ _ _ Ht), Hnone.
    destruct Ht as (-> & _). reflexivity.
Qed.

End LoadedSchemaText.

(** ** Finding again what was inserted *)

(** X13: on a setup whose index maps describe its catalog, [insertDB] and
    [insertTable] are idempotent: a second call for the same file returns
    the same database (the same table), reports it as existing, and leaves
    the catalog and both index maps as the first call left them. *)
Theorem insert_found_again (f : FileInfo) (s : mdLoaderSetup) :
  indexed s ->
  (forall s' i b, insertDB f s = Ret s' (i, b) -> insertDB f s' = Ret s' (i, true)) /\
  (forall s' i j de te,
     insertTable f s = Ret s' ((i, j), de, te) ->
     insertTable f s' = Ret s' ((i, j), true, true)).
Proof.
  intros W. split.
  - intros s' i b H.
    destruct (insertDB_exact f s W) as (s1 & i1 & d & b1 & E & W1 & _ & Hd & Hn & _).
    rewrite H in E. injection E as <- <- <-.
    unfold insertDB. fold (schema_of f).
    rewrite (proj2 (proj1 W1 (schema_of f) i)) by eauto.
    rewrite Hd. reflexivity.
  - intros s' i j de te H.
    destruct (insertTable_exact f s W)
      as (s1 & i1 & j1 & d & t & de1 & te1 & E & W1 & _ & Hd & Hn & Ht & Hnt & _).
    rewrite H in E. injection E as <- <- <- <- <-.
    unfold insertTable, insertDB. unfold_M.
    change (filter.Schema (TableName (dbFileInfo f))) with (schema_of f).
    rewrite (proj2 (proj1 W1 (schema_of f) i)) by eauto.
    rewrite Hd. change (table_key (TableName f)) with (schema_of f, name_of f).
    rewrite (proj2 (proj2 W1 (schema_of f) (name_of f) j)) by (exists i, d, t; auto).
    rewrite Hd, Ht. reflexivity.
Qed.

(** ** The text of a database schema *)

Section DatabaseSchemaText.

Variable EscapeIdentifier : string -> string.
Variable ExportStatement : ExternalStorage -> FileInfo -> string -> error + string.

(** X14: the database accessor always yields a statement: its result is
    never the empty text; it is either the synthesized default or the
    white-space-trimmed text extracted from the schema file. *)
Theorem database_schema_never_empty (m : MDDatabaseMeta.t) (st : ExternalStorage) :
  MDDatabaseMeta_GetSchema EscapeIdentifier ExportStatement m st <> "" /\
  (MDDatabaseMeta_GetSchema EscapeIdentifier ExportStatement m st
     = default_database_schema EscapeIdentifier m \/
   exists schema,
     Path (FileMeta (MDDatabaseMeta.SchemaFile m)) <> "" /\
     ExportStatement st (MDDatabaseMeta.SchemaFile m) (MDDatabaseMeta.charSet m)
       = inr schema /\
     MDDatabaseMeta_GetSchema EscapeIdentifier ExportStatement m st = TrimSpace schema).
Proof.
  assert (Hdef : default_database_schema EscapeIdentifier m <> "")
    by (unfold default_database_schema; simpl; discriminate).
  unfold MDDatabaseMeta_GetSchema.
  destruct (String.eqb (Path _) "") eqn:Hp; simpl; [auto|].
  destruct (ExportStatement st _ _) as [err|schema] eqn:Hx; [auto|].
  destruct (String.eqb (TrimSpace schema) "") eqn:Ht; simpl; [auto|].
  apply String.eqb_neq in Ht, Hp. split; [exact Ht|]. right. exists schema. auto.
Qed.

End DatabaseSchemaText.

(** ** Panics *)

(** The view-schema loop does not panic. *)
Lemma viewSchema_loop_safe l : forall i s,
  indexes_valid s ->
  match for_range setup_viewSchema i l s with
  | Ret s' _ => indexes_valid s'
  | Fail _ _ => True
  | Crash _ => False
  end.
Proof.
  induction l as [|x l IH]; intros i s W; simpl; unfold_M; [exact W|].
  unfold setup_viewSchema at 1. unfold_M.
  destruct (insertView_spec x s W) as (s1 & de & te & -> & W1 & _).
  destruct te; simpl; [apply IH, W1|exact I].
Qed.

(** The assembly loops do not panic on a fresh setup. *)
Lemma assemble_safe s reason : fresh s -> assemble s <> Crash reason.
Proof.
  intros Hf. pose proof (fresh_indexes_valid s Hf) as W. unfold assemble. unfold_M.
  pose proof (dbSchema_loop (elems (dbSchemas s)) 0 s W) as L1.
  destruct (for_range setup_dbSchema 0 _ s) as [s1 []|?|?]; [|discriminate|contradiction].
  destruct L1 as (W1 & _).
  pose proof (tableSchema_loop (elems (tableSchemas s1)) 0 s1 W1) as L2.
  destruct (for_range setup_tableSchema 0 _ s1) as [s2 []|?|?]; [|discriminate|contradiction].
  destruct L2 as (W2 & _).
  pose proof (viewSchema_loop_safe (elems (viewSchemas s2)) 0 s2 W2) as L3.
  destruct (for_range setup_viewSchema 0 _ s2) as [s3 []|?|?]; [|discriminate|contradiction].
  destruct (tableData_loop (elems (tableDatas s3)) 0 s3 L3) as (s4 & -> & _).
  discriminate.
Qed.

Section Panics.

Variable growslice : nat -> nat.
Variable Table_String : filter.Table -> string.

(** The name router panics only in its counting loops, on a file whose
    database has no database-schema file. *)
Lemma route_crash_missing s reason :
  route growslice Table_String s = Crash reason ->
  reason = nil_deref /\
  exists r info,
    router (loader s) = Some r /\ info ∈ table_level_files s /\
    forall d, d ∈ elems (dbSchemas s) -> schema_of d <> schema_of info.
Proof.
  unfold route. destruct (router (loader s)) as [r|] eqn:Hr; [|discriminate].
  destruct (first_failing
              (fun info => schema_of info ∈ map schema_of (elems (dbSchemas s)))
              (table_level_files s)) as [Hall|(l1 & x & l2 & E & _ & Hx)].
  - destruct (count_files_ok s (base_counts (elems (dbSchemas s)))) as (known & Hc & _).
    { intros info Hin. apply base_counts_is_Some.
      apply Hall, list_elem_of_fmap in Hin. destruct Hin as (d & Hs & Hd). eauto. }
    rewrite Hc.
    pose proof (route_rewrite_inv growslice r (s, known) (counted_buckets_known _ _ Hc)) as Hrw.
    destruct (route_rewrite growslice r (s, known)) as [[s' known'] []|[s' known'] e|?];
      [|discriminate|contradiction].
    destruct Hrw as [_ HP]. specialize (HP DbSchemas). simpl in HP.
    destruct (negative_count_dec known' (elems (dbSchemas s'))) as [Hnn|Hneg].
    + rewrite keep_remaining_nonneg by assumption. discriminate.
    + destruct (keep_remaining_negative Table_String known' _ 0 [] HP Hneg)
        as (acc & y & _ & _ & ->).
      discriminate.
  - assert (Hin : x ∈ table_level_files s).
    { rewrite E. apply elem_of_app. right. left. }
    rewrite (count_files_crash s _ x Hin).
    + intros [= <-]. split; [reflexivity|]. exists r, x. split; [reflexivity|].
      split; [exact Hin|]. intros d Hd Hs. apply Hx. apply list_elem_of_fmap. eauto.
    + apply not_is_Some_None. intros (d & Hd & Hs)%base_counts_is_Some.
      apply Hx. apply list_elem_of_fmap. eauto.
Qed.

(** X15: a load panics in one way only: a router is configured and the
    scan found a table-schema, view-schema or data file whose database has
    no database-schema file, which makes the counting loop of the name
    router dereference a nil map entry.  Without a router a load never
    panics. *)
Theorem load_panics_only_in_route st f r fr cs opts reason :
  NewMyDumpLoaderWithStore growslice Table_String st f r fr cs opts = Panicked reason ->
  reason = nil_deref /\
  exists rt s1 err info,
    r = Some rt /\
    listFiles growslice st (new_setup st f r fr cs opts) = (s1, err) /\
    info ∈ table_level_files s1 /\
    forall d, d ∈ elems (dbSchemas s1) -> schema_of d <> schema_of info.
Proof.
  rewrite load_of_setup.
  pose proof (setup_cases growslice Table_String st (new_setup st f r fr cs opts)) as Hc.
  destruct (setup growslice Table_String st (new_setup st f r fr cs opts))
    as [s' []|s' e|reason'] eqn:Hs.
  - discriminate.
  - destruct (ErrorEqual e TooManySourceFiles); discriminate.
  - intros [= ->].
    assert (G : forall s1 err, listFiles growslice st (new_setup st f r fr cs opts) = (s1, err) ->
                router (loader s1) = r /\ fresh s1).
    { intros s1 err HL. pose proof (listFiles_untouched growslice _ _ _ _ HL) as U.
      split; [destruct U as (-> & _); reflexivity|].
      eapply fresh_untouched; [exact U|]. repeat split. }
    inversion Hc as [| |s1 err rs HL HC HR| |s1 err s2 rs HL HC HR HA|s1 err s2 s3 HL HC HR HA Heq].
    + destruct (route_crash_missing _ _ HR) as (-> & rt & info & Hrt & Hin & Hmiss).
      split; [reflexivity|]. exists rt, s1, err, info.
      destruct (G _ _ HL) as [<- _]. auto.
    + exfalso. eapply (assemble_safe s2); [|exact HA].
      eapply fresh_untouched; [eapply route_untouched, HR|]. apply (G _ _ HL).
    + destruct err; discriminate.
Qed.

End Panics.

(** ** Failing routing rules *)

Lemma first_error_app r l l' :
  first_error r (l ++ l')
  = match first_error r l with Some e => Some e | None => first_error r l' end.
Proof.
  induction l as [|x l IH]; simpl; [reflexivity|].
  destruct (r _ _); [reflexivity|exact IH].
Qed.

Section RuleFailure.

Variable growslice : nat -> nat.
Variable Table_String : filter.Table -> string.

(** [runRoute] stops at the first file its rules reject, with their error,
    and completes when there is none. *)
Lemma runRoute_range_error r todo : forall i st,
  names_known st -> known_names (knownDBNames st) todo ->
  match first_error r todo with
  | Some e => exists st', for_range (runRoute_body growslice r) i todo st = Fail st' e
  | None => exists st', for_range (runRoute_body growslice r) i todo st = Ret st' tt
  end.
Proof.
  induction todo as [|x todo IH]; intros i st Hn Hk; simpl; unfold_M; [eauto|].
  pose proof (runRoute_body_inv growslice r i x st Hn (Hk x ltac:(left))) as Hb.
  unfold name_of. destruct (r (schema_of x) (filter.Name (TableName x))) as [e|p] eqn:Hr.
  - unfold runRoute_body at 1. unfold schema_of in Hr. rewrite Hr. eauto.
  - destruct (runRoute_body growslice r i x st) as [st1 []|st1 e|?].
    + destruct Hb as [Hext Hn1]. apply IH; [exact Hn1|].
      intros y Hy. apply Hext, Hk. right. exact Hy.
    + destruct Hb as [_ Hb]. congruence.
    + contradiction.
Qed.

Lemma route_pass_error r b s known :
  buckets_known (s, known) ->
  match first_error r (elems (bucket_of b s)) with
  | Some e => exists sk', route_pass growslice r b (s, known) = Fail sk' e
  | None => exists sk', route_pass growslice r b (s, known) = Ret sk' tt
  end.
Proof.
  intros Hk. unfold route_pass, runRoute. cbn [arr].
  match goal with
  | |- context [for_range _ 0 _ ?st0] =>
      pose proof (runRoute_range_error r (elems (bucket_of b s)) 0 st0) as H
  end.
  destruct (first_error r (elems (bucket_of b s))) as [e|].
  - destruct H as (st' & ->); [split; [apply (Hk DbSchemas)|apply (Hk b)]|apply (Hk b)|].
    eauto.
  - destruct H as (st' & ->); [split; [apply (Hk DbSchemas)|apply (Hk b)]|apply (Hk b)|].
    eauto.
Qed.

Lemma route_rewrite_error r s known :
  buckets_known (s, known) ->
  match first_error r (assembly_order s) with
  | Some e => exists sk', route_rewrite growslice r (s, known) = Fail sk' e
  | None => exists sk', route_rewrite growslice r (s, known) = Ret sk' tt
  end.
Proof.
  intros K0. unfold assembly_order, route_rewrite. unfold_M. rewrite !first_error_app.
  pose proof (route_pass_error r DbSchemas s known K0) as P1.
  pose proof (route_pass_inv growslice r DbSchemas (s, known) K0) as I1.
  cbn [bucket_of] in P1.
  destruct (first_error r (elems (dbSchemas s))) as [e|].
  { destruct P1 as (sk' & ->). eauto. }
  destruct P1 as ([s1 k1] & E1). rewrite E1 in I1 |- *. destruct I1 as [_ K1].
  pose proof (route_pass_db_buckets growslice r s known s1 k1 E1) as F1.
  pose proof (route_pass_error r TableSchemas s1 k1 K1) as P2.
  pose proof (route_pass_inv growslice r TableSchemas (s1, k1) K1) as I2.
  rewrite (F1 TableSchemas) in P2 by discriminate. cbn [bucket_of] in P2.
  destruct (first_error r (elems (tableSchemas s))) as [e|].
  { destruct P2 as (sk' & ->). eauto. }
  destruct P2 as ([s2 k2] & E2). rewrite E2 in I2 |- *. destruct I2 as [_ K2].
  destruct (route_pass_buckets growslice r TableSchemas s1 k1 s2 k2 ltac:(discriminate) E2)
    as [_ F2].
  pose proof (route_pass_error r ViewSchemas s2 k2 K2) as P3.
  pose proof (route_pass_inv growslice r ViewSchemas (s2, k2) K2) as I3.
  rewrite (F2 ViewSchemas), (F1 ViewSchemas) in P3 by discriminate. cbn [bucket_of] in P3.
  destruct (first_error r (elems (viewSchemas s))) as [e|].
  { destruct P3 as (sk' & ->). eauto. }
  destruct P3 as ([s3 k3] & E3). rewrite E3 in I3 |- *. destruct I3 as [_ K3].
  destruct (route_pass_buckets growslice r ViewSchemas s2 k2 s3 k3 ltac:(discriminate) E3)
    as [_ F3].
  pose proof (route_pass_error r TableDatas s3 k3 K3) as P4.
  rewrite (F3 TableDatas), (F2 TableDatas), (F1 TableDatas) in P4 by discriminate.
  cbn [bucket_of] in P4. exact P4.
Qed.

(** X16: with a router configured and every table-level file's database
    present, the routing pass fails with the error of the first file, in
    the order database-schema, table-schema, view-schema, data files, that
    the routing rules reject; the load then returns no catalog and that
    error wrapped as a table-route error. *)
Theorem routing_rule_failure st f rt fr cs opts s1 err e :
  listFiles growslice st (new_setup st f (Some rt) fr cs opts) = (s1, err) ->
  scan_continues err ->
  (forall info, info ∈ table_level_files s1 ->
     exists d, d ∈ elems (dbSchemas s1) /\ schema_of d = schema_of info) ->
  first_error rt (assembly_order s1) = Some e ->
  (exists s', route growslice Table_String s1 = Fail s' e) /\
  NewMyDumpLoaderWithStore growslice Table_String st f (Some rt) fr cs opts
  = Returned None (Some (Wrapped ErrTableRoute "table route error" e)).
Proof.
  intros HL HC Hall He.
  assert (Hr : router (loader s1) = Some rt).
  { destruct (listFiles_untouched growslice _ _ _ _ HL) as (-> & _). reflexivity. }
  assert (HF : exists s', route growslice Table_String s1 = Fail s' e).
  { unfold route. rewrite Hr.
    destruct (count_files_ok s1 (base_counts (elems (dbSchemas s1)))) as (known & Hc & _).
    { intros info Hin. apply base_counts_is_Some, Hall, Hin. }
    rewrite Hc.
    pose proof (route_rewrite_error rt s1 known (counted_buckets_known _ _ Hc)) as Hrw.
    rewrite He in Hrw. destruct Hrw as ([s' k'] & ->). eauto. }
  split; [exact HF|]. destruct HF as (s' & HF).
  rewrite load_of_setup. unfold setup. change (store (loader (new_setup st f (Some rt) fr cs opts))) with st.
  rewrite HL.
  destruct err as [e0|]; simpl in HC; [rewrite HC|]; rewrite HF; reflexivity.
Qed.

End RuleFailure.

(** ** Duplicate schema files without a router *)

(** Database-schema files of pairwise distinct new names pass the first
    assembly loop. *)
Lemma dbSchema_loop_distinct l : forall i s,
  indexed s ->
  (forall x, x ∈ l -> schema_of x ∉ db_names (dbs (loader s))) ->
  NoDup (map schema_of l) ->
  exists s', for_range setup_dbSchema i l s = Ret s' tt.
Proof.
  induction l as [|x l IH]; intros i s W Hnew Hnd; simpl; unfold_M; [eauto|].
  unfold setup_dbSchema at 1. unfold_M.
  destruct (insertDB_exact x s W) as (s1 & j & d & b & -> & W1 & Hdbs & _ & _ & Hb & _).
  assert (b = false) as ->.
  { destruct b; [|reflexivity]. exfalso. apply (Hnew x); [left|]. apply Hb. reflexivity. }
  simpl. apply IH; [exact W1| |].
  - intros y Hy. rewrite Hdbs, db_names_ensure_db, elem_of_add_name.
    intros [Hin|E]; [eapply Hnew; [right; exact Hy|exact Hin]|].
    apply NoDup_cons in Hnd. destruct Hnd as [Hx _]. apply Hx. rewrite <- E.
    apply list_elem_of_fmap. eauto.
  - apply NoDup_cons in Hnd. apply Hnd.
Qed.

Section Duplicates.

Variable growslice : nat -> nat.
Variable Table_String : filter.Table -> string.

(** X17: without a router, a scan that lists a second database-schema file
    for a database, or (the database-schema files being of distinct names)
    a second table-schema file for a table, makes the load fail with an
    invalid-schema-file error that names the path of the first such
    duplicate, and no catalog is returned. *)
Theorem duplicate_schema_files_fail_load st f fr cs opts s1 err l1 x l2 :
  listFiles growslice st (new_setup st f None fr cs opts) = (s1, err) ->
  scan_continues err ->
  (elems (dbSchemas s1) = l1 ++ x :: l2 ->
   NoDup (map schema_of l1) -> schema_of x ∈ map schema_of l1 ->
   NewMyDumpLoaderWithStore growslice Table_String st f None fr cs opts
   = Returned None
       (Some (Normalized ErrInvalidSchemaFile
                ("invalid database schema file, duplicated item - " ++ Path (FileMeta x)))))
  /\
  (NoDup (map schema_of (elems (dbSchemas s1))) ->
   elems (tableSchemas s1) = l1 ++ x :: l2 ->
   NoDup (map key_of l1) -> key_of x ∈ map key_of l1 ->
   NewMyDumpLoaderWithStore growslice Table_String st f None fr cs opts
   = Returned None
       (Some (Normalized ErrInvalidSchemaFile
                ("invalid table schema file, duplicated item - " ++ Path (FileMeta x))))).
Proof.
  intros HL HC.
  pose proof (listFiles_untouched growslice _ _ _ _ HL) as U.
  assert (Hf : fresh s1) by (eapply fresh_untouched; [exact U|]; repeat split).
  assert (Hr : router (loader s1) = None) by (destruct U as (-> & _); reflexivity).
  assert (Hnil : router_is_nil s1 = true) by (unfold router_is_nil; rewrite Hr; reflexivity).
  assert (HR : route growslice Table_String s1 = Ret s1 tt)
    by (unfold route; rewrite Hr; reflexivity).
  split.
  - intros E Hnd Hin.
    destruct (duplicate_database_schema_rejected s1 l1 x l2 Hf Hnil E Hnd Hin) as (s' & HA).
    apply (load_fails_in_assembly growslice Table_String _ _ _ _ _ _ _ _ _ _ _ HL HC HR HA).
  - intros HD E Hnd Hin.
    destruct (dbSchema_loop_distinct (elems (dbSchemas s1)) 0 s1 (fresh_indexed _ Hf))
      as (s2 & H2); [|exact HD|].
    { intros y _. destruct Hf as (_ & _ & ->). intros H. inversion H. }
    destruct (duplicate_table_schema_rejected s1 s2 l1 x l2 Hf Hnil H2 E Hnd Hin) as (s' & HA).
    apply (load_fails_in_assembly growslice Table_String _ _ _ _ _ _ _ _ _ _ _ HL HC HR HA).
Qed.

End Duplicates.

(** ** File kinds *)

(** X18: the three declared file kinds print as three different names, and
    every other value prints as [(unknown)]: two kinds print alike exactly
    when they are equal or both undeclared. *)
Theorem fileType_String_names (a b : fileType) :
  fileType_String a = fileType_String b <->
  a = b \/ (~ (0 <= a <= 2)%Z /\ ~ (0 <= b <= 2)%Z).
Proof.
  unfold fileType_String, fileTypeDatabaseSchema, fileTypeTableSchema, fileTypeTableData.
  destruct (Z.eqb_spec a 0), (Z.eqb_spec a 1), (Z.eqb_spec a 2),
           (Z.eqb_spec b 0), (Z.eqb_spec b 1), (Z.eqb_spec b 2);
    split; intros H; try discriminate; try lia; try reflexivity.
Qed.

(** * Further concrete loads *)

(** A test for the presence of every file's database among the
    database-schema files. *)
Lemma present_by_test (D L : list FileInfo) :
  forallb (fun info => bool_decide (schema_of info ∈ map schema_of D)) L = true ->
  forall info, info ∈ L -> exists d, d ∈ D /\ schema_of d = schema_of info.
Proof.
  intros H info Hin. rewrite forallb_forall in H.
  specialize (H info (proj1 (list_elem_of_In _ _) Hin)).
  apply bool_decide_eq_true in H. apply list_elem_of_fmap in H.
  destruct H as (d & E & Hd). eauto.
Qed.

(** The scan of three entries with a ceiling of one. *)
Lemma scan_buckets_witness :
  exists s',
    listFiles double_cap late_store late_setup
    = (s', if over_ceiling late_setup (walk_entries late_store)
           then Some TooManySourceFiles else walk_failure late_store) /\
    untouched late_setup s' /\
    forall b, elems (bucket_of b s')
              = elems (bucket_of b late_setup)
                ++ scanned b (loader late_setup)
                     (visited late_setup (walk_entries late_store)).
Proof.
  apply (scan_buckets double_cap late_store late_setup).
  - vm_compute. reflexivity.
  - intros path size e _. vm_compute. discriminate.
Defined.

Lemma scan_files_accepted_witness :
  db1_schema_info ∈ elems (bucket_of DbSchemas scenario_setup) \/
  (bucket_kind (Type_ (FileMeta db1_schema_info)) = Some DbSchemas /\
   shouldSkip (loader scenario_setup) (TableName db1_schema_info) = false /\
   (Path (FileMeta db1_schema_info), FileSize (FileMeta db1_schema_info))
     ∈ walk_entries scenario_store).
Proof.
  apply (scan_files_accepted double_cap scenario_store scenario_setup DbSchemas
           db1_schema_info).
  vm_compute. left.
Defined.

Lemma scan_file_router_error_witness :
  (exists s',
     listFiles double_cap failing_store
       (new_setup failing_store match_all None failing_file_router "utf8mb4" [])
     = (s', Some (Annotated ("apply file routing on file '" ++ "db1.t1.sql" ++ "' failed")
                    (Foreign "invalid capture group in the pattern"))) /\
     forall b, elems (bucket_of b s')
               = scanned b (loader (new_setup failing_store match_all None
                                              failing_file_router "utf8mb4" []))
                         failing_entries_before)
  /\
  (ErrorEqual (Foreign "invalid capture group in the pattern") TooManySourceFiles = false ->
   forall Table_String,
     NewMyDumpLoaderWithStore double_cap Table_String failing_store match_all None
                              failing_file_router "utf8mb4" []
     = Returned None
         (Some (Wrapped ErrStorageUnknown "list file failed"
                  (Annotated ("apply file routing on file '" ++ "db1.t1.sql" ++ "' failed")
                     (Foreign "invalid capture group in the pattern"))))).
Proof.
  apply (scan_file_router_error double_cap failing_store match_all None failing_file_router
           "utf8mb4" [] failing_entries_before "db1.t1.sql" 500%Z failing_entries_after
           (Foreign "invalid capture group in the pattern")).
  - reflexivity.
  - intros p sz e' Hin. apply list_elem_of_singleton in Hin. injection Hin as -> ->.
    vm_compute. discriminate.
  - reflexivity.
  - left. vm_compute. discriminate.
Defined.

Lemma walk_failure_aborts_load_witness :
  NewMyDumpLoaderWithStore double_cap quoted_name unreliable_store match_all None
                           (router_of_table scenario_rules) "utf8mb4" []
  = Returned None (Some (Wrapped ErrStorageUnknown "list file failed"
                           (Foreign "connection reset"))).
Proof.
  apply (walk_failure_aborts_load double_cap unreliable_store match_all None
           (router_of_table scenario_rules) "utf8mb4" [] (Foreign "connection reset")
           quoted_name).
  - reflexivity.
  - reflexivity.
  - reflexivity.
  - vm_compute. reflexivity.
  - intros path size e' _. vm_compute. discriminate.
Defined.

(** The table and the data file of [a] are renamed to [b]. *)
Lemma route_renames_witness :
  Forall2 (routed_to moved_router) (elems (bucket_of TableDatas moved_setup))
          (elems (bucket_of TableDatas moved_routed)).
Proof.
  apply (route_renames double_cap quoted_name moved_setup moved_routed moved_router
           TableDatas).
  - reflexivity.
  - vm_compute. reflexivity.
  - discriminate.
Defined.

Lemma route_keeping_names_witness :
  route double_cap quoted_name kept_setup = Ret kept_setup tt.
Proof.
  apply (route_keeping_names double_cap quoted_name kept_setup (rename_databases [])).
  - reflexivity.
  - intros b info _. reflexivity.
  - apply present_by_test. vm_compute. reflexivity.
  - vm_compute. reflexivity.
Defined.

Lemma routing_rule_failure_witness :
  (exists s', route double_cap quoted_name broken_rule_setup
              = Fail s' (Foreign "invalid capture group in the target pattern")) /\
  NewMyDumpLoaderWithStore double_cap quoted_name broken_rule_store match_all
                           (Some broken_router) (router_of_table negative_rules)
                           "utf8mb4" []
  = Returned None (Some (Wrapped ErrTableRoute "table route error"
                           (Foreign "invalid capture group in the target pattern"))).
Proof.
  apply (routing_rule_failure double_cap quoted_name broken_rule_store match_all
           broken_router (router_of_table negative_rules) "utf8mb4" []
           broken_rule_setup None).
  - vm_compute. reflexivity.
  - exact I.
  - apply present_by_test. vm_compute. reflexivity.
  - vm_compute. reflexivity.
Defined.

Lemma load_panics_only_in_route_witness :
  nil_deref = nil_deref /\
  exists rt s1 err info,
    Some (rename_databases []) = Some rt /\
    listFiles double_cap orphan_store
      (new_setup orphan_store match_all (Some (rename_databases []))
                 (router_of_table bare_rules) "utf8mb4" []) = (s1, err) /\
    info ∈ table_level_files s1 /\
    forall d, d ∈ elems (dbSchemas s1) -> schema_of d <> schema_of info.
Proof.
  apply (load_panics_only_in_route double_cap quoted_name orphan_store match_all
           (Some (rename_databases [])) (router_of_table bare_rules) "utf8mb4" []
           nil_deref).
  vm_compute. reflexivity.
Defined.

Lemma insert_found_again_witness :
  (forall s' i b, insertDB db1_schema_info scenario_setup = Ret s' (i, b) ->
                  insertDB db1_schema_info s' = Ret s' (i, true)) /\
  (forall s' i j de te,
     insertTable db1_schema_info scenario_setup = Ret s' ((i, j), de, te) ->
     insertTable db1_schema_info s' = Ret s' ((i, j), true, true)).
Proof.
  apply (insert_found_again db1_schema_info scenario_setup).
  apply fresh_indexed. repeat split.
Defined.

Lemma catalog_database_order_witness :
  exists mdl,
    mixed_load = Returned (Some mdl) None /\
    exists s,
      load_buckets double_cap quoted_name mixed_store match_all None
                   (router_of_table mixed_rules) "utf8mb4" [] None s /\
      db_names (dbs mdl) = first_seen (map schema_of (assembly_order s)) /\
      NoDup (db_names (dbs mdl)).
Proof.
  eexists. split.
  - vm_compute. reflexivity.
  - eapply (catalog_database_order double_cap quoted_name mixed_store match_all None
              (router_of_table mixed_rules) "utf8mb4" [] _ None).
    vm_compute. reflexivity.
Defined.

Lemma catalog_views_witness :
  exists mdl,
    mixed_load = Returned (Some mdl) None /\
    exists s,
      load_buckets double_cap quoted_name mixed_store match_all None
                   (router_of_table mixed_rules) "utf8mb4" [] None s /\
      forall d, d ∈ dbs mdl ->
        MDDatabaseMeta.Views d
        = map (view_meta "utf8mb4")
              (files_of_schema (MDDatabaseMeta.Name d) (elems (viewSchemas s))).
Proof.
  eexists. split.
  - vm_compute. reflexivity.
  - eapply (catalog_views double_cap quoted_name mixed_store match_all None
              (router_of_table mixed_rules) "utf8mb4" [] _ None).
    vm_compute. reflexivity.
Defined.

Lemma catalog_tables_witness :
  exists mdl,
    mixed_load = Returned (Some mdl) None /\
    exists s,
      load_buckets double_cap quoted_name mixed_store match_all None
                   (router_of_table mixed_rules) "utf8mb4" [] None s /\
      forall d, d ∈ dbs mdl ->
        NoDup (table_names (MDDatabaseMeta.Tables d)) /\
        (forall t, t ∈ MDDatabaseMeta.Tables d -> MDTableMeta.DB t = MDDatabaseMeta.Name d) /\
        (forall tbl, tbl ∈ table_names (MDDatabaseMeta.Tables d) <->
           (MDDatabaseMeta.Name d, tbl)
             ∈ map key_of (elems (tableSchemas s) ++ elems (tableDatas s))).
Proof.
  eexists. split.
  - vm_compute. reflexivity.
  - eapply (catalog_tables double_cap quoted_name mixed_store match_all None
              (router_of_table mixed_rules) "utf8mb4" [] _ None).
    vm_compute. reflexivity.
Defined.

Lemma catalog_data_files_witness :
  exists mdl,
    mixed_load = Returned (Some mdl) None /\
    exists s,
      load_buckets double_cap quoted_name mixed_store match_all None
                   (router_of_table mixed_rules) "utf8mb4" [] None s /\
      (forall d t, d ∈ dbs mdl -> t ∈ MDDatabaseMeta.Tables d ->
         stable_sort_of (fun x => SortKey (FileMeta x)) (fun j k => String.leb j k = true)
           (files_named (MDDatabaseMeta.Name d) (MDTableMeta.Name t) (elems (tableDatas s)))
           (MDTableMeta.DataFiles t) /\
         MDTableMeta.TotalSize t
         = total_size (files_named (MDDatabaseMeta.Name d) (MDTableMeta.Name t)
                                   (elems (tableDatas s)))) /\
      (forall x, x ∈ elems (tableDatas s) ->
         exists d t, d ∈ dbs mdl /\ t ∈ MDDatabaseMeta.Tables d /\
                     MDDatabaseMeta.Name d = schema_of x /\ MDTableMeta.Name t = name_of x /\
                     x ∈ MDTableMeta.DataFiles t).
Proof.
  eexists. split.
  - vm_compute. reflexivity.
  - eapply (catalog_data_files double_cap quoted_name mixed_store match_all None
              (router_of_table mixed_rules) "utf8mb4" [] _ None).
    vm_compute. reflexivity.
Defined.

Lemma catalog_schema_files_witness :
  exists mdl,
    mixed_load = Returned (Some mdl) None /\
    exists s,
      load_buckets double_cap quoted_name mixed_store match_all None
                   (router_of_table mixed_rules) "utf8mb4" [] None s /\
      forall d, d ∈ dbs mdl ->
        MDDatabaseMeta.SchemaFile d
        = match files_of_schema (MDDatabaseMeta.Name d) (elems (dbSchemas s)) with
          | f :: _ => f
          | [] => mkFileInfo (filter.mkTable (MDDatabaseMeta.Name d) "")
                             (mkSourceFileMeta "" SourceTypeSchemaSchema 0%Z "" 0%Z)
          end /\
        MDDatabaseMeta.charSet d = "utf8mb4" /\
        forall t, t ∈ MDDatabaseMeta.Tables d ->
          MDTableMeta.SchemaFile t
          = match files_named (MDDatabaseMeta.Name d) (MDTableMeta.Name t)
                              (elems (tableSchemas s)) with
            | f :: _ => f
            | [] => mkFileInfo (filter.mkTable (MDDatabaseMeta.Name d) (MDTableMeta.Name t))
                               zeroFileMeta
            end /\
          MDTableMeta.charSet t = "utf8mb4".
Proof.
  eexists. split.
  - vm_compute. reflexivity.
  - eapply (catalog_schema_files double_cap quoted_name mixed_store match_all None
              (router_of_table mixed_rules) "utf8mb4" [] _ None).
    vm_compute. reflexivity.
Defined.

Lemma duplicate_schema_files_fail_load_witness :
  NewMyDumpLoaderWithStore double_cap quoted_name twin_store match_all None
                           (router_of_table twin_rules) "utf8mb4" []
  = Returned None
      (Some (Normalized ErrInvalidSchemaFile
               ("invalid database schema file, duplicated item - "
                  ++ Path (FileMeta twin_second)))) /\
  NewMyDumpLoaderWithStore double_cap quoted_name twin_table_store match_all None
                           (router_of_table twin_table_rules) "utf8mb4" []
  = Returned None
      (Some (Normalized ErrInvalidSchemaFile
               ("invalid table schema file, duplicated item - "
                  ++ Path (FileMeta twin_table_second)))).
Proof.
  split.
  - apply (proj1 (duplicate_schema_files_fail_load double_cap quoted_name twin_store match_all
                    (router_of_table twin_rules) "utf8mb4" []
                    (fst (listFiles double_cap twin_store
                            (new_setup twin_store match_all None
                                       (router_of_table twin_rules) "utf8mb4" [])))
                    None [twin_first] twin_second []
                    ltac:(vm_compute; reflexivity) I)).
    + vm_compute. reflexivity.
    + vm_compute. apply NoDup_singleton.
    + vm_compute. left.
  - apply (proj2 (duplicate_schema_files_fail_load double_cap quoted_name twin_table_store
                    match_all (router_of_table twin_table_rules) "utf8mb4" []
                    (fst (listFiles double_cap twin_table_store
                            (new_setup twin_table_store match_all None
                                       (router_of_table twin_table_rules) "utf8mb4" [])))
                    None [twin_table_first] twin_table_second []
                    ltac:(vm_compute; reflexivity) I)).
    + vm_compute. apply NoDup_singleton.
    + vm_compute. reflexivity.
    + vm_compute. apply NoDup_singleton.
    + vm_compute. left.
Defined.

Lemma loaded_without_schema_file_witness :
  exists mdl,
    mixed_load = Returned (Some mdl) None /\
    exists s,
      load_buckets double_cap quoted_name mixed_store match_all None
                   (router_of_table mixed_rules) "utf8mb4" [] None s /\
      forall d, d ∈ dbs mdl ->
        (files_of_schema (MDDatabaseMeta.Name d) (elems (dbSchemas s)) = [] ->
         MDDatabaseMeta_GetSchema back_quote export_create d mixed_store
         = ("CREATE DATABASE IF NOT EXISTS " ++ back_quote (MDDatabaseMeta.Name d))%string) /\
        forall t, t ∈ MDDatabaseMeta.Tables d ->
          files_named (MDDatabaseMeta.Name d) (MDTableMeta.Name t) (elems (tableSchemas s)) = [] ->
          MDTableMeta_GetSchema export_create t mixed_store
          = ("", Some (Errorf ("schema file is missing for the table '"
                                 ++ MDDatabaseMeta.Name d ++ "." ++ MDTableMeta.Name t ++ "'"))).
Proof.
  eexists. split.
  - vm_compute. reflexivity.
  - eapply (loaded_without_schema_file double_cap quoted_name back_quote export_create
              mixed_store match_all None (router_of_table mixed_rules) "utf8mb4" [] _ None
              mixed_store).
    vm_compute. reflexivity.
Defined.
